(** * BlockForge filter engine: a shallow embedding

    The development follows [src/background/modules/filter-engine.js]:
    the [FilterEngine] class (filter-list parser, pattern translator,
    domain matcher, rule compiler, cosmetic lookup, list toggling) and the
    [RuleManager] class (rule-id ranges, whitelist and blacklist rules).

    JavaScript strings are modelled as [string]; a character stands for a
    UTF-16 code unit below 256.  Numbers that the code uses as rule ids,
    priorities and counters are modelled as [Z]. *)

From Stdlib Require Import ZArith List String Ascii Bool Lia Sorted.
From stdpp Require Import base strings gmap.
Import ListNotations.

Local Open Scope string_scope.
Local Open Scope list_scope.

(** ** JavaScript string primitives *)

Module JsString.

Definition code (c : ascii) : nat := nat_of_ascii c.

(** [WhiteSpace] and [LineTerminator] code units below 256: TAB, LF, VT,
    FF, CR, SPACE and NBSP.  This is the set [String.prototype.trim]
    strips and the regular-expression class [\s] matches. *)
Definition isWhiteSpace (c : ascii) : bool :=
  match code c with
  | 9 | 10 | 11 | 12 | 13 | 32 | 160 => true
  | _ => false
  end.

(** Line terminators below 256 (LF and CR): what [.] refuses to match. *)
Definition isLineTerminator (c : ascii) : bool :=
  match code c with
  | 10 | 13 => true
  | _ => false
  end.

Definition LF : ascii := ascii_of_nat 10.
Definition nl : string := String LF "".

Fixpoint forallb (p : ascii -> bool) (s : string) : bool :=
  match s with
  | "" => true
  | String c s' => p c && forallb p s'
  end.

(** No character of [s] is a line terminator: [s] can be consumed by a
    run of [.] in a regular expression. *)
Definition dotRun (s : string) : bool :=
  forallb (fun c => negb (isLineTerminator c)) s.

Definition isEmpty (s : string) : bool :=
  match s with "" => true | _ => false end.

(** [s.startsWith(p)] *)
Fixpoint startsWith (p s : string) : bool :=
  match p, s with
  | "", _ => true
  | String a p', String b s' => Ascii.eqb a b && startsWith p' s'
  | String _ _, "" => false
  end.

(** [s.slice(n)] for [0 <= n] *)
Fixpoint drop (n : nat) (s : string) : string :=
  match n, s with
  | O, _ => s
  | S n', String _ s' => drop n' s'
  | S _, "" => ""
  end.

Fixpoint rev_acc (s acc : string) : string :=
  match s with
  | "" => acc
  | String c s' => rev_acc s' (String c acc)
  end.

Definition rev (s : string) : string := rev_acc s "".

(** [s.endsWith(p)] *)
Definition endsWith (p s : string) : bool := startsWith (rev p) (rev s).

(** [s.includes(p)] *)
Fixpoint includes (p s : string) : bool :=
  startsWith p s ||
  match s with
  | "" => false
  | String _ s' => includes p s'
  end.

Fixpoint trimStart (s : string) : string :=
  match s with
  | "" => ""
  | String c s' => if isWhiteSpace c then trimStart s' else s
  end.

Definition trimEnd (s : string) : string := rev (trimStart (rev s)).

(** [s.trim()] *)
Definition trim (s : string) : string := trimEnd (trimStart s).

(** [s.split(c)] for a one-character separator: the pieces between the
    occurrences of [c]; there is always at least one piece. *)
Fixpoint split (sep : ascii) (s : string) : list string :=
  match s with
  | "" => [""]
  | String c s' =>
      if Ascii.eqb c sep then "" :: split sep s'
      else match split sep s' with
           | [] => [String c ""]
           | piece :: pieces => String c piece :: pieces
           end
  end.

(** Removes the last character: with [drop 1] this is [s.slice(1, -1)]. *)
Fixpoint dropLast (s : string) : string :=
  match s with
  | "" => ""
  | String c "" => ""
  | String c s' => String c (dropLast s')
  end.

(** [s.replace(/[set]/g, f)]: every character satisfying [p] is replaced
    by [f c]. *)
Fixpoint replaceChars (p : ascii -> bool) (f : ascii -> string) (s : string) : string :=
  match s with
  | "" => ""
  | String c s' =>
      (if p c then f c else String c "") +:+ replaceChars p f s'
  end.

(** [s.replace(/^prefix/, r)] for a literal prefix. *)
Definition replacePrefix (prefix r s : string) : string :=
  if startsWith prefix s then r +:+ drop (String.length prefix) s else s.

(** [s.replace(/suffix$/, r)] for a literal suffix. *)
Definition replaceSuffix (suffix r s : string) : string :=
  if endsWith suffix s
  then rev (drop (String.length suffix) (rev s)) +:+ r
  else s.

(** First occurrence of [sep] in [s]: the text before it and after it. *)
Fixpoint splitAtFirst (sep s : string) : option (string * string) :=
  if startsWith sep s then Some ("", drop (String.length sep) s)
  else match s with
       | "" => None
       | String c s' =>
           match splitAtFirst sep s' with
           | Some (a, b) => Some (String c a, b)
           | None => None
           end
       end.

(** [s.match(/^(.+?)SEP(.+)$/)] for a literal separator [SEP] that holds
    no line terminator: the lazy first group takes at least one character
    and stops at the first later occurrence of [SEP]; both groups are runs
    of [.], so the match fails when [s] holds a line terminator, and the
    second group may not be empty. *)
Definition matchLazySplit (sep s : string) : option (string * string) :=
  match s with
  | "" => None
  | String c s' =>
      if dotRun s then
        match splitAtFirst sep s' with
        | Some (a, b) => if isEmpty b then None else Some (String c a, b)
        | None => None
        end
      else None
  end.

(** Longest prefix of characters satisfying [p], and the rest. *)
Fixpoint span (p : ascii -> bool) (s : string) : string * string :=
  match s with
  | "" => ("", "")
  | String c s' =>
      if p c then let (a, b) := span p s' in (String c a, b)
      else ("", s)
  end.

Fixpoint lastChar (s : string) : option ascii :=
  match s with
  | "" => None
  | String c "" => Some c
  | String _ s' => lastChar s'
  end.

End JsString.
Import JsString.

(** ** Parsed rules and compiled rules *)

(** The object [parseRuleOptions] fills.  A flag the code leaves undefined
    is [false]; an array it never creates is [None]. *)
Record RuleOptions := mkOptions {
  opt_domains : option (list string);
  opt_thirdParty : bool;
  opt_firstParty : bool;
  opt_resourceTypes : option (list string);
  opt_important : bool
}.

(** The records the parser returns, one constructor per [type] tag:
    ['element-exception'], ['element-hide'], ['scriptlet'],
    ['network-exception'] and ['network-block'].  Records built by
    [parseHostsFile] have no [options] field. *)
Inductive ParsedRule :=
| ElementException (domains : list string) (selector : string)
| ElementHide (domains : list string) (selector : string)
| Scriptlet (domains : list string) (script : string)
| NetworkException (pattern originalRule : string) (options : option RuleOptions)
| NetworkBlock (pattern originalRule : string) (options : option RuleOptions).

Inductive ActionType := allow | block.

Record Condition := mkCondition {
  regexFilter : option string;
  urlFilter : option string;
  cond_resourceTypes : option (list string);
  initiatorDomains : option (list string);
  excludedInitiatorDomains : option (list string);
  domainType : option string;
  requestDomains : option (list string)
}.

(** A declarativeNetRequest rule. *)
Record DNRRule := mkDNR {
  dnr_id : Z;
  dnr_priority : Z;
  dnr_action : ActionType;
  dnr_condition : Condition
}.

(** A user-authored rule as stored in [customRules]. *)
Record CustomRule := mkCustom {
  custom_id : Z;
  custom_pattern : string;
  custom_type : string;
  custom_resourceTypes : option (list string);
  custom_createdAt : Z
}.

(** An entry of [sources]. *)
Record Source := mkSource {
  src_name : string;
  src_url : string;
  src_enabled : bool;
  src_category : string;
  src_format : option string
}.

(** A value of the [filterLists] map.  [fl_rules] is [None] when the cached
    object has no [rules] member; [fl_name] and [fl_category] are [None]
    when the source they were read from had none. *)
Record FilterData := mkFilterData {
  fl_id : string;
  fl_name : option string;
  fl_rules : option (list ParsedRule);
  fl_rulesCount : Z;
  fl_lastUpdated : Z;
  fl_category : option string
}.

Module FilterEngine.

(** *** Rule grammar parser *)

Definition emptyOptions : RuleOptions := mkOptions None false false None false.

Definition pushResourceType (options : RuleOptions) (t : string) : RuleOptions :=
  mkOptions (opt_domains options) (opt_thirdParty options) (opt_firstParty options)
    (Some (match opt_resourceTypes options with
           | Some ts => ts ++ [t]
           | None => [t]
           end))
    (opt_important options).

(** One iteration of the loop of [parseRuleOptions]: [part.split('=')]
    gives the key and, when there is a second piece, the value. *)
Definition parseRuleOption (options : RuleOptions) (part : string) : RuleOptions :=
  let pieces := split "=" part in
  let key := hd "" pieces in
  let value := nth_error pieces 1 in
  if String.eqb key "domain" then
    mkOptions
      (Some (match value with
             | Some v => if isEmpty v then [] else split "|" v
             | None => []
             end))
      (opt_thirdParty options) (opt_firstParty options)
      (opt_resourceTypes options) (opt_important options)
  else if String.eqb key "third-party" || String.eqb key "3p" then
    mkOptions (opt_domains options) true (opt_firstParty options)
      (opt_resourceTypes options) (opt_important options)
  else if String.eqb key "~third-party" || String.eqb key "1p" then
    mkOptions (opt_domains options) (opt_thirdParty options) true
      (opt_resourceTypes options) (opt_important options)
  else if String.eqb key "script" then pushResourceType options "script"
  else if String.eqb key "image" then pushResourceType options "image"
  else if String.eqb key "stylesheet" || String.eqb key "css" then
    pushResourceType options "stylesheet"
  else if String.eqb key "xmlhttprequest" || String.eqb key "xhr" then
    pushResourceType options "xmlhttprequest"
  else if String.eqb key "subdocument" || String.eqb key "frame" then
    pushResourceType options "sub_frame"
  else if String.eqb key "important" then
    mkOptions (opt_domains options) (opt_thirdParty options) (opt_firstParty options)
      (opt_resourceTypes options) true
  else options.

Definition parseRuleOptions (optionString : string) : RuleOptions :=
  fold_left parseRuleOption (split "," optionString) emptyOptions.

(** The character set [[.+?^${}()|[\]\\]]. *)
Definition isRegexSpecial (c : ascii) : bool :=
  existsb (Ascii.eqb c)
    ["."; "+"; "?"; "^"; "$"; "{"; "}"; "("; ")"; "|"; "["; "]"; "\"]%char.

(** [str.replace(/[.+?^${}()|[\]\\]/g, '\\$&')] *)
Definition escapeRegex (str : string) : string :=
  replaceChars isRegexSpecial (fun c => String "\" (String c "")) str.

Definition ruleToRegex (pattern : string) : string :=
  if startsWith "/" pattern && endsWith "/" pattern then
    dropLast (drop 1 pattern)
  else
    let escaped := replaceChars isRegexSpecial (fun c => String "\" (String c "")) pattern in
    let starred := replaceChars (Ascii.eqb "*") (fun _ => ".*") escaped in
    let separated :=
      replaceChars (Ascii.eqb "^") (fun _ => "([^a-zA-Z0-9_.%-]|$)") starred in
    let domainAnchored :=
      replacePrefix "\|\|" "^https?://([a-z0-9-]+\.)*" separated in
    let startAnchored := replacePrefix "\|" "^" domainAnchored in
    replaceSuffix "\|" "$" startAnchored.

(** [list.split(',').filter(d => d)] *)
Definition domainList (s : string) : list string :=
  List.filter (fun d => negb (isEmpty d)) (split "," s).

Definition parseElementHidingRule (rule : string) : option ParsedRule :=
  match matchLazySplit "#@#" rule with
  | Some (ds, sel) => Some (ElementException (domainList ds) sel)
  | None =>
      match matchLazySplit "##" rule with
      | Some (ds, sel) => Some (ElementHide (domainList ds) sel)
      | None =>
          if startsWith "##" rule then Some (ElementHide [] (drop 2 rule))
          else None
      end
  end.

Definition parseScriptletRule (rule : string) : option ParsedRule :=
  match matchLazySplit "#%#" rule with
  | Some (ds, scr) => Some (Scriptlet (domainList ds) scr)
  | None => None
  end.

Definition parseNetworkRule (rule : string) : ParsedRule :=
  let isException := startsWith "@@" rule in
  let ruleText := if isException then drop 2 rule else rule in
  let (ruleText', options) :=
    match matchLazySplit "$" ruleText with
    | Some (text, opts) => (text, parseRuleOptions opts)
    | None => (ruleText, emptyOptions)
    end in
  let pattern := ruleToRegex ruleText' in
  if isException then NetworkException pattern rule (Some options)
  else NetworkBlock pattern rule (Some options).

Definition parseAdblockRule (rule : string) : option ParsedRule :=
  if includes "##" rule || includes "#@#" rule then parseElementHidingRule rule
  else if includes "#%#" rule || includes "#@%#" rule then parseScriptletRule rule
  else Some (parseNetworkRule rule).

(** One iteration of the loop of [parseAdblockList]. *)
Definition parseAdblockLine (rules : list ParsedRule) (line : string) : list ParsedRule :=
  let trimmed := trim line in
  if isEmpty trimmed || startsWith "!" trimmed || startsWith "[" trimmed then rules
  else match parseAdblockRule trimmed with
       | Some parsed => rules ++ [parsed]
       | None => rules
       end.

Definition parseAdblockList (text : string) : list ParsedRule :=
  fold_left parseAdblockLine (split LF text) [].

(** [trimmed.match(/^(?:0\.0\.0\.0|127\.0\.0\.1)\s+(.+)$/)], the captured
    group.  [\s+] is greedy; when nothing follows the white space it gives
    back its last character to [(.+)]. *)
Definition matchHostsEntry (s : string) : option string :=
  let rest :=
    if startsWith "0.0.0.0" s then Some (drop 7 s)
    else if startsWith "127.0.0.1" s then Some (drop 9 s)
    else None in
  match rest with
  | None => None
  | Some r =>
      let (ws, t) := span isWhiteSpace r in
      if isEmpty ws then None
      else if isEmpty t then
        match lastChar ws with
        | Some c =>
            if (2 <=? String.length ws)%nat && negb (isLineTerminator c)
            then Some (String c "") else None
        | None => None
        end
      else if dotRun t then Some t else None
  end.

Definition hostsPattern (domain : string) : string :=
  "^https?://([a-z0-9-]+\.)*" +:+ escapeRegex domain +:+ "(/|$)".

(** One iteration of the loop of [parseHostsFile]. *)
Definition parseHostsLine (rules : list ParsedRule) (line : string) : list ParsedRule :=
  let trimmed := trim line in
  if isEmpty trimmed || startsWith "#" trimmed then rules
  else match matchHostsEntry trimmed with
       | Some captured =>
           let domain := trim (hd "" (split "#" captured)) in
           if negb (isEmpty domain) && negb (String.eqb domain "localhost")
           then rules ++ [NetworkBlock (hostsPattern domain) trimmed None]
           else rules
       | None => rules
       end.

Definition parseHostsFile (text : string) : list ParsedRule :=
  fold_left parseHostsLine (split LF text) [].

Definition parseFilterList (text format : string) : list ParsedRule :=
  if String.eqb format "hosts" then parseHostsFile text
  else parseAdblockList text.

(** *** Rule compiler *)

Definition defaultResourceTypes : list string :=
  ["script"; "image"; "stylesheet"; "sub_frame";
   "xmlhttprequest"; "media"; "font"; "other"].

Definition customResourceTypes : list string :=
  ["main_frame"; "sub_frame"; "script"; "image"; "stylesheet"; "xmlhttprequest"].

(** The loop of [compileToDNR] over [rule.options.domains]. *)
Definition splitInitiatorDomains (domains : list string) : list string * list string :=
  fold_left
    (fun '(includeDomains, excludeDomains) domain =>
       if startsWith "~" domain
       then (includeDomains, excludeDomains ++ [drop 1 domain])
       else (includeDomains ++ [domain], excludeDomains))
    domains ([], []).

Definition nonEmpty (l : list string) : option (list string) :=
  match l with [] => None | _ => Some l end.

(** [compileToDNR(rule, id)], given [rule.pattern] and [rule.options].
    The [catch] branch of the source (which returns [null]) is not
    reachable from a record built by the parser, whose [domains] are
    arrays of strings; the function therefore always returns a rule. *)
Definition compileToDNR (pattern : string) (options : option RuleOptions) (id : Z) : DNRRule :=
  let resourceTypes :=
    match options with
    | Some o => match opt_resourceTypes o with
                | Some ts => ts
                | None => defaultResourceTypes
                end
    | None => defaultResourceTypes
    end in
  let initiators :=
    match options with
    | Some o => match opt_domains o with
                | Some ds => splitInitiatorDomains ds
                | None => ([], [])
                end
    | None => ([], [])
    end in
  let includeDomains := fst initiators in
  let excludeDomains := snd initiators in
  let dtype :=
    match options with
    | Some o => if opt_thirdParty o then Some "thirdParty"
                else if opt_firstParty o then Some "firstParty"
                else None
    | None => None
    end in
  mkDNR id 1 block
    (mkCondition (Some pattern) None (Some resourceTypes)
       (nonEmpty includeDomains) (nonEmpty excludeDomains) dtype None).

Definition compileCustomToDNR (rule : CustomRule) (id : Z) : option DNRRule :=
  if String.eqb (custom_type rule) "block" then
    Some (mkDNR id 2 block
            (mkCondition None (Some (custom_pattern rule))
               (Some (match custom_resourceTypes rule with
                      | Some ts => ts
                      | None => customResourceTypes
                      end))
               None None None None))
  else if String.eqb (custom_type rule) "allow" then
    Some (mkDNR id 3 allow
            (mkCondition None (Some (custom_pattern rule)) None None None None None))
  else None.

(** The inner loop of [compileRules] over one list's rules: the compiled
    rules it pushes and the value of [ruleId] when it ends. *)
Fixpoint compileListRules (rules : list ParsedRule) (ruleId : Z) : list DNRRule * Z :=
  match rules with
  | [] => ([], ruleId)
  | NetworkBlock pattern _ options :: rest =>
      let (compiled, next) := compileListRules rest (ruleId + 1) in
      (compileToDNR pattern options ruleId :: compiled, next)
  | _ :: rest => compileListRules rest ruleId
  end.

(** The outer loop over [this.filterLists], in the map's insertion
    order, with its [continue] and its [break]. *)
Fixpoint compileLists (lists : list (string * FilterData))
    (compiledRules : list DNRRule) (ruleId : Z) : list DNRRule * Z :=
  match lists with
  | [] => (compiledRules, ruleId)
  | (_, listData) :: rest =>
      match fl_rules listData with
      | None => compileLists rest compiledRules ruleId
      | Some rules =>
          let (compiled, next) := compileListRules rules ruleId in
          let compiledRules' := compiledRules ++ compiled in
          if (30000 <=? Z.of_nat (List.length compiledRules'))%Z
          then (compiledRules', next)
          else compileLists rest compiledRules' next
      end
  end.

(** The loop over [this.customRules]: [ruleId] advances for every custom
    rule, also for one that compiles to [null]. *)
Fixpoint compileCustomRules (rules : list CustomRule) (ruleId : Z) : list DNRRule :=
  match rules with
  | [] => []
  | rule :: rest =>
      match compileCustomToDNR rule ruleId with
      | Some dnrRule => dnrRule :: compileCustomRules rest (ruleId + 1)
      | None => compileCustomRules rest (ruleId + 1)
      end
  end.

(** The list-sourced part of the batch of [compileRules]. *)
Definition compiledListRules (lists : list (string * FilterData)) : list DNRRule :=
  fst (compileLists lists [] 100000).

(** The batch [compileRules] stores in [this.compiledRules] and hands to
    [updateDynamicRules]. *)
Definition compileBatch (lists : list (string * FilterData))
    (customRules : list CustomRule) : list DNRRule :=
  let (compiledRules, ruleId) := compileLists lists [] 100000 in
  compiledRules ++ compileCustomRules customRules ruleId.

(** *** Domain matcher and cosmetic lookup *)

(** [domain === entry || domain.endsWith('.' + entry)] *)
Definition domainMatches (domain entry : string) : bool :=
  String.eqb domain entry || endsWith ("." +:+ entry) domain.

(** One iteration of the loop of [ruleApplies], on the pair of the flags
    [applies] and [excluded]. *)
Definition ruleAppliesStep (domain : string) (flags : bool * bool)
    (ruleDomain : string) : bool * bool :=
  let (applies, excluded) := flags in
  if startsWith "~" ruleDomain then
    if domainMatches domain (drop 1 ruleDomain)
    then (applies, true) else (applies, excluded)
  else
    if domainMatches domain ruleDomain
    then (true, excluded) else (applies, excluded).

(** [ruleApplies(rule, domain)], given [rule.domains] ([None] when the
    record has no such member). *)
Definition ruleApplies (domains : option (list string)) (domain : string) : bool :=
  match domains with
  | None | Some [] => true
  | Some ds =>
      let (applies, excluded) := fold_left (ruleAppliesStep domain) ds (false, false) in
      let applies' :=
        if negb applies && List.forallb (startsWith "~") ds then true else applies in
      applies' && negb excluded
  end.

(** [[...new Set(rules)]]: the first occurrence of each value, in
    insertion order. *)
Fixpoint dedupe (seen : list string) (l : list string) : list string :=
  match l with
  | [] => []
  | x :: rest =>
      if existsb (String.eqb x) seen then dedupe seen rest
      else x :: dedupe (x :: seen) rest
  end.

(** The selectors pushed for one list's rules. *)
Fixpoint hidingSelectors (rules : list ParsedRule) (domain : string) : list string :=
  match rules with
  | [] => []
  | ElementHide domains selector :: rest =>
      if ruleApplies (Some domains) domain
      then selector :: hidingSelectors rest domain
      else hidingSelectors rest domain
  | _ :: rest => hidingSelectors rest domain
  end.

Fixpoint collectSelectors (lists : list (string * FilterData)) (domain : string) : list string :=
  match lists with
  | [] => []
  | (_, listData) :: rest =>
      match fl_rules listData with
      | None => collectSelectors rest domain
      | Some rules => hidingSelectors rules domain ++ collectSelectors rest domain
      end
  end.

Definition getElementHidingRules (lists : list (string * FilterData)) (domain : string) : list string :=
  dedupe [] (collectSelectors lists domain).

(** *** Engine state, list updates and toggling *)

(** The members of [FilterEngine] the operations below read and write.
    [sources] is a plain object keyed by list id; [filterLists] is a
    [Map], kept as an association list in insertion order. *)
Record EngineState := mkState {
  sources : gmap string Source;
  filterLists : list (string * FilterData);
  customRules : list CustomRule;
  compiledRules : list DNRRule;
  lastUpdate : option Z
}.

(** Calls that leave the engine: [fetch], the storage write of
    [cacheFilterList], and [updateDynamicRules]. *)
Inductive Event :=
| Fetched (url : string)
| CachedFilterList (id : string)
| DynamicRulesUpdated (rules : list DNRRule).

(** The own-property names of [Object.prototype], which every object
    literal inherits, each with the [name] member of the value found
    there (the built-in functions carry one, the prototype object reached
    through [__proto__] does not). *)
Definition objectPrototypeMembers : list (string * option string) :=
  [("constructor", Some "Object");
   ("hasOwnProperty", Some "hasOwnProperty");
   ("isPrototypeOf", Some "isPrototypeOf");
   ("propertyIsEnumerable", Some "propertyIsEnumerable");
   ("toLocaleString", Some "toLocaleString");
   ("toString", Some "toString");
   ("valueOf", Some "valueOf");
   ("__defineGetter__", Some "__defineGetter__");
   ("__defineSetter__", Some "__defineSetter__");
   ("__lookupGetter__", Some "__lookupGetter__");
   ("__lookupSetter__", Some "__lookupSetter__");
   ("__proto__", None)].

(** The value of [this.sources[id]]: an own entry, else a member
    inherited from [Object.prototype] (a function or an object, hence
    truthy), else [undefined]. *)
Inductive SourceLookup :=
| OwnSource (source : Source)
| InheritedMember (name : option string)
| Undefined.

Fixpoint assoc {A : Type} (key : string) (l : list (string * A)) : option A :=
  match l with
  | [] => None
  | (k, v) :: rest => if String.eqb key k then Some v else assoc key rest
  end.

Definition getSource (srcs : gmap string Source) (id : string) : SourceLookup :=
  match srcs !! id with
  | Some source => OwnSource source
  | None =>
      match assoc id objectPrototypeMembers with
      | Some name => InheritedMember name
      | None => Undefined
      end
  end.

(** [this.filterLists.has(id)] *)
Definition mapHas (id : string) (lists : list (string * FilterData)) : bool :=
  existsb (fun entry => String.eqb id (fst entry)) lists.

(** [this.filterLists.set(id, data)]: an existing key keeps its place. *)
Definition mapSet (id : string) (data : FilterData)
    (lists : list (string * FilterData)) : list (string * FilterData) :=
  if mapHas id lists
  then map (fun entry => if String.eqb id (fst entry) then (id, data) else entry) lists
  else lists ++ [(id, data)].

Definition setEnabled (source : Source) (enabled : bool) : Source :=
  mkSource (src_name source) (src_url source) enabled
    (src_category source) (src_format source).

(** [compileRules()] on the engine state. *)
Definition compileRules (st : EngineState) : EngineState * list Event :=
  let batch := compileBatch (filterLists st) (customRules st) in
  (mkState (sources st) (filterLists st) (customRules st) batch (lastUpdate st),
   [DynamicRulesUpdated batch]).

Section Environment.

(** The network and the clock: the text a successful [fetch] of a URL
    returns ([None] for a network error or a status that is not ok), and
    the value of [Date.now()]. *)
Variable fetchText : string -> option string.
Variable now : Z.

(** The [try] block of [updateFilterList] for a source whose members
    are [name], [url], [format] and [category]. *)
Definition fetchAndStore (st : EngineState) (id : string)
    (name : option string) (url : string) (format category : option string)
    : EngineState * list Event :=
  match fetchText url with
  | None => (st, [Fetched url])
  | Some text =>
      let format' :=
        match format with
        | Some f => if isEmpty f then "adblock" else f
        | None => "adblock"
        end in
      let rules := parseFilterList text format' in
      let filterData :=
        mkFilterData id name (Some rules) (Z.of_nat (List.length rules)) now category in
      (mkState (sources st) (mapSet id filterData (filterLists st))
         (customRules st) (compiledRules st) (lastUpdate st),
       [Fetched url; CachedFilterList id])
  end.

(** [updateFilterList(id)].  An inherited member has no [url], [format]
    or [category]: [fetch(undefined)] requests the URL ["undefined"]. *)
Definition updateFilterList (st : EngineState) (id : string) : EngineState * list Event :=
  match getSource (sources st) id with
  | Undefined => (st, [])
  | OwnSource source =>
      fetchAndStore st id (Some (src_name source)) (src_url source)
        (src_format source) (Some (src_category source))
  | InheritedMember name => fetchAndStore st id name "undefined" None None
  end.

(** [toggleFilterList(id, enabled)].  When [this.sources[id]] is an
    inherited member, the assignment to its [enabled] member lands on
    the shared prototype member and leaves [sources] as it was. *)
Definition toggleFilterList (st : EngineState) (id : string) (enabled : bool)
    : EngineState * list Event :=
  match getSource (sources st) id with
  | Undefined => (st, [])
  | found =>
      let st1 :=
        match found with
        | OwnSource source =>
            mkState (<[id := setEnabled source enabled]> (sources st))
              (filterLists st) (customRules st) (compiledRules st) (lastUpdate st)
        | _ => st
        end in
      let '(st2, fetched) :=
        if enabled && negb (mapHas id (filterLists st1))
        then updateFilterList st1 id else (st1, []) in
      let '(st3, compiled) := compileRules st2 in
      (st3, fetched ++ compiled)
  end.

End Environment.

(** The [sources] the constructor installs. *)
Definition defaultSources : gmap string Source :=
  <["easylist" := mkSource "EasyList" "https://easylist.to/easylist/easylist.txt" true "ads" None]>
  (<["easyprivacy" := mkSource "EasyPrivacy" "https://easylist.to/easylist/easyprivacy.txt" true "trackers" None]>
  (<["malware" := mkSource "Malware Domains" "https://malware-filter.gitlab.io/malware-filter/urlhaus-filter-online.txt" true "malware" None]>
  (<["social" := mkSource "Fanboy Social" "https://easylist.to/easylist/fanboy-social.txt" true "social" None]>
  (<["annoyances" := mkSource "Fanboy Annoyances" "https://easylist.to/easylist/fanboy-annoyance.txt" false "annoyances" None]>
  (<["stevenblack" := mkSource "StevenBlack Hosts" "https://raw.githubusercontent.com/StevenBlack/hosts/master/hosts" true "unified" (Some "hosts")]>
   ∅))))).

(** The state the constructor builds. *)
Definition initialState : EngineState := mkState defaultSources [] [] [] None.

End FilterEngine.

(** ** Rule manager *)

Module RuleManager.

Record RuleRange := mkRange {
  range_category : string;
  range_start : Z;
  range_end : Z
}.

(** [this.ruleRanges], in declaration order. *)
Definition ruleRanges : list RuleRange :=
  [mkRange "ads" 1 9999;
   mkRange "trackers" 10000 19999;
   mkRange "social" 20000 29999;
   mkRange "cryptominers" 30000 39999;
   mkRange "malware" 40000 49999;
   mkRange "whitelist" 50000 59999;
   mkRange "blacklist" 60000 69999;
   mkRange "custom" 100000 199999].

Definition rangeOf (category : string) : option RuleRange :=
  List.find (fun r => String.eqb category (range_category r)) ruleRanges.

(** [id >= range.start && id < range.end], the test the manager uses to
    find the rules of a range. *)
Definition inRange (r : RuleRange) (id : Z) : bool :=
  ((range_start r <=? id) && (id <? range_end r))%Z.

Definition allResourceTypes : list string :=
  ["main_frame"; "sub_frame"; "script"; "image"; "stylesheet";
   "xmlhttprequest"; "media"; "font"; "other"].

(** The rules [applyWhitelistRules] builds: two per whitelisted domain,
    ids counting up from [ruleId]. *)
Fixpoint whitelistRulesFrom (whitelist : list string) (ruleId : Z) : list DNRRule :=
  match whitelist with
  | [] => []
  | domain :: rest =>
      mkDNR ruleId 10 allow
        (mkCondition None None (Some allResourceTypes) (Some [domain]) None None None)
      :: mkDNR (ruleId + 1) 10 allow
           (mkCondition None None (Some allResourceTypes) None None None (Some [domain]))
      :: whitelistRulesFrom rest (ruleId + 2)
  end.

Definition whitelistRules (whitelist : list string) : list DNRRule :=
  whitelistRulesFrom whitelist 50000.

(** The rules [applyBlacklistRules] builds: one per blacklisted domain. *)
Fixpoint blacklistRulesFrom (blacklist : list string) (ruleId : Z) : list DNRRule :=
  match blacklist with
  | [] => []
  | domain :: rest =>
      mkDNR ruleId 5 block
        (mkCondition None None (Some allResourceTypes) None None None (Some [domain]))
      :: blacklistRulesFrom rest (ruleId + 1)
  end.

Definition blacklistRules (blacklist : list string) : list DNRRule :=
  blacklistRulesFrom blacklist 60000.

End RuleManager.

(** ** The match patterns of the rule-matching backend

    [regexFilter] holds a regular expression that the backend searches for
    in the URL of a request.  The backend is not part of the repository;
    the fragment below is the part of the pattern language on which RE2 and
    ECMAScript agree and in which the patterns of the engine are written:
    literals, escaped punctuation, [.], bracket classes with ranges and
    negation, groups, alternation, the quantifiers [*], [+] and [?], and the
    anchors [^] and [$].  A pattern that is not well formed matches
    nothing. *)

Module Regex.

Inductive re :=
| Eps
| Chr (c : ascii)
| AnyChar
| Class (negated : bool) (ranges : list (ascii * ascii))
| Cat (r1 r2 : re)
| Alt (r1 r2 : re)
| Star (r : re)
| Bol
| Eol.

Definition Plus (r : re) : re := Cat r (Star r).
Definition Opt (r : re) : re := Alt r Eps.

Inductive SyntaxError :=
| UnmatchedClose      (* a ')' that closes no group *)
| MissingClose        (* a group left open at the end *)
| NothingToRepeat     (* a quantifier with nothing before it *)
| TrailingBackslash
| UnterminatedClass
| RangeOutOfOrder
| Unsupported.        (* syntax outside the fragment *)

(** *** Reading a pattern *)

(** An open group: the alternatives already closed by ['|'], and the
    atoms of the alternative being read, latest first. *)
Record Frame := mkFrame {
  alternatives : list re;
  atoms : list re
}.

Inductive Pending :=
| PNone
| PChar (c : ascii)
| PDash (c : ascii).   (* a character followed by '-' *)

Inductive Mode :=
| Normal
| Escaped
| GroupStart
| GroupQuestion
| ClassOpen
| ClassOpenNeg
| InClass (negated : bool) (ranges : list (ascii * ascii)) (pending : Pending)
| ClassEscaped (negated : bool) (ranges : list (ascii * ascii)) (pending : Pending).

(** The reader's state: the open groups, innermost first ([top] is the
    innermost, [outer] the others), the mode, and whether the latest atom
    may not take a quantifier. *)
Record PState := mkPState {
  top : Frame;
  outer : list Frame;
  mode : Mode;
  closed : bool
}.

Definition seqOf (atoms_rev : list re) : re :=
  fold_right Cat Eps (List.rev atoms_rev).

Fixpoint altOf (first : re) (others : list re) : re :=
  match others with
  | [] => first
  | r :: rest => Alt first (altOf r rest)
  end.

Definition frameRe (f : Frame) : re :=
  match alternatives f ++ [seqOf (atoms f)] with
  | [] => Eps
  | r :: rest => altOf r rest
  end.

Definition isAlnum (c : ascii) : bool :=
  let n := nat_of_ascii c in
  ((48 <=? n) && (n <=? 57) || (65 <=? n) && (n <=? 90) || (97 <=? n) && (n <=? 122))%nat.

Definition pushAtom (st : PState) (r : re) (noQuantifier : bool) : PState :=
  mkPState (mkFrame (alternatives (top st)) (r :: atoms (top st)))
    (outer st) Normal noQuantifier.

Definition quantify (st : PState) (q : re -> re) : PState + SyntaxError :=
  match atoms (top st) with
  | [] => inr NothingToRepeat
  | r :: rest =>
      if closed st then inr Unsupported
      else inl (mkPState (mkFrame (alternatives (top st)) (q r :: rest))
                  (outer st) Normal true)
  end.

Definition stepNormal (st : PState) (c : ascii) : PState + SyntaxError :=
  if Ascii.eqb c "\" then inl (mkPState (top st) (outer st) Escaped (closed st))
  else if Ascii.eqb c "(" then
    inl (mkPState (mkFrame [] []) (top st :: outer st) GroupStart false)
  else if Ascii.eqb c ")" then
    match outer st with
    | [] => inr UnmatchedClose
    | parent :: rest =>
        inl (mkPState (mkFrame (alternatives parent) (frameRe (top st) :: atoms parent))
               rest Normal false)
    end
  else if Ascii.eqb c "|" then
    inl (mkPState (mkFrame (alternatives (top st) ++ [seqOf (atoms (top st))]) [])
           (outer st) Normal false)
  else if Ascii.eqb c "*" then quantify st Star
  else if Ascii.eqb c "+" then quantify st Plus
  else if Ascii.eqb c "?" then quantify st Opt
  else if Ascii.eqb c "." then inl (pushAtom st AnyChar false)
  else if Ascii.eqb c "^" then inl (pushAtom st Bol true)
  else if Ascii.eqb c "$" then inl (pushAtom st Eol true)
  else if Ascii.eqb c "[" then inl (mkPState (top st) (outer st) ClassOpen false)
  else if Ascii.eqb c "{" || Ascii.eqb c "}" then inr Unsupported
  else inl (pushAtom st (Chr c) false).

Definition pendingRanges (p : Pending) : list (ascii * ascii) :=
  match p with
  | PNone => []
  | PChar c => [(c, c)]
  | PDash c => [(c, c); ("-", "-")]%char
  end.

(** A literal character read inside a bracket class. *)
Definition classLiteral (negated : bool) (ranges : list (ascii * ascii))
    (pending : Pending) (c : ascii) : Mode + SyntaxError :=
  match pending with
  | PNone => inl (InClass negated ranges (PChar c))
  | PChar p => inl (InClass negated (ranges ++ [(p, p)]) (PChar c))
  | PDash p =>
      if (nat_of_ascii p <=? nat_of_ascii c)%nat
      then inl (InClass negated (ranges ++ [(p, c)]) PNone)
      else inr RangeOutOfOrder
  end.

Definition setMode (st : PState) (m : Mode + SyntaxError) : PState + SyntaxError :=
  match m with
  | inl m' => inl (mkPState (top st) (outer st) m' false)
  | inr e => inr e
  end.

Definition stepClass (st : PState) (negated : bool) (ranges : list (ascii * ascii))
    (pending : Pending) (c : ascii) : PState + SyntaxError :=
  if Ascii.eqb c "]" then
    inl (pushAtom st (Class negated (ranges ++ pendingRanges pending)) false)
  else if Ascii.eqb c "\" then
    inl (mkPState (top st) (outer st) (ClassEscaped negated ranges pending) false)
  else if Ascii.eqb c "[" then inr Unsupported
  else if Ascii.eqb c "-" then
    match pending with
    | PChar p => inl (mkPState (top st) (outer st) (InClass negated ranges (PDash p)) false)
    | _ => setMode st (classLiteral negated ranges pending c)
    end
  else setMode st (classLiteral negated ranges pending c).

Definition step (st : PState) (c : ascii) : PState + SyntaxError :=
  match mode st with
  | Normal => stepNormal st c
  | Escaped =>
      if isAlnum c then inr Unsupported else inl (pushAtom st (Chr c) false)
  | GroupStart =>
      if Ascii.eqb c "?" then inl (mkPState (top st) (outer st) GroupQuestion false)
      else stepNormal st c
  | GroupQuestion =>
      if Ascii.eqb c ":" then inl (mkPState (top st) (outer st) Normal false)
      else inr Unsupported
  | ClassOpen =>
      if Ascii.eqb c "^" then inl (mkPState (top st) (outer st) ClassOpenNeg false)
      else if Ascii.eqb c "]" then inr Unsupported
      else stepClass st false [] PNone c
  | ClassOpenNeg =>
      if Ascii.eqb c "]" then inr Unsupported
      else stepClass st true [] PNone c
  | InClass negated ranges pending => stepClass st negated ranges pending c
  | ClassEscaped negated ranges pending =>
      if isAlnum c then inr Unsupported
      else setMode st (classLiteral negated ranges pending c)
  end.

Fixpoint run (st : PState) (input : list ascii) : PState + SyntaxError :=
  match input with
  | [] => inl st
  | c :: rest =>
      match step st c with
      | inl st' => run st' rest
      | inr e => inr e
      end
  end.

Definition finish (st : PState) : re + SyntaxError :=
  match mode st with
  | Normal | GroupStart =>
      match outer st with
      | [] => inl (frameRe (top st))
      | _ => inr MissingClose
      end
  | Escaped => inr TrailingBackslash
  | GroupQuestion => inr Unsupported
  | _ => inr UnterminatedClass
  end.

Definition start : PState := mkPState (mkFrame [] []) [] Normal false.

Definition parse (pattern : string) : re + SyntaxError :=
  match run start (list_ascii_of_string pattern) with
  | inl st => finish st
  | inr e => inr e
  end.

(** *** Matching *)

Definition inClass (negated : bool) (ranges : list (ascii * ascii)) (c : ascii) : bool :=
  xorb negated
    (existsb (fun '(lo, hi) =>
                (nat_of_ascii lo <=? nat_of_ascii c)%nat
                && (nat_of_ascii c <=? nat_of_ascii hi)%nat) ranges).

(** [matches r before w after]: [r] matches the word [w] where [before]
    is the text to its left and [after] the text to its right. *)
Inductive matches : re -> list ascii -> list ascii -> list ascii -> Prop :=
| MEps before after : matches Eps before [] after
| MChr c before after : matches (Chr c) before [c] after
| MAny c before after :
    isLineTerminator c = false -> matches AnyChar before [c] after
| MClass negated ranges c before after :
    inClass negated ranges c = true ->
    matches (Class negated ranges) before [c] after
| MCat r1 r2 w1 w2 before after :
    matches r1 before w1 (w2 ++ after) ->
    matches r2 (before ++ w1) w2 after ->
    matches (Cat r1 r2) before (w1 ++ w2) after
| MAltL r1 r2 w before after :
    matches r1 before w after -> matches (Alt r1 r2) before w after
| MAltR r1 r2 w before after :
    matches r2 before w after -> matches (Alt r1 r2) before w after
| MStarNil r before after : matches (Star r) before [] after
| MStarCons r w1 w2 before after :
    matches r before w1 (w2 ++ after) ->
    matches (Star r) (before ++ w1) w2 after ->
    matches (Star r) before (w1 ++ w2) after
| MBol after : matches Bol [] [] after
| MEol before : matches Eol before [] [].

(** The pattern is found somewhere in [text]. *)
Definition found (r : re) (text : list ascii) : Prop :=
  exists before w after, text = before ++ w ++ after /\ matches r before w after.

(** The backend's verdict on a URL: the pattern is well formed and is
    found in the URL. *)
Definition regexMatches (pattern url : string) : Prop :=
  exists r, parse pattern = inl r /\ found r (list_ascii_of_string url).

(** *** Matching, by computation

    [ends text r starts] lists the positions of [text] at which a match of
    [r] can end when it begins at one of the positions [starts]. *)

Definition stepChars (text : list ascii) (p : ascii -> bool) (starts : list nat) : list nat :=
  flat_map
    (fun i => match nth_error text i with
              | Some c => if p c then [S i] else []
              | None => []
              end)
    starts.

(** [s], [f s], [f (f s)], ... up to [n] applications of [f]. *)
Fixpoint iterate (n : nat) (f : list nat -> list nat) (s : list nat) : list nat :=
  match n with
  | O => s
  | S k => s ++ iterate k f (f s)
  end.

Fixpoint ends (text : list ascii) (r : re) (starts : list nat) : list nat :=
  match r with
  | Eps => starts
  | Chr c => stepChars text (Ascii.eqb c) starts
  | AnyChar => stepChars text (fun c => negb (isLineTerminator c)) starts
  | Class negated ranges => stepChars text (inClass negated ranges) starts
  | Cat r1 r2 => ends text r2 (ends text r1 starts)
  | Alt r1 r2 => nodup Nat.eq_dec (ends text r1 starts ++ ends text r2 starts)
  | Star r1 =>
      nodup Nat.eq_dec
        (iterate (List.length text)
           (fun s => nodup Nat.eq_dec (ends text r1 s)) starts)
  | Bol => List.filter (Nat.eqb 0) starts
  | Eol => List.filter (Nat.eqb (List.length text)) starts
  end.

Definition foundb (r : re) (text : list ascii) : bool :=
  match ends text r (seq 0 (S (List.length text))) with
  | [] => false
  | _ => true
  end.

Definition regexMatchesb (pattern url : string) : bool :=
  match parse pattern with
  | inl r => foundb r (list_ascii_of_string url)
  | inr _ => false
  end.

End Regex.

(** ** The backend's dynamic rules

    [chrome.declarativeNetRequest] keeps the dynamic rules of the
    extension.  One call of its [updateDynamicRules({removeRuleIds,
    addRules})] first removes the rules whose id is listed and then adds
    the new rules, as a whole; a call the backend refuses throws and
    changes nothing.  Which calls the backend refuses (a rule limit, a
    duplicate id, an ill-formed rule) is left to a parameter. *)

Module DynamicRules.

Definition removeRuleIds (ids : list Z) (store : list DNRRule) : list DNRRule :=
  List.filter (fun r => negb (existsb (Z.eqb (dnr_id r)) ids)) store.

Section Calls.

(** [accepts store removeRuleIds addRules]: the backend carries the call
    out. *)
Variable accepts : list DNRRule -> list Z -> list DNRRule -> bool.

(** One call: the new store, or [None] when the call throws. *)
Definition update (store : list DNRRule) (ids : list Z) (rules : list DNRRule)
    : option (list DNRRule) :=
  if accepts store ids rules then Some (removeRuleIds ids store ++ rules) else None.

End Calls.

End DynamicRules.

(** ** More of the filter engine *)

Module FilterEngineOps.

Import FilterEngine.

(** *** Rule counts *)

Definition isElementHide (rule : ParsedRule) : bool :=
  match rule with ElementHide _ _ => true | _ => false end.

Definition isNetworkBlock (rule : ParsedRule) : bool :=
  match rule with NetworkBlock _ _ _ => true | _ => false end.

(** The loop shared by the two counters: the rules of each list that pass
    [test], summed over the lists that have rules. *)
Definition countRules (test : ParsedRule -> bool) (lists : list (string * FilterData)) : Z :=
  fold_left
    (fun count entry =>
       match fl_rules (snd entry) with
       | Some rules => (count + Z.of_nat (List.length (List.filter test rules)))%Z
       | None => count
       end)
    lists 0%Z.

Definition getCosmeticRulesCount (lists : list (string * FilterData)) : Z :=
  countRules isElementHide lists.

Definition getNetworkRulesCount (lists : list (string * FilterData))
    (customRules : list CustomRule) : Z :=
  (countRules isNetworkBlock lists + Z.of_nat (List.length customRules))%Z.

(** *** Installing a batch *)

(** The slices [rules.slice(i, i + size)] for [i = 0, size, 2 size, ...]
    below [rules.length]; [fuel] bounds the number of slices. *)
Fixpoint slicesOf {A : Type} (fuel size : nat) (rules : list A) : list (list A) :=
  match fuel with
  | O => []
  | S fuel' =>
      match rules with
      | [] => []
      | _ => firstn size rules :: slicesOf fuel' size (skipn size rules)
      end
  end.

Definition batchSize : nat := Z.to_nat 5000.

Definition batches (rules : list DNRRule) : list (list DNRRule) :=
  slicesOf (List.length rules) batchSize rules.

Section Backend.

Variable accepts : list DNRRule -> list Z -> list DNRRule -> bool.

(** The loop of [updateDynamicRules] over the batches: the first call that
    throws ends it. *)
Fixpoint addBatches (store : list DNRRule) (todo : list (list DNRRule)) : list DNRRule :=
  match todo with
  | [] => store
  | batch :: rest =>
      match DynamicRules.update accepts store [] batch with
      | Some store' => addBatches store' rest
      | None => store
      end
  end.

(** [updateDynamicRules(rules)]: the dynamic rules the backend holds
    afterwards.  The [catch] swallows a refusal. *)
Definition updateDynamicRules (store : list DNRRule) (rules : list DNRRule) : list DNRRule :=
  let existingIds := map dnr_id store in
  match existingIds with
  | [] => addBatches store (batches rules)
  | _ =>
      match DynamicRules.update accepts store existingIds [] with
      | Some store' => addBatches store' (batches rules)
      | None => store
      end
  end.

(** The backend after the calls an engine operation has made. *)
Fixpoint afterEvents (store : list DNRRule) (events : list Event) : list DNRRule :=
  match events with
  | [] => store
  | DynamicRulesUpdated rules :: rest => afterEvents (updateDynamicRules store rules) rest
  | _ :: rest => afterEvents store rest
  end.

End Backend.

(** *** User rules *)

(** The argument of [addCustomRule]: an object with a pattern and a type,
    possibly with an [id] and resource types of its own. *)
Record NewRule := mkNewRule {
  new_id : option Z;
  new_pattern : string;
  new_type : string;
  new_resourceTypes : option (list string)
}.

(** What the user-rule operations do besides changing the engine: the
    write of [customRules] to storage, and the calls of [compileRules]. *)
Inductive Effect :=
| StoredCustomRules (rules : list CustomRule)
| Engine (event : Event).

Definition withCustomRules (st : EngineState) (rules : list CustomRule) : EngineState :=
  mkState (sources st) (filterLists st) rules (compiledRules st) (lastUpdate st).

(** The tail shared by the three operations: store, then recompile. *)
Definition storeAndCompile (st : EngineState) : EngineState * list Effect :=
  let (st', events) := compileRules st in
  (st', StoredCustomRules (customRules st) :: map Engine events).

(** [addCustomRule(rule)], with the two readings of [Date.now()].  The
    spread [{id: Date.now(), ...rule, createdAt: Date.now()}] lets an [id]
    of [rule] win over the clock. *)
Definition addCustomRule (idNow createdNow : Z) (st : EngineState) (rule : NewRule)
    : EngineState * list Effect * CustomRule :=
  let newRule :=
    mkCustom (match new_id rule with Some i => i | None => idNow end)
      (new_pattern rule) (new_type rule) (new_resourceTypes rule) createdNow in
  let (st', effects) := storeAndCompile (withCustomRules st (customRules st ++ [newRule])) in
  (st', effects, newRule).

(** [removeCustomRule(ruleId)] *)
Definition removeCustomRule (st : EngineState) (ruleId : Z) : EngineState * list Effect :=
  storeAndCompile
    (withCustomRules st
       (List.filter (fun r => negb (Z.eqb (custom_id r) ruleId)) (customRules st))).

(** [importCustomRules(rules)] *)
Definition importCustomRules (st : EngineState) (rules : list CustomRule)
    : EngineState * list Effect :=
  storeAndCompile (withCustomRules st rules).

(** *** The cache *)

(** [loadCachedFilters()], given the [filterCache] object read from
    storage as the list of its entries. *)
Definition loadCachedFilters (st : EngineState) (filterCache : list (string * FilterData))
    : EngineState :=
  mkState (sources st)
    (fold_left (fun lists entry => mapSet (fst entry) (snd entry) lists)
       filterCache (filterLists st))
    (customRules st) (compiledRules st) (lastUpdate st).

(** [this.filterLists.get(id)] *)
Definition mapGet (id : string) (lists : list (string * FilterData)) : option FilterData :=
  assoc id lists.

End FilterEngineOps.

(** ** More of the rule manager *)

Module RuleManagerOps.

Import RuleManager.

Definition whitelistRange : RuleRange := mkRange "whitelist" 50000 59999.
Definition blacklistRange : RuleRange := mkRange "blacklist" 60000 69999.
Definition customRange : RuleRange := mkRange "custom" 100000 199999.

(** [existingRules.filter(r => r.id >= start && r.id < end).map(r => r.id)] *)
Definition idsInRange (range : RuleRange) (store : list DNRRule) : list Z :=
  map dnr_id (List.filter (fun r => inRange range (dnr_id r)) store).

Section Backend.

Variable accepts : list DNRRule -> list Z -> list DNRRule -> bool.

(** The body shared by [applyWhitelistRules] and [applyBlacklistRules]:
    remove the rules of the range, then add the new ones; either call is
    skipped when it has nothing to do, and a refusal ends the function. *)
Definition replaceRange (range : RuleRange) (rules : list DNRRule)
    (store : list DNRRule) : list DNRRule :=
  let ids := idsInRange range store in
  let removed :=
    match ids with
    | [] => Some store
    | _ => DynamicRules.update accepts store ids []
    end in
  match removed with
  | None => store
  | Some store' =>
      match rules with
      | [] => store'
      | _ =>
          match DynamicRules.update accepts store' [] rules with
          | Some store'' => store''
          | None => store'
          end
      end
  end.

(** [applyWhitelistRules()], given the backend and [this.whitelist] in
    insertion order. *)
Definition applyWhitelistRules (store : list DNRRule) (whitelist : list string) : list DNRRule :=
  replaceRange whitelistRange (whitelistRules whitelist) store.

(** [applyBlacklistRules()] *)
Definition applyBlacklistRules (store : list DNRRule) (blacklist : list string) : list DNRRule :=
  replaceRange blacklistRange (blacklistRules blacklist) store.

(** The options of [addCustomBlockRule].  [action] is one of the two
    action types the compiled rules of this development have. *)
Record BlockOptions := mkBlockOptions {
  bo_priority : option Z;
  bo_action : option ActionType;
  bo_resourceTypes : option (list string);
  bo_domains : option (list string)
}.

(** [customRuleIds.length > 0 ? Math.max(...customRuleIds) + 1 : start] *)
Definition nextCustomId (store : list DNRRule) : Z :=
  match idsInRange customRange store with
  | [] => range_start customRange
  | first :: others => (fold_left Z.max others first + 1)%Z
  end.

(** The rule [addCustomBlockRule] builds.  [options.priority || 2] takes 2
    also for a priority of 0, and an array of domains is set also when it
    is empty. *)
Definition customBlockRule (store : list DNRRule) (pattern : string)
    (options : BlockOptions) : DNRRule :=
  mkDNR (nextCustomId store)
    (match bo_priority options with
     | Some p => if Z.eqb p 0 then 2%Z else p
     | None => 2%Z
     end)
    (match bo_action options with Some a => a | None => block end)
    (mkCondition None (Some pattern)
       (Some (match bo_resourceTypes options with
              | Some ts => ts
              | None => ["script"; "image"; "xmlhttprequest"; "sub_frame"]
              end))
       (bo_domains options) None None None).

(** [addCustomBlockRule(pattern, options)]: the backend afterwards, and
    the id returned, [None] when the call throws. *)
Definition addCustomBlockRule (store : list DNRRule) (pattern : string)
    (options : BlockOptions) : list DNRRule * option Z :=
  let rule := customBlockRule store pattern options in
  match DynamicRules.update accepts store [] [rule] with
  | Some store' => (store', Some (dnr_id rule))
  | None => (store, None)
  end.

End Backend.

(** A value of [levelConfigs]; a member the literal leaves out is
    [false]. *)
Record LevelConfig := mkLevel {
  enableAds : bool;
  enableTrackers : bool;
  enableSocial : bool;
  enableMining : bool;
  enableMalware : bool;
  blockFirstParty : bool;
  blockCookies : bool
}.

Definition levelConfigs : list (string * LevelConfig) :=
  [("minimal", mkLevel true false false true true false false);
   ("moderate", mkLevel true true true true true false false);
   ("aggressive", mkLevel true true true true true true true)].

(** [levelConfigs[level]] as [enableRulesForLevel] uses it: an own entry,
    else a member inherited from [Object.prototype], none of whose flags is
    set, else [undefined]. *)
Definition levelConfig (level : string) : option LevelConfig :=
  match FilterEngine.assoc level levelConfigs with
  | Some config => Some config
  | None =>
      match FilterEngine.assoc level FilterEngine.objectPrototypeMembers with
      | Some _ => Some (mkLevel false false false false false false false)
      | None => None
      end
  end.

(** The two arrays [enableRulesForLevel] passes to
    [updateEnabledRulesets]: the rulesets to enable and those to disable. *)
Definition rulesetsFor (config : LevelConfig) : list string * list string :=
  let place (flag : bool) (ruleset : string) (lists : list string * list string) :=
    if flag then (fst lists ++ [ruleset], snd lists)
    else (fst lists, snd lists ++ [ruleset]) in
  place (enableMining config) "mining_rules"
    (place (enableSocial config) "social_rules"
       (place (enableTrackers config) "tracking_rules"
          (place (enableAds config) "default_rules" ([], [])))).

(** [enableRulesForLevel(level)]: the call made, if any. *)
Definition enableRulesForLevel (level : string) : option (list string * list string) :=
  match levelConfig level with
  | Some config => Some (rulesetsFor config)
  | None => None
  end.

End RuleManagerOps.

(** * Notions the properties are stated with *)

Import FilterEngine.

(** The contract [applies(rule_includes, rule_excludes, domain)] on the
    encoding the code uses: [rule.domains] lists the included entries as
    they are and the excluded entries behind a [~]. *)
Definition applies (rule_includes rule_excludes : list string) (domain : string) : bool :=
  ruleApplies (Some (rule_includes ++ map (String "~") rule_excludes)) domain.

(** The entries of [rule.domains] that include, and those that exclude
    (without their [~]). *)
Definition includesOf (domains : list string) : list string :=
  List.filter (fun e => negb (startsWith "~" e)) domains.

Definition excludesOf (domains : list string) : list string :=
  map (drop 1) (List.filter (fun e => startsWith "~" e) domains).

Definition isNil {A : Type} (l : list A) : bool :=
  match l with [] => true | _ => false end.

(** The conflict resolution of the rule-matching backend among the rules
    that match one request: the rule with the highest priority wins, and
    at equal priority an allow rule wins over a block rule. *)
Module Backend.

Definition beats (a b : DNRRule) : bool :=
  (dnr_priority b <? dnr_priority a)%Z
  || ((dnr_priority a =? dnr_priority b)%Z
      && match dnr_action a, dnr_action b with
         | allow, block => true
         | _, _ => false
         end).

Fixpoint winner (matching : list DNRRule) : option DNRRule :=
  match matching with
  | [] => None
  | r :: rest =>
      match winner rest with
      | None => Some r
      | Some w => if beats w r then Some w else Some r
      end
  end.

Definition resolvedAction (matching : list DNRRule) : option ActionType :=
  option_map dnr_action (winner matching).

End Backend.

(** What holds of every rule of a batch of [compileRules]: its priority is
    at most 3, and a rule of priority 3 is an allow rule. *)
Definition withinCustomAllow (r : DNRRule) : Prop :=
  (dnr_priority r <= 3)%Z /\ (dnr_priority r = 3%Z -> dnr_action r = allow).

(** [countFrom start n] is [start; start + 1; ...], [n] numbers. *)
Fixpoint countFrom (start : Z) (n : nat) : list Z :=
  match n with
  | O => []
  | S k => start :: countFrom (start + 1) k
  end.

(** A cached list holding [rules], as [updateFilterList] stores it. *)
Definition cachedList (id category : string) (rules : list ParsedRule) : string * FilterData :=
  (id, mkFilterData id (Some id) (Some rules) (Z.of_nat (List.length rules)) 0 (Some category)).

(** Two ranges have no id in common. *)
Definition disjointRanges (r1 r2 : RuleManager.RuleRange) : Prop :=
  forall id, RuleManager.inRange r1 id && RuleManager.inRange r2 id = false.

(** One cached list of 30001 block rules. *)
Definition oversizedLists : list (string * FilterData) :=
  [cachedList "easylist" "ads" (repeat (NetworkBlock "ads" "ads" None) (Z.to_nat 30001))].

(** A list's data without its element-hiding exception records. *)
Definition isElementException (rule : ParsedRule) : bool :=
  match rule with ElementException _ _ => true | _ => false end.

Definition withoutExceptions (lists : list (string * FilterData)) : list (string * FilterData) :=
  map (fun entry =>
         (fst entry,
          mkFilterData (fl_id (snd entry)) (fl_name (snd entry))
            (option_map (List.filter (fun r => negb (isElementException r)))
               (fl_rules (snd entry)))
            (fl_rulesCount (snd entry)) (fl_lastUpdated (snd entry))
            (fl_category (snd entry))))
      lists.

(** The rules one line of a list contributes. *)
Definition lineRules (format line : string) : list ParsedRule :=
  if String.eqb format "hosts" then parseHostsLine [] line
  else parseAdblockLine [] line.

Definition isNone {A : Type} (o : option A) : bool :=
  match o with None => true | Some _ => false end.

(** A line that reaches the classifier of its format and is refused by
    it: [parseAdblockRule] returns [null], or the hosts pattern does not
    match. *)
Definition unclassifiable (format line : string) : bool :=
  let trimmed := trim line in
  if String.eqb format "hosts" then
    negb (isEmpty trimmed || startsWith "#" trimmed) && isNone (matchHostsEntry trimmed)
  else
    negb (isEmpty trimmed || startsWith "!" trimmed || startsWith "[" trimmed)
    && isNone (parseAdblockRule trimmed).

(** How many lines of [text] are refused by the classifier. *)
Definition parseFailures (text format : string) : nat :=
  List.length (List.filter (unclassifiable format) (split LF text)).

Definition noLineFeed (s : string) : bool :=
  JsString.forallb (fun c => negb (Ascii.eqb c LF)) s.

(** An engine whose cache holds one list and whose rules have not been
    compiled yet: the state [initialize()] leaves. *)
Definition cachedState : EngineState :=
  mkState defaultSources [cachedList "easylist" "ads" [NetworkBlock "ads" "ads" None]]
    [] [] None.

(** Host names, request URLs and hosts-file entries. *)

Definition isLabelChar (c : ascii) : bool :=
  let n := nat_of_ascii c in
  ((97 <=? n) && (n <=? 122) || (48 <=? n) && (n <=? 57) || (n =? 45))%nat.

Definition isHostChar (c : ascii) : bool := isLabelChar c || Ascii.eqb c ".".

(** A label: a non-empty run of lower-case letters, digits and hyphens. *)
Definition isLabel (l : string) : bool :=
  negb (isEmpty l) && JsString.forallb isLabelChar l.

(** A host name: a non-empty run of label characters and dots. *)
Definition isHostName (d : string) : bool :=
  negb (isEmpty d) && JsString.forallb isHostChar d.

(** The sub-domain part of a host: every label followed by a dot. *)
Fixpoint subdomains (labels : list string) : string :=
  match labels with
  | [] => ""
  | l :: rest => l +:+ "." +:+ subdomains rest
  end.

(** The URL of a request to [domain] or, with [labels], to a sub-domain of
    it; [rest] is what follows the host. *)
Definition requestUrl (secure : bool) (labels : list string) (domain rest : string) : string :=
  (if secure then "https://" else "http://") +:+ subdomains labels +:+ domain +:+ rest.

(** What follows the host is nothing, or a path. *)
Definition isPathOrEnd (rest : string) : bool :=
  isEmpty rest || startsWith "/" rest.

Definition isAddress (a : string) : bool :=
  String.eqb a "0.0.0.0" || String.eqb a "127.0.0.1".

(** Space or TAB. *)
Definition isBlank (c : ascii) : bool := Ascii.eqb c " " || Ascii.eqb c "009".

Definition isGap (g : string) : bool :=
  negb (isEmpty g) && JsString.forallb isBlank g.

(** Nothing, or blanks and a [#] comment that holds no line terminator. *)
Definition isInlineComment (s : string) : bool :=
  isEmpty s || (let (_, t) := span isBlank s in startsWith "#" t && dotRun t).

(** The text of the hosts scenario: two lines. *)
Definition hostsScenario : string :=
  "0.0.0.0 malware.test" +:+ nl +:+ "127.0.0.1 localhost".

(** The expression the pattern of a hosts entry for [d] reads as:
    [^http], an optional [s], [://], any number of labels each followed by
    a dot, the characters of [d], and then a slash or the end. *)
Definition labelClass : Regex.re :=
  Regex.Class false [("a", "z"); ("0", "9"); ("-", "-")]%char.

Definition subdomainGroup : Regex.re :=
  Regex.Cat (Regex.Plus labelClass) (Regex.Cat (Regex.Chr ".") Regex.Eps).

Definition schemeAtoms : list Regex.re :=
  [Regex.Bol; Regex.Chr "h"; Regex.Chr "t"; Regex.Chr "t"; Regex.Chr "p";
   Regex.Opt (Regex.Chr "s"); Regex.Chr ":"; Regex.Chr "/"; Regex.Chr "/";
   Regex.Star subdomainGroup].

Definition endGroup : Regex.re :=
  Regex.Alt (Regex.Cat (Regex.Chr "/") Regex.Eps) (Regex.Cat Regex.Eol Regex.Eps).

Definition hostsRe (d : string) : Regex.re :=
  fold_right Regex.Cat Regex.Eps
    (schemeAtoms ++ map Regex.Chr (list_ascii_of_string d) ++ [endGroup]).

(** Positions of a text, and a match that begins at one of the positions
    [starts] and ends at position [j]. *)
Definition validStarts (text : list ascii) (starts : list nat) : Prop :=
  forall i, In i starts -> i <= List.length text.

Definition matchEnding (text : list ascii) (r : Regex.re) (starts : list nat) (j : nat) : Prop :=
  exists b w a,
    text = b ++ w ++ a /\ In (List.length b) starts
    /\ List.length b + List.length w = j /\ Regex.matches r b w a.

(** * Notions the further properties are stated with *)

Import FilterEngineOps.

(** How many network-block records the lists hold. *)
Fixpoint blockCount (lists : list (string * FilterData)) : nat :=
  match lists with
  | [] => O
  | (_, listData) :: rest =>
      match fl_rules listData with
      | Some rules => List.length (List.filter isNetworkBlock rules) + blockCount rest
      | None => blockCount rest
      end
  end.

(** The lists with every record other than a network-block record taken
    out. *)
Definition onlyBlocks (lists : list (string * FilterData)) : list (string * FilterData) :=
  map (fun entry =>
         (fst entry,
          mkFilterData (fl_id (snd entry)) (fl_name (snd entry))
            (option_map (List.filter isNetworkBlock) (fl_rules (snd entry)))
            (fl_rulesCount (snd entry)) (fl_lastUpdated (snd entry))
            (fl_category (snd entry))))
      lists.

(** A user rule of one of the two types [compileCustomToDNR] knows. *)
Definition isBlockOrAllow (rule : CustomRule) : bool :=
  String.eqb (custom_type rule) "block" || String.eqb (custom_type rule) "allow".

Definition optionToList {A : Type} (o : option A) : list A :=
  match o with Some x => [x] | None => [] end.

(** An engine whose only cached list has one block rule, compiled. *)
Definition compiledState : EngineState :=
  mkState defaultSources [cachedList "easylist" "ads" [NetworkBlock "ads" "ads" None]]
    [] [compileToDNR "ads" None 100000] None.

(** The format [updateFilterList] parses a source with:
    [source.format || 'adblock']. *)
Definition formatOf (source : Source) : string :=
  match src_format source with
  | Some f => if isEmpty f then "adblock" else f
  | None => "adblock"
  end.

(** What [updateFilterList] stores for a source after a fetch of [text]. *)
Definition fetchedData (now : Z) (id : string) (source : Source) (text : string) : FilterData :=
  mkFilterData id (Some (src_name source))
    (Some (parseFilterList text (formatOf source)))
    (Z.of_nat (List.length (parseFilterList text (formatOf source))))
    now (Some (src_category source)).

Import RuleManager RuleManagerOps.

(** A rule whose id the manager's test [id >= start && id < end] does not
    find in the range. *)
Definition outside (range : RuleRange) (r : DNRRule) : bool :=
  negb (inRange range (dnr_id r)).

(** The static rulesets [enableRulesForLevel] names. *)
Definition allRulesets : list string :=
  ["default_rules"; "tracking_rules"; "social_rules"; "mining_rules"].

Definition memb (x : string) (l : list string) : bool :=
  existsb (String.eqb x) l.

(** [n] distinct domain names: [a.example], [aa.example], ... *)
Definition manyDomains (n : nat) : list string :=
  map (fun i => String.concat EmptyString (repeat "a" (S i)) +:+ ".example") (seq 0 n).

(** The expression the translation of [||d] reads as: the scheme, any
    number of labels each followed by a dot, and the characters of [d]. *)
Definition anchorRe (d : string) : Regex.re :=
  fold_right Regex.Cat Regex.Eps (schemeAtoms ++ map Regex.Chr (list_ascii_of_string d)).

(** The option keys [parseRuleOptions] has a case for. *)
Definition supportedOptionKeys : list string :=
  ["domain"; "third-party"; "3p"; "~third-party"; "1p"; "script"; "image";
   "stylesheet"; "css"; "xmlhttprequest"; "xhr"; "subdocument"; "frame"; "important"].

(** The key of an option: [part.split('=')[0]]. *)
Definition optionKey (part : string) : string := hd "" (split "=" part).

(** * Properties *)

(** ** The model at work *)

Example ruleToRegex_start_end :
  ruleToRegex "|http://x*y|" = "^http://x.*y$".
Proof. reflexivity. Qed.

Example ruleToRegex_regex_literal :
  ruleToRegex "/ab+c/" = "ab+c".
Proof. reflexivity. Qed.

Example parseAdblockRule_options :
  parseAdblockRule "||ads.example.com/banner$script,3p,domain=a.com|~b.com"
  = Some (NetworkBlock "^https?://([a-z0-9-]+\.)*ads\.example\.com/banner"
            "||ads.example.com/banner$script,3p,domain=a.com|~b.com"
            (Some (mkOptions (Some ["a.com"; "~b.com"]) true false (Some ["script"]) false))).
Proof. reflexivity. Qed.

Example compileToDNR_options :
  compileToDNR "^https?://([a-z0-9-]+\.)*ads\.example\.com/banner"
    (Some (mkOptions (Some ["a.com"; "~b.com"]) true false (Some ["script"]) false)) 100000
  = mkDNR 100000 1 block
      (mkCondition (Some "^https?://([a-z0-9-]+\.)*ads\.example\.com/banner") None
         (Some ["script"]) (Some ["a.com"]) (Some ["b.com"]) (Some "thirdParty") None).
Proof. reflexivity. Qed.

Example parseAdblockList_mixed :
  parseAdblockList
    ("! a comment" +:+ nl +:+ "@@||ads.example.com/safe.js" +:+ nl
     +:+ "example.com##.banner-ad" +:+ nl +:+ "  ##.sponsored  ")
  = [NetworkException "^https?://([a-z0-9-]+\.)*ads\.example\.com/safe\.js"
       "@@||ads.example.com/safe.js" (Some emptyOptions);
     ElementHide ["example.com"] ".banner-ad";
     ElementHide [] ".sponsored"].
Proof. reflexivity. Qed.

Example regexMatchesb_path_anchor :
  Regex.regexMatchesb "^https?://([a-z0-9-]+\.)*ads\.example\.com/safe\.js"
    "https://cdn.ads.example.com/safe.js"
  = true.
Proof. vm_compute. reflexivity. Qed.

(** ** Strings *)

Section StringFacts.

Lemma append_cons (c : ascii) (s t : string) : String c s +:+ t = String c (s +:+ t).
Proof. reflexivity. Qed.

Lemma append_nil_l (s : string) : "" +:+ s = s.
Proof. reflexivity. Qed.

Lemma append_nil_r (s : string) : s +:+ "" = s.
Proof.
  induction s as [|c s IH]; [reflexivity |].
  now rewrite append_cons, IH.
Qed.

Lemma append_assoc (a b c : string) : (a +:+ b) +:+ c = a +:+ (b +:+ c).
Proof.
  induction a as [|x a IH]; [reflexivity |].
  now rewrite !append_cons, IH.
Qed.

Lemma rev_acc_spec (s acc : string) : rev_acc s acc = rev s +:+ acc.
Proof.
  unfold rev. revert acc.
  induction s as [|c s IH]; intros acc; simpl; [reflexivity |].
  rewrite IH, (IH (String c "")), append_assoc. reflexivity.
Qed.

Lemma rev_cons (c : ascii) (s : string) : rev (String c s) = rev s +:+ String c "".
Proof. unfold rev at 1. simpl. apply rev_acc_spec. Qed.

Lemma rev_append (a b : string) : rev (a +:+ b) = rev b +:+ rev a.
Proof.
  induction a as [|c a IH].
  - change (rev "") with "". now rewrite append_nil_r.
  - now rewrite append_cons, !rev_cons, IH, append_assoc.
Qed.

Lemma rev_involutive (s : string) : rev (rev s) = s.
Proof.
  induction s as [|c s IH]; [reflexivity |].
  now rewrite rev_cons, rev_append, IH.
Qed.

Lemma startsWith_spec (p s : string) :
  startsWith p s = true <-> exists t, s = p +:+ t.
Proof.
  revert s. induction p as [|a p IH]; intros s; simpl.
  - split; [intros _; now exists s | reflexivity].
  - destruct s as [|b s].
    + split; [discriminate | intros [t Ht]; discriminate].
    + rewrite andb_true_iff, Ascii.eqb_eq, IH. split.
      * intros [-> [t ->]]. now exists t.
      * intros [t Ht]. rewrite append_cons in Ht.
        injection Ht as -> ->. split; [reflexivity | now exists t].
Qed.

Lemma endsWith_spec (p s : string) :
  endsWith p s = true <-> exists t, s = t +:+ p.
Proof.
  unfold endsWith. rewrite startsWith_spec. split.
  - intros [t Ht]. exists (rev t).
    rewrite <- (rev_involutive s), Ht, rev_append, rev_involutive. reflexivity.
  - intros [t ->]. exists (rev t). apply rev_append.
Qed.

End StringFacts.

(** ** Domain matcher *)

Lemma ruleApplies_loop (domain : string) (ds : list string) (a e : bool) :
  fold_left (ruleAppliesStep domain) ds (a, e)
  = (a || existsb (domainMatches domain) (includesOf ds),
     e || existsb (domainMatches domain) (excludesOf ds)).
Proof.
  revert a e. induction ds as [|d ds IH]; intros a e.
  - cbn. now rewrite !orb_false_r.
  - unfold includesOf, excludesOf in *. cbn [fold_left List.filter].
    change (ruleAppliesStep domain (a, e) d) with
      (if startsWith "~" d then
         if domainMatches domain (drop 1 d) then (a, true) else (a, e)
       else if domainMatches domain d then (true, e) else (a, e)).
    destruct (startsWith "~" d) eqn:Hd; cbn [negb map existsb].
    + destruct (domainMatches domain (drop 1 d)); rewrite IH;
        destruct a, e; reflexivity.
    + destruct (domainMatches domain d); rewrite IH;
        destruct a, e; reflexivity.
Qed.

Lemma forallb_tilde (ds : list string) :
  List.forallb (startsWith "~") ds = isNil (includesOf ds).
Proof.
  induction ds as [|d ds IH]; [reflexivity |].
  unfold includesOf in *. cbn [List.forallb List.filter].
  destruct (startsWith "~" d); cbn [negb andb isNil]; [exact IH | reflexivity].
Qed.

Lemma ruleApplies_formula (ds : list string) (domain : string) :
  ruleApplies (Some ds) domain
  = (isNil (includesOf ds) || existsb (domainMatches domain) (includesOf ds))
    && negb (existsb (domainMatches domain) (excludesOf ds)).
Proof.
  destruct ds as [|d ds]; [reflexivity |].
  unfold ruleApplies. rewrite ruleApplies_loop, forallb_tilde. cbn [orb].
  destruct (existsb (domainMatches domain) (includesOf (d :: ds))) eqn:Hin;
    destruct (isNil (includesOf (d :: ds))); reflexivity.
Qed.

Lemma domainMatches_spec (domain entry : string) :
  domainMatches domain entry = true
  <-> domain = entry \/ exists sub, domain = sub +:+ "." +:+ entry.
Proof.
  unfold domainMatches.
  rewrite orb_true_iff, String.eqb_eq, endsWith_spec. reflexivity.
Qed.

(** C4.  [ruleApplies] resolves includes and excludes four ways: with no
    entries the rule applies to every domain; an entry matches a domain
    that equals it or ends with a dot followed by it, and nothing else
    ([notexample.com] does not match [example.com]); with includes, the
    domain must match one of them; a matching exclude always wins; with
    excludes only, the rule applies wherever no exclude matches. *)
Theorem ruleApplies_four_way :
  (forall d, applies [] [] d = true)
  /\ applies ["example.com"] [] "sub.example.com" = true
  /\ applies ["example.com"] [] "notexample.com" = false
  /\ applies [] ["example.com"] "example.com" = false
  /\ applies [] ["example.com"] "other.com" = true
  /\ (forall domain entry,
        domainMatches domain entry = true
        <-> domain = entry \/ exists sub, domain = sub +:+ "." +:+ entry)
  /\ (forall ds domain,
        ruleApplies (Some ds) domain
        = (isNil (includesOf ds) || existsb (domainMatches domain) (includesOf ds))
          && negb (existsb (domainMatches domain) (excludesOf ds)))
  /\ (forall domain, ruleApplies None domain = true).
Proof.
  repeat split; try reflexivity.
  - apply domainMatches_spec.
  - apply domainMatches_spec.
  - apply ruleApplies_formula.
Qed.

(** ** Priorities *)

Section Priorities.

Import RuleManager.

Lemma whitelistRulesFrom_priority (whitelist : list string) (ruleId : Z) :
  Forall (fun r => dnr_priority r = 10%Z /\ dnr_action r = allow)
    (whitelistRulesFrom whitelist ruleId).
Proof.
  revert ruleId. induction whitelist as [|d rest IH]; intros ruleId; simpl.
  - constructor.
  - repeat constructor. apply IH.
Qed.

Lemma blacklistRulesFrom_priority (blacklist : list string) (ruleId : Z) :
  Forall (fun r => dnr_priority r = 5%Z /\ dnr_action r = block)
    (blacklistRulesFrom blacklist ruleId).
Proof.
  revert ruleId. induction blacklist as [|d rest IH]; intros ruleId; simpl.
  - constructor.
  - repeat constructor. apply IH.
Qed.

Lemma compileCustomToDNR_allow (rule : CustomRule) (id : Z) (r : DNRRule) :
  compileCustomToDNR rule id = Some r ->
  custom_type rule = "allow" ->
  dnr_priority r = 3%Z /\ dnr_action r = allow /\ dnr_id r = id.
Proof.
  unfold compileCustomToDNR. intros H Ht. rewrite Ht in H.
  change (String.eqb "allow" "block") with false in H.
  change (String.eqb "allow" "allow") with true in H.
  injection H as <-. auto.
Qed.

Lemma compileCustomToDNR_block (rule : CustomRule) (id : Z) (r : DNRRule) :
  compileCustomToDNR rule id = Some r ->
  custom_type rule = "block" ->
  dnr_priority r = 2%Z /\ dnr_action r = block /\ dnr_id r = id.
Proof.
  unfold compileCustomToDNR. intros H Ht. rewrite Ht in H.
  change (String.eqb "block" "block") with true in H.
  injection H as <-. auto.
Qed.

Lemma compileCustomToDNR_cases (rule : CustomRule) (id : Z) (r : DNRRule) :
  compileCustomToDNR rule id = Some r ->
  dnr_id r = id
  /\ ((dnr_priority r = 2%Z /\ dnr_action r = block)
      \/ (dnr_priority r = 3%Z /\ dnr_action r = allow)).
Proof.
  unfold compileCustomToDNR. intros H.
  destruct (String.eqb (custom_type rule) "block").
  - injection H as <-. auto.
  - destruct (String.eqb (custom_type rule) "allow"); [|discriminate].
    injection H as <-. auto.
Qed.

(** C2, as the code has it.  The tiers are, from the highest priority
    down: whitelist allow rules (10), blacklist block rules (5),
    user-authored allow rules (3), user-authored block rules (2), and
    list-sourced block rules (1). *)
Theorem priority_tiers
    (whitelist blacklist : list string) (w b : DNRRule)
    (userAllow userBlock : CustomRule) (allowId blockId : Z) (ua ub : DNRRule)
    (pattern : string) (options : option RuleOptions) (listId : Z) :
  In w (whitelistRules whitelist) ->
  In b (blacklistRules blacklist) ->
  custom_type userAllow = "allow" ->
  compileCustomToDNR userAllow allowId = Some ua ->
  custom_type userBlock = "block" ->
  compileCustomToDNR userBlock blockId = Some ub ->
  let l := compileToDNR pattern options listId in
  (dnr_priority w = 10 /\ dnr_action w = allow)%Z
  /\ (dnr_priority b = 5 /\ dnr_action b = block)%Z
  /\ (dnr_priority ua = 3 /\ dnr_action ua = allow)%Z
  /\ (dnr_priority ub = 2 /\ dnr_action ub = block)%Z
  /\ (dnr_priority l = 1 /\ dnr_action l = block)%Z
  /\ (dnr_priority l < dnr_priority ub < dnr_priority ua)%Z
  /\ (dnr_priority ua < dnr_priority b < dnr_priority w)%Z.
Proof.
  intros Hw Hb Hta Hua Htb Hub l.
  pose proof (whitelistRulesFrom_priority whitelist 50000) as HW.
  pose proof (blacklistRulesFrom_priority blacklist 60000) as HB.
  rewrite List.Forall_forall in HW, HB.
  destruct (HW w Hw) as [Hw1 Hw2]. destruct (HB b Hb) as [Hb1 Hb2].
  destruct (compileCustomToDNR_allow _ _ _ Hua Hta) as (Ha1 & Ha2 & _).
  destruct (compileCustomToDNR_block _ _ _ Hub Htb) as (Hb3 & Hb4 & _).
  assert (Hl : dnr_priority l = 1%Z) by reflexivity.
  rewrite Hw1, Hb1, Ha1, Hb3, Hl.
  repeat split; try assumption; try reflexivity; lia.
Qed.

Lemma priority_tiers_witness :
  let w := mkDNR 50000 10 allow
             (mkCondition None None (Some allResourceTypes) (Some ["example.com"])
                None None None) in
  let b := mkDNR 60000 5 block
             (mkCondition None None (Some allResourceTypes) None None None
                (Some ["ads.example"])) in
  let ua := mkDNR 100001 3 allow
              (mkCondition None (Some "||example.com^") None None None None None) in
  let ub := mkDNR 100002 2 block
              (mkCondition None (Some "||ads.example^") (Some customResourceTypes)
                 None None None None) in
  (dnr_priority (compileToDNR "ads" None 100000) < dnr_priority ub < dnr_priority ua)%Z
  /\ (dnr_priority ua < dnr_priority b < dnr_priority w)%Z.
Proof.
  intros w b ua ub.
  assert (Hw : In w (whitelistRules ["example.com"])) by (simpl; left; reflexivity).
  assert (Hb : In b (blacklistRules ["ads.example"])) by (simpl; left; reflexivity).
  destruct (priority_tiers ["example.com"] ["ads.example"] w b
              (mkCustom 1 "||example.com^" "allow" None 1)
              (mkCustom 2 "||ads.example^" "block" None 2)
              100001 100002 ua ub "ads" None 100000
              Hw Hb eq_refl eq_refl eq_refl eq_refl)
    as (_ & _ & _ & _ & _ & H1 & H2).
  split; assumption.
Defined.

(** C2, the statement of the specification fails: a user-authored allow rule compiles to
    priority 3, below the priority 10 of a whitelist allow rule and the
    priority 5 of a blacklist block rule. *)
Lemma user_allow_below_whitelist :
  exists ua w b,
    compileCustomToDNR (mkCustom 1 "||example.com^" "allow" None 1) 100000 = Some ua
    /\ In w (whitelistRules ["example.com"])
    /\ In b (blacklistRules ["ads.example"])
    /\ ~ (dnr_priority w < dnr_priority ua)%Z
    /\ ~ (dnr_priority b < dnr_priority ua)%Z.
Proof.
  eexists _, _, _. split; [reflexivity |].
  split; [left; reflexivity |].
  split; [left; reflexivity |].
  simpl. lia.
Qed.

End Priorities.

(** ** The compiled batch *)

Section CompiledBatch.

Import RuleManager.

Lemma compileListRules_Forall (P : DNRRule -> Prop) :
  (forall pattern options id, P (compileToDNR pattern options id)) ->
  forall rules ruleId, Forall P (fst (compileListRules rules ruleId)).
Proof.
  intros HP rules. induction rules as [|r rest IH]; intros ruleId; simpl.
  - constructor.
  - destruct r; try apply IH.
    specialize (IH (ruleId + 1)%Z).
    destruct (compileListRules rest (ruleId + 1)) as [compiled next].
    simpl in *. constructor; [apply HP | exact IH].
Qed.

Lemma compileLists_Forall (P : DNRRule -> Prop) :
  (forall pattern options id, P (compileToDNR pattern options id)) ->
  forall lists compiled ruleId,
    Forall P compiled -> Forall P (fst (compileLists lists compiled ruleId)).
Proof.
  intros HP lists. induction lists as [|[id listData] rest IH];
    intros compiled ruleId Hc; simpl.
  - exact Hc.
  - destruct (fl_rules listData) as [rules|]; [|now apply IH].
    pose proof (compileListRules_Forall P HP rules ruleId) as Hr.
    destruct (compileListRules rules ruleId) as [new next]. simpl in Hr.
    assert (Forall P (compiled ++ new)) by (apply Forall_app; split; assumption).
    destruct (30000 <=? Z.of_nat (List.length (compiled ++ new)))%Z;
      [assumption | now apply IH].
Qed.

Lemma compileCustomRules_Forall (P : DNRRule -> Prop) (rules : list CustomRule) :
  (forall rule id r, compileCustomToDNR rule id = Some r -> P r) ->
  forall ruleId, Forall P (compileCustomRules rules ruleId).
Proof.
  intros HP. induction rules as [|rule rest IH]; intros ruleId; simpl.
  - constructor.
  - destruct (compileCustomToDNR rule ruleId) as [r|] eqn:Hr; [|apply IH].
    constructor; [now apply (HP rule ruleId) | apply IH].
Qed.

Lemma compileBatch_Forall (P : DNRRule -> Prop) lists customs :
  (forall pattern options id, P (compileToDNR pattern options id)) ->
  (forall rule id r, compileCustomToDNR rule id = Some r -> P r) ->
  Forall P (compileBatch lists customs).
Proof.
  intros HL HC. unfold compileBatch.
  pose proof (compileLists_Forall P HL lists [] 100000 (List.Forall_nil P)) as H.
  destruct (compileLists lists [] 100000) as [compiled next]. simpl in H.
  apply Forall_app. split; [exact H | now apply compileCustomRules_Forall].
Qed.

Lemma compileBatch_priorities lists customs :
  Forall withinCustomAllow (compileBatch lists customs).
Proof.
  apply compileBatch_Forall.
  - intros. split; simpl; [lia | discriminate].
  - intros rule id r Hr.
    destruct (compileCustomToDNR_cases _ _ _ Hr) as [_ [[Hp Ha]|[Hp Ha]]];
      (split; [rewrite Hp; lia | intros; first [assumption | lia]]).
Qed.

Lemma winner_In (l : list DNRRule) (w : DNRRule) :
  Backend.winner l = Some w -> In w l.
Proof.
  revert w. induction l as [|r rest IH]; intros w; simpl; [discriminate |].
  destruct (Backend.winner rest) as [w'|].
  - destruct (Backend.beats w' r); intros [= <-]; auto.
  - intros [= <-]. auto.
Qed.

Lemma winner_highest (l : list DNRRule) (w x : DNRRule) :
  Backend.winner l = Some w -> In x l -> (dnr_priority x <= dnr_priority w)%Z.
Proof.
  revert w. induction l as [|r rest IH]; intros w; simpl; [discriminate |].
  destruct (Backend.winner rest) as [w'|] eqn:Hw.
  - unfold Backend.beats.
    destruct (dnr_priority r <? dnr_priority w')%Z eqn:Hlt; simpl.
    + intros [= <-] [<- | Hin]; [apply Z.ltb_lt in Hlt; lia | now apply IH].
    + apply Z.ltb_ge in Hlt.
      destruct ((dnr_priority w' =? dnr_priority r)%Z && _) eqn:Heq.
      * apply andb_true_iff in Heq as [Heq _]. apply Z.eqb_eq in Heq.
        intros [= <-] [<- | Hin]; [lia | now apply IH].
      * intros [= <-] [<- | Hin]; [lia |].
        specialize (IH w' eq_refl Hin). lia.
  - intros [= <-] [<- | Hin]; [lia |].
    destruct rest; [contradiction | simpl in Hw].
    destruct (Backend.winner rest); [destruct (Backend.beats _ _) |]; discriminate.
Qed.

Lemma winner_nonempty (l : list DNRRule) (x : DNRRule) :
  In x l -> exists w, Backend.winner l = Some w.
Proof.
  destruct l as [|r rest]; [contradiction |]. intros _. simpl.
  destruct (Backend.winner rest) as [w'|]; [destruct (Backend.beats w' r) |]; eauto.
Qed.

(** C3.  In every batch of [compileRules], a user allow rule has a higher
    priority than any list-sourced block rule, and whenever a user allow
    rule of the batch matches a request, the backend resolves the request
    to allow, whatever else of the batch matches it. *)
Theorem custom_allow_wins
    (lists : list (string * FilterData)) (customs : list CustomRule)
    (matchesRequest : DNRRule -> bool)
    (rule : CustomRule) (id : Z) (a : DNRRule)
    (pattern : string) (options : option RuleOptions) (listId : Z) :
  custom_type rule = "allow" ->
  compileCustomToDNR rule id = Some a ->
  In a (compileBatch lists customs) ->
  matchesRequest a = true ->
  matchesRequest (compileToDNR pattern options listId) = true ->
  (dnr_priority (compileToDNR pattern options listId) < dnr_priority a)%Z
  /\ Backend.resolvedAction [compileToDNR pattern options listId; a] = Some allow
  /\ Backend.resolvedAction (List.filter matchesRequest (compileBatch lists customs))
     = Some allow.
Proof.
  intros Ht Hc Hin Hm _.
  destruct (compileCustomToDNR_allow _ _ _ Hc Ht) as (Hp & Ha & _).
  split; [rewrite Hp; simpl; lia |].
  split.
  - unfold Backend.resolvedAction, Backend.winner, Backend.beats.
    rewrite Hp. simpl. exact (f_equal Some Ha).
  - assert (Hin' : In a (List.filter matchesRequest (compileBatch lists customs)))
      by (apply filter_In; split; assumption).
    destruct (winner_nonempty _ _ Hin') as [w Hw].
    unfold Backend.resolvedAction. rewrite Hw. simpl. f_equal.
    pose proof (winner_highest _ _ _ Hw Hin') as Hle.
    pose proof (winner_In _ _ Hw) as Hwin.
    apply filter_In in Hwin as [Hwin _].
    pose proof (compileBatch_priorities lists customs) as HP.
    rewrite List.Forall_forall in HP. destruct (HP w Hwin) as [H3 Himp].
    apply Himp. lia.
Qed.

Lemma custom_allow_wins_witness :
  let lists := [cachedList "easylist" "ads" [NetworkBlock "ads" "ads" None]] in
  let customs := [mkCustom 1 "ads" "allow" None 1] in
  Backend.resolvedAction (List.filter (fun _ => true) (compileBatch lists customs))
  = Some allow.
Proof.
  intros lists customs.
  refine (proj2 (proj2 (custom_allow_wins lists customs (fun _ => true)
            (mkCustom 1 "ads" "allow" None 1) 100001
            (mkDNR 100001 3 allow
               (mkCondition None (Some "ads") None None None None None))
            "ads" None 100000 eq_refl eq_refl _ eq_refl eq_refl))).
  right. left. reflexivity.
Defined.

End CompiledBatch.

(** ** Rule ids and the rule-count ceiling *)

Section RuleIds.

Import RuleManager.

Lemma countFrom_app (start : Z) (n m : nat) :
  countFrom start (n + m) = countFrom start n ++ countFrom (start + Z.of_nat n) m.
Proof.
  revert start. induction n as [|n IH]; intros start.
  - simpl. now rewrite Z.add_0_r.
  - cbn [Nat.add countFrom app]. rewrite IH. do 3 f_equal. lia.
Qed.

Lemma countFrom_bounds (start : Z) (n : nat) :
  Forall (fun i => start <= i < start + Z.of_nat n)%Z (countFrom start n).
Proof.
  revert start. induction n as [|n IH]; intros start; cbn [countFrom].
  - constructor.
  - constructor; [lia |].
    eapply List.Forall_impl; [| apply IH]. cbn beta. intros; lia.
Qed.

Lemma countFrom_sorted (start : Z) (n : nat) :
  StronglySorted Z.lt (countFrom start n).
Proof.
  revert start. induction n as [|n IH]; intros start; cbn [countFrom].
  - constructor.
  - constructor; [apply IH |].
    eapply List.Forall_impl; [| apply countFrom_bounds]. cbn beta. intros; lia.
Qed.

(** The inner loop hands out consecutive ids. *)
Lemma compileListRules_ids (rules : list ParsedRule) (ruleId : Z) :
  let (compiled, next) := compileListRules rules ruleId in
  map dnr_id compiled = countFrom ruleId (List.length compiled)
  /\ next = (ruleId + Z.of_nat (List.length compiled))%Z.
Proof.
  revert ruleId. induction rules as [|r rest IH]; intros ruleId; cbn [compileListRules].
  - split; [reflexivity | simpl; lia].
  - destruct r; try apply IH.
    specialize (IH (ruleId + 1)%Z).
    destruct (compileListRules rest (ruleId + 1)) as [compiled next].
    destruct IH as [IH1 IH2]. cbn [map List.length countFrom]. split.
    + now rewrite IH1.
    + lia.
Qed.

Lemma compileLists_ids (lists : list (string * FilterData))
    (compiled : list DNRRule) (start ruleId : Z) :
  map dnr_id compiled = countFrom start (List.length compiled) ->
  ruleId = (start + Z.of_nat (List.length compiled))%Z ->
  let (out, next) := compileLists lists compiled ruleId in
  map dnr_id out = countFrom start (List.length out)
  /\ next = (start + Z.of_nat (List.length out))%Z.
Proof.
  revert compiled ruleId.
  induction lists as [|[id listData] rest IH]; intros compiled ruleId Hids Hnext;
    cbn [compileLists].
  - split; assumption.
  - destruct (fl_rules listData) as [rules|]; [|now apply IH].
    pose proof (compileListRules_ids rules ruleId) as Hr.
    destruct (compileListRules rules ruleId) as [new next].
    destruct Hr as [Hr1 Hr2].
    assert (H1 : map dnr_id (compiled ++ new)
                 = countFrom start (List.length (compiled ++ new))).
    { rewrite map_app, length_app, countFrom_app, Hids, Hr1, <- Hnext. reflexivity. }
    assert (H2 : next = (start + Z.of_nat (List.length (compiled ++ new)))%Z).
    { rewrite length_app. lia. }
    destruct (30000 <=? Z.of_nat (List.length (compiled ++ new)))%Z.
    + split; assumption.
    + now apply IH.
Qed.

Lemma compileCustomRules_ids (rules : list CustomRule) (ruleId : Z) :
  StronglySorted Z.lt (map dnr_id (compileCustomRules rules ruleId))
  /\ Forall (fun i => ruleId <= i)%Z (map dnr_id (compileCustomRules rules ruleId)).
Proof.
  revert ruleId. induction rules as [|rule rest IH]; intros ruleId;
    cbn [compileCustomRules].
  - split; constructor.
  - destruct (IH (ruleId + 1)%Z) as [IH1 IH2].
    assert (Hge : Forall (fun i => ruleId < i)%Z
                    (map dnr_id (compileCustomRules rest (ruleId + 1)))).
    { eapply List.Forall_impl; [| exact IH2]. cbn beta. intros; lia. }
    destruct (compileCustomToDNR rule ruleId) as [r|] eqn:Hr.
    + destruct (compileCustomToDNR_cases _ _ _ Hr) as [Hid _].
      cbn [map]. rewrite Hid. split.
      * constructor; assumption.
      * constructor; [lia |]. eapply List.Forall_impl; [| exact Hge]. cbn beta. intros; lia.
    + split; [assumption |].
      eapply List.Forall_impl; [| exact Hge]. cbn beta. intros; lia.
Qed.

Lemma StronglySorted_app_lt (l1 l2 : list Z) (bound : Z) :
  StronglySorted Z.lt l1 -> StronglySorted Z.lt l2 ->
  Forall (fun i => i < bound)%Z l1 -> Forall (fun i => bound <= i)%Z l2 ->
  StronglySorted Z.lt (l1 ++ l2).
Proof.
  intros H1 H2 Hb1 Hb2. induction H1 as [|x l1 Hs IH Hx]; [exact H2 |].
  cbn [app]. apply List.Forall_cons_iff in Hb1 as [Hxb Hb1].
  constructor; [now apply IH |].
  apply Forall_app. split; [exact Hx |].
  eapply List.Forall_impl; [| exact Hb2]. cbn beta. intros; lia.
Qed.

Lemma StronglySorted_lt_NoDup (l : list Z) :
  StronglySorted Z.lt l -> List.NoDup l.
Proof.
  induction 1 as [|x l Hs IH Hx]; constructor; [| exact IH].
  intros Hin. rewrite List.Forall_forall in Hx. specialize (Hx x Hin). lia.
Qed.

Lemma ruleRanges_disjoint :
  ForallOrdPairs disjointRanges ruleRanges.
Proof.
  unfold ruleRanges.
  repeat (constructor; [repeat constructor |]);
    try (intros id; unfold inRange; cbn [range_start range_end];
         destruct (_ && _)%bool eqn:H; [| reflexivity];
         rewrite !andb_true_iff in H; lia).
  constructor.
Qed.

(** C5, as the code has it.  In every batch of [compileRules] the ids are
    strictly increasing, hence no two rules share one; the list-sourced
    rules take the consecutive ids from 100000 on, whatever the category of
    their list, and the user rules take larger ids; the declared ranges are
    pairwise disjoint. *)
Theorem compile_ids (lists : list (string * FilterData)) (customs : list CustomRule) :
  List.NoDup (map dnr_id (compileBatch lists customs))
  /\ StronglySorted Z.lt (map dnr_id (compileBatch lists customs))
  /\ map dnr_id (compiledListRules lists)
     = countFrom 100000 (List.length (compiledListRules lists))
  /\ Forall (fun r => 100000 <= dnr_id r)%Z (compileBatch lists customs)
  /\ ForallOrdPairs disjointRanges ruleRanges.
Proof.
  pose proof (compileLists_ids lists [] 100000 100000 eq_refl eq_refl) as H.
  unfold compileBatch, compiledListRules.
  destruct (compileLists lists [] 100000) as [compiled next].
  destruct H as [Hids Hnext]. cbn [fst].
  destruct (compileCustomRules_ids customs next) as [Hs Hge].
  assert (Hsorted : StronglySorted Z.lt
                      (map dnr_id (compiled ++ compileCustomRules customs next))).
  { rewrite map_app. apply (StronglySorted_app_lt _ _ next).
    - rewrite Hids. apply countFrom_sorted.
    - exact Hs.
    - rewrite Hids, Hnext.
      eapply List.Forall_impl; [| apply countFrom_bounds]. cbn beta. intros; lia.
    - exact Hge. }
  split; [now apply StronglySorted_lt_NoDup |].
  split; [exact Hsorted |].
  split; [exact Hids |].
  split; [| apply ruleRanges_disjoint].
  apply Forall_app. split.
  - apply List.Forall_map. rewrite Hids.
    eapply List.Forall_impl; [| apply countFrom_bounds]. cbn beta. intros; lia.
  - apply List.Forall_map.
    eapply List.Forall_impl; [| exact Hge]. cbn beta. intros; lia.
Qed.

(** C5, the statement of the specification fails: the one block rule of a list of
    category [ads] is compiled with id 100000, outside the range of [ads]
    (and inside that of [custom]). *)
Lemma list_rule_outside_category_range :
  exists r adsRange customRange,
    compileBatch [cachedList "easylist" "ads" [NetworkBlock "ads" "ads" None]] [] = [r]
    /\ rangeOf "ads" = Some adsRange
    /\ rangeOf "custom" = Some customRange
    /\ inRange adsRange (dnr_id r) = false
    /\ inRange customRange (dnr_id r) = true.
Proof.
  eexists _, _, _. repeat split; reflexivity.
Qed.

Lemma compileListRules_blocks (pattern original : string)
    (options : option RuleOptions) (n : nat) (ruleId : Z) :
  List.length (fst (compileListRules (repeat (NetworkBlock pattern original options) n) ruleId))
  = n.
Proof.
  revert ruleId. induction n as [|n IH]; intros ruleId; [reflexivity |].
  cbn [repeat compileListRules]. specialize (IH (ruleId + 1)%Z).
  destruct (compileListRules _ (ruleId + 1)) as [compiled next].
  cbn [fst List.length] in *. now rewrite IH.
Qed.

(** A single list is compiled whole, however long it is. *)
Lemma single_list_compiled_whole (n : nat) :
  List.length
    (compiledListRules [cachedList "easylist" "ads" (repeat (NetworkBlock "ads" "ads" None) n)])
  = n.
Proof.
  unfold compiledListRules, cachedList.
  cbn [compileLists fl_rules].
  pose proof (compileListRules_blocks "ads" "ads" None n 100000) as H.
  destruct (compileListRules _ 100000) as [compiled next].
  cbn [fst app] in *.
  destruct (30000 <=? Z.of_nat (List.length compiled))%Z; exact H.
Qed.

Lemma compileBatch_no_custom (lists : list (string * FilterData)) :
  compileBatch lists [] = compiledListRules lists.
Proof.
  unfold compileBatch, compiledListRules.
  destruct (compileLists lists [] 100000) as [compiled next].
  cbn [fst compileCustomRules]. apply app_nil_r.
Qed.

(** The ceiling does not touch the user rules: every user rule of type
    [block] or [allow] has its compiled rule in the batch. *)
Lemma custom_rules_always_compiled
    (lists : list (string * FilterData)) (customs : list CustomRule) (rule : CustomRule) :
  In rule customs ->
  custom_type rule = "block" \/ custom_type rule = "allow" ->
  exists id r, compileCustomToDNR rule id = Some r /\ In r (compileBatch lists customs).
Proof.
  intros Hin Htype. unfold compileBatch.
  destruct (compileLists lists [] 100000) as [compiled next].
  assert (H : exists id r, compileCustomToDNR rule id = Some r
                           /\ In r (compileCustomRules customs next)).
  { clear compiled. revert next.
    induction customs as [|c rest IH]; intros next; [contradiction |].
    cbn [compileCustomRules]. destruct Hin as [-> | Hin].
    - assert (Hc : exists r, compileCustomToDNR rule next = Some r).
      { unfold compileCustomToDNR. destruct Htype as [-> | ->]; eexists; reflexivity. }
      destruct Hc as [r Hr]. rewrite Hr. exists next, r. split; [exact Hr | now left].
    - destruct (IH Hin (next + 1)%Z) as (id & r & Hr & Hin').
      exists id, r. split; [exact Hr |].
      destruct (compileCustomToDNR c next); [now right | exact Hin']. }
  destruct H as (id & r & Hr & Hin'). exists id, r.
  split; [exact Hr | apply in_or_app; now right].
Qed.

(** C6, at a failing input.  The ceiling is tested only after a whole list
    has been compiled: one list of 30001 block rules compiles to 30001
    list-sourced rules, one more than the ceiling of 30000. *)
Theorem ceiling_exceeded_by_one_list :
  Z.of_nat (List.length (compiledListRules oversizedLists)) = 30001%Z
  /\ (30000 < Z.of_nat (List.length (compileBatch oversizedLists [])))%Z.
Proof.
  rewrite compileBatch_no_custom. unfold oversizedLists.
  generalize (single_list_compiled_whole (Z.to_nat 30001)).
  generalize (Z2Nat.id 30001 ltac:(lia)).
  generalize (Z.to_nat 30001). intros n Hn Hlen.
  rewrite Hlen, Hn. split; [reflexivity | lia].
Qed.

End RuleIds.

(** ** Cosmetic lookup *)

Section CosmeticLookup.

Lemma existsb_eqb_In (x : string) (seen : list string) :
  existsb (String.eqb x) seen = true <-> In x seen.
Proof.
  rewrite existsb_exists. split.
  - intros (y & Hy & Heq). apply String.eqb_eq in Heq. now subst.
  - intros H. exists x. split; [exact H | apply String.eqb_refl].
Qed.

Lemma dedupe_In (seen l : list string) (s : string) :
  In s (dedupe seen l) <-> In s l /\ ~ In s seen.
Proof.
  revert seen. induction l as [|x rest IH]; intros seen; cbn [dedupe].
  - simpl. tauto.
  - destruct (existsb (String.eqb x) seen) eqn:Hx.
    + apply existsb_eqb_In in Hx. rewrite IH. simpl. split.
      * intros [H1 H2]. auto.
      * intros [[-> | H1] H2]; [contradiction | auto].
    + assert (Hn : ~ In x seen).
      { intros H. apply existsb_eqb_In in H. congruence. }
      simpl. rewrite IH. simpl. split.
      * intros [<- | [H1 H2]]; [auto |]. split; [auto |]. intros H. apply H2. auto.
      * intros [[<- | H1] H2]; [auto |].
        destruct (String.eqb_spec x s) as [-> | Hne]; [auto |].
        right. split; [exact H1 |]. intros [H | H]; [contradiction | contradiction].
Qed.

Lemma dedupe_NoDup (seen l : list string) : List.NoDup (dedupe seen l).
Proof.
  revert seen. induction l as [|x rest IH]; intros seen; cbn [dedupe].
  - constructor.
  - destruct (existsb (String.eqb x) seen); [apply IH |].
    constructor; [| apply IH].
    rewrite dedupe_In. intros [_ H]. apply H. left. reflexivity.
Qed.

Lemma hidingSelectors_In (rules : list ParsedRule) (domain s : string) :
  In s (hidingSelectors rules domain)
  <-> exists ds, In (ElementHide ds s) rules /\ ruleApplies (Some ds) domain = true.
Proof.
  induction rules as [|r rest IH]; cbn [hidingSelectors].
  - simpl. split; [contradiction | intros (ds & [] & _)].
  - assert (Hskip : (forall ds sel, r <> ElementHide ds sel) ->
                    (In s (hidingSelectors rest domain)
                     <-> exists ds, In (ElementHide ds s) (r :: rest)
                                    /\ ruleApplies (Some ds) domain = true)).
    { intros Hr. rewrite IH. split.
      - intros (ds & H1 & H2). exists ds. split; [right; exact H1 | exact H2].
      - intros (ds & [H1 | H1] & H2); [now apply Hr in H1 | eauto]. }
    destruct r as [ds sel | ds sel | ds scr | p o opts | p o opts];
      try (apply Hskip; discriminate).
    destruct (ruleApplies (Some ds) domain) eqn:Ha.
    + simpl. rewrite IH. split.
      * intros [<- | (ds' & H1 & H2)]; [exists ds; auto | exists ds'; auto].
      * intros (ds' & [H1 | H1] & H2); [injection H1 as _ ->; auto | right; eauto].
    + rewrite IH. split.
      * intros (ds' & H1 & H2). exists ds'. split; [right; exact H1 | exact H2].
      * intros (ds' & [H1 | H1] & H2); [| eauto].
        injection H1 as -> ->. congruence.
Qed.

Lemma collectSelectors_In (lists : list (string * FilterData)) (domain s : string) :
  In s (collectSelectors lists domain)
  <-> exists id listData rules ds,
        In (id, listData) lists /\ fl_rules listData = Some rules
        /\ In (ElementHide ds s) rules /\ ruleApplies (Some ds) domain = true.
Proof.
  induction lists as [|[id listData] rest IH]; cbn [collectSelectors].
  - simpl. split; [contradiction | intros (? & ? & ? & ? & [] & _)].
  - destruct (fl_rules listData) as [rules|] eqn:Hr.
    + rewrite in_app_iff, IH, hidingSelectors_In. split.
      * intros [(ds & H1 & H2) | (id' & ld' & rs' & ds & H1 & H2 & H3 & H4)].
        -- exists id, listData, rules, ds. simpl. auto.
        -- exists id', ld', rs', ds. simpl. auto.
      * intros (id' & ld' & rs' & ds & [H1 | H1] & H2 & H3 & H4).
        -- injection H1 as <- <-. rewrite Hr in H2. injection H2 as <-. left. eauto.
        -- right. exists id', ld', rs', ds. auto.
    + rewrite IH. split.
      * intros (id' & ld' & rs' & ds & H1 & H2 & H3 & H4).
        exists id', ld', rs', ds. simpl. auto.
      * intros (id' & ld' & rs' & ds & [H1 | H1] & H2 & H3 & H4).
        -- injection H1 as <- <-. congruence.
        -- exists id', ld', rs', ds. auto.
Qed.

Lemma hidingSelectors_without_exceptions (rules : list ParsedRule) (domain : string) :
  hidingSelectors (List.filter (fun r => negb (isElementException r)) rules) domain
  = hidingSelectors rules domain.
Proof.
  induction rules as [|r rest IH]; [reflexivity |].
  destruct r; cbn [List.filter isElementException negb hidingSelectors];
    try exact IH.
  now rewrite IH.
Qed.

Lemma collectSelectors_without_exceptions
    (lists : list (string * FilterData)) (domain : string) :
  collectSelectors (withoutExceptions lists) domain = collectSelectors lists domain.
Proof.
  induction lists as [|[id listData] rest IH]; [reflexivity |].
  cbn [withoutExceptions map collectSelectors fst snd fl_rules].
  fold (withoutExceptions rest). rewrite IH.
  destruct (fl_rules listData) as [rules|]; cbn [option_map]; [| reflexivity].
  now rewrite hidingSelectors_without_exceptions.
Qed.

(** C9.  For every domain the lookup returns, without duplicates, exactly
    the selectors of the element-hide records that apply to the domain; the
    element-exception records (what a [#@#] line is parsed to) play no part
    in it: the result is the same with or without them, so that a selector
    stays in the result even when an exception names it. *)
Theorem getElementHidingRules_spec
    (lists : list (string * FilterData)) (domain : string) :
  List.NoDup (getElementHidingRules lists domain)
  /\ (forall s,
        In s (getElementHidingRules lists domain)
        <-> exists id listData rules ds,
              In (id, listData) lists /\ fl_rules listData = Some rules
              /\ In (ElementHide ds s) rules /\ ruleApplies (Some ds) domain = true)
  /\ getElementHidingRules (withoutExceptions lists) domain
     = getElementHidingRules lists domain
  /\ parseAdblockRule "example.com#@#.banner-ad"
     = Some (ElementException ["example.com"] ".banner-ad")
  /\ getElementHidingRules
       [cachedList "easylist" "ads"
          (parseAdblockList ("example.com##.banner-ad" +:+ nl +:+ "example.com#@#.banner-ad"))]
       "example.com"
     = [".banner-ad"].
Proof.
  unfold getElementHidingRules.
  split; [apply dedupe_NoDup |].
  split.
  - intros s. rewrite dedupe_In, collectSelectors_In. simpl. tauto.
  - split; [now rewrite collectSelectors_without_exceptions |].
    split; reflexivity.
Qed.

End CosmeticLookup.

(** ** Toggling a filter list *)

Section Toggling.

Variable fetchText : string -> option string.
Variable now : Z.

(** An id that names neither a configured source nor a member of
    [Object.prototype] leaves the engine untouched. *)
Lemma toggleFilterList_undefined (st : EngineState) (id : string) (enabled : bool) :
  getSource (sources st) id = Undefined ->
  toggleFilterList fetchText now st id enabled = (st, []).
Proof.
  intros H. unfold toggleFilterList. now rewrite H.
Qed.

(** C10, at a failing input.  ["constructor"] is not a key of the
    configured sources, yet [this.sources["constructor"]] is the inherited
    [Object] function, which is truthy: the guard lets the call through,
    [compileRules] runs, the backend is updated and [compiledRules] is
    replaced. *)
Theorem toggle_inherited_key_recompiles :
  sources cachedState !! "constructor" = None
  /\ getSource (sources cachedState) "constructor" = InheritedMember (Some "Object")
  /\ (let (st', events) := toggleFilterList fetchText now cachedState "constructor" false in
      sources st' = sources cachedState
      /\ filterLists st' = filterLists cachedState
      /\ customRules st' = customRules cachedState
      /\ compiledRules cachedState = []
      /\ compiledRules st' = [compileToDNR "ads" None 100000]
      /\ events = [DynamicRulesUpdated [compileToDNR "ads" None 100000]]).
Proof.
  assert (H : getSource (sources cachedState) "constructor"
              = InheritedMember (Some "Object")) by (vm_compute; reflexivity).
  split; [vm_compute; reflexivity |].
  split; [exact H |].
  unfold toggleFilterList. rewrite H.
  cbn [andb]. unfold compileRules.
  repeat split; reflexivity.
Qed.

End Toggling.

(** ** The filter-list parser, line by line *)

Section ParserLines.

Lemma split_nonempty (sep : ascii) (s : string) :
  exists piece pieces, split sep s = piece :: pieces.
Proof.
  destruct s as [|c s]; cbn [split]; [eauto |].
  destruct (Ascii.eqb c sep); [eauto |].
  destruct (split sep s); eauto.
Qed.

Lemma split_cons_other (sep c : ascii) (s : string) :
  Ascii.eqb c sep = false ->
  exists piece pieces,
    split sep s = piece :: pieces /\ split sep (String c s) = String c piece :: pieces.
Proof.
  intros H. destruct (split_nonempty sep s) as (p & ps & Hs).
  exists p, ps. split; [exact Hs |]. cbn [split]. now rewrite H, Hs.
Qed.

Lemma split_app_sep (sep : ascii) (a b : string) :
  split sep (a +:+ String sep b) = split sep a ++ split sep b.
Proof.
  induction a as [|c a IH].
  - rewrite append_nil_l. cbn [split]. now rewrite Ascii.eqb_refl.
  - rewrite append_cons. destruct (Ascii.eqb c sep) eqn:Hc.
    + cbn [split]. rewrite Hc, IH. reflexivity.
    + destruct (split_cons_other sep c a Hc) as (p & ps & H1 & H2).
      destruct (split_cons_other sep c (a +:+ String sep b) Hc) as (q & qs & H3 & H4).
      rewrite H4, H2. rewrite IH, H1 in H3. injection H3 as <- <-. reflexivity.
Qed.

Lemma split_single (sep : ascii) (s : string) :
  JsString.forallb (fun c => negb (Ascii.eqb c sep)) s = true -> split sep s = [s].
Proof.
  induction s as [|c s IH]; [reflexivity |].
  cbn [JsString.forallb]. rewrite andb_true_iff, negb_true_iff. intros [Hc Hs].
  cbn [split]. now rewrite Hc, (IH Hs).
Qed.

Lemma parseAdblockLine_acc (rules : list ParsedRule) (line : string) :
  parseAdblockLine rules line = rules ++ parseAdblockLine [] line.
Proof.
  unfold parseAdblockLine.
  destruct (isEmpty (trim line) || startsWith "!" (trim line)
            || startsWith "[" (trim line)); [now rewrite app_nil_r |].
  destruct (parseAdblockRule (trim line)); [reflexivity | now rewrite app_nil_r].
Qed.

Lemma parseHostsLine_acc (rules : list ParsedRule) (line : string) :
  parseHostsLine rules line = rules ++ parseHostsLine [] line.
Proof.
  unfold parseHostsLine.
  destruct (isEmpty (trim line) || startsWith "#" (trim line)); [now rewrite app_nil_r |].
  destruct (matchHostsEntry (trim line)) as [captured|]; [| now rewrite app_nil_r].
  destruct (negb (isEmpty (trim (hd "" (split "#" captured))))
            && negb (String.eqb (trim (hd "" (split "#" captured))) "localhost"));
    [reflexivity | now rewrite app_nil_r].
Qed.

Lemma fold_lines (step : list ParsedRule -> string -> list ParsedRule) :
  (forall rules line, step rules line = rules ++ step [] line) ->
  forall lines rules,
    fold_left step lines rules = rules ++ flat_map (step []) lines.
Proof.
  intros Hstep lines. induction lines as [|line rest IH]; intros rules; cbn [fold_left flat_map].
  - now rewrite app_nil_r.
  - rewrite IH, (Hstep rules line), <- app_assoc. reflexivity.
Qed.

Lemma parseFilterList_lines (text format : string) :
  parseFilterList text format = flat_map (lineRules format) (split LF text).
Proof.
  unfold parseFilterList, lineRules, parseHostsFile, parseAdblockList.
  destruct (String.eqb format "hosts").
  - now rewrite (fold_lines parseHostsLine parseHostsLine_acc).
  - now rewrite (fold_lines parseAdblockLine parseAdblockLine_acc).
Qed.

Lemma lineRules_unclassifiable (format line : string) :
  unclassifiable format line = true -> lineRules format line = [].
Proof.
  unfold unclassifiable, lineRules, parseHostsLine, parseAdblockLine.
  destruct (String.eqb format "hosts").
  - destruct (isEmpty (trim line) || startsWith "#" (trim line)); [discriminate |].
    destruct (matchHostsEntry (trim line)); [discriminate | reflexivity].
  - destruct (isEmpty (trim line) || startsWith "!" (trim line)
              || startsWith "[" (trim line)); [discriminate |].
    destruct (parseAdblockRule (trim line)); [discriminate | reflexivity].
Qed.

Lemma lineRules_at_most_one (format line : string) :
  List.length (lineRules format line)
  + (if unclassifiable format line then 1 else 0) <= 1.
Proof.
  destruct (unclassifiable format line) eqn:Hu.
  - rewrite (lineRules_unclassifiable _ _ Hu). simpl. lia.
  - unfold lineRules, parseHostsLine, parseAdblockLine.
    repeat match goal with
           | |- context [if ?b then _ else _] => destruct b
           | |- context [match ?o with Some _ => _ | None => _ end] => destruct o
           end; simpl; lia.
Qed.

Lemma rules_and_failures (format : string) (lines : list string) :
  List.length (flat_map (lineRules format) lines)
  + List.length (List.filter (unclassifiable format) lines)
  <= List.length lines.
Proof.
  induction lines as [|line rest IH]; [simpl; lia |].
  cbn [flat_map List.filter]. rewrite length_app.
  pose proof (lineRules_at_most_one format line) as H.
  destruct (unclassifiable format line); cbn [List.length] in *; lia.
Qed.

(** C7, as the code has it.  The parser is a total function of the text
    and the format; its result is the concatenation of what each line
    contributes, at most one rule a line; a line the classifier refuses
    contributes nothing, so the result is the same as without the line.
    The refused lines are not counted anywhere. *)
Theorem parser_skips_unclassifiable (format before line after : string) :
  noLineFeed line = true ->
  unclassifiable format line = true ->
  lineRules format line = []
  /\ parseFilterList (before +:+ nl +:+ line +:+ nl +:+ after) format
     = parseFilterList (before +:+ nl +:+ after) format
  /\ (forall text,
        parseFilterList text format = flat_map (lineRules format) (split LF text))
  /\ (forall text,
        List.length (parseFilterList text format) + parseFailures text format
        <= List.length (split LF text)).
Proof.
  intros Hline Hu.
  pose proof (lineRules_unclassifiable _ _ Hu) as Hnone.
  split; [exact Hnone |].
  split; [| split].
  - rewrite !parseFilterList_lines.
    change (nl +:+ line +:+ nl +:+ after) with (String LF (line +:+ String LF after)).
    change (nl +:+ after) with (String LF after).
    rewrite !split_app_sep, (split_single LF line Hline), !flat_map_app.
    cbn [flat_map]. now rewrite Hnone.
  - intros text. apply parseFilterList_lines.
  - intros text. rewrite parseFilterList_lines. apply rules_and_failures.
Qed.

Lemma parser_skips_unclassifiable_witness :
  parseFilterList ("||ads.example^" +:+ nl +:+ "example.com##" +:+ nl +:+ "##.banner") "adblock"
  = parseFilterList ("||ads.example^" +:+ nl +:+ "##.banner") "adblock".
Proof.
  exact (proj1 (proj2 (parser_skips_unclassifiable "adblock" "||ads.example^"
                         "example.com##" "##.banner" eq_refl eq_refl))).
Defined.

(** C7, the statement of the specification fails: the parser keeps no count of the lines
    it refuses.  Its whole effect is the list it returns, and that list is
    the same for a text with one refused line and for the empty text, so
    nothing computed from it counts the refused lines. *)
Lemma no_parse_failure_counter :
  ~ exists counter : list ParsedRule -> nat,
      forall text, counter (parseFilterList text "adblock") = parseFailures text "adblock".
Proof.
  intros [counter H].
  pose proof (H "example.com##") as H1. pose proof (H "") as H0.
  vm_compute in H1, H0. congruence.
Qed.

End ParserLines.

(** ** Reading and matching patterns *)

Section PatternFacts.

Import Regex.

Lemma list_ascii_app (a b : string) :
  list_ascii_of_string (a +:+ b) = list_ascii_of_string a ++ list_ascii_of_string b.
Proof.
  induction a as [|c a IH]; [reflexivity |].
  rewrite append_cons. cbn [list_ascii_of_string app]. now rewrite IH.
Qed.

Lemma run_app (st : PState) (a b : list ascii) :
  run st (a ++ b)
  = match run st a with
    | inl st' => run st' b
    | inr e => inr e
    end.
Proof.
  revert st. induction a as [|c a IH]; intros st; cbn [app run]; [reflexivity |].
  destruct (step st c); [apply IH | reflexivity].
Qed.

Lemma isHostChar_cases (c : ascii) :
  isHostChar c = true ->
  (c = "."%char /\ isRegexSpecial c = true)
  \/ (isRegexSpecial c = false
      /\ forall st, mode st = Normal -> step st c = inl (pushAtom st (Chr c) false)).
Proof.
  destruct c as [[] [] [] [] [] [] [] []]; intros H; try discriminate H;
    first [ left; split; reflexivity
          | right; split; [reflexivity |];
            intros st Hm; unfold step; rewrite Hm; reflexivity ].
Qed.

Lemma escapeRegex_cons (c : ascii) (s : string) :
  escapeRegex (String c s)
  = (if isRegexSpecial c then String "\" (String c "") else String c "") +:+ escapeRegex s.
Proof. reflexivity. Qed.

(** Reading an escaped host name in normal mode pushes its characters as
    literals. *)
Lemma run_escaped_host (d : string) :
  JsString.forallb isHostChar d = true ->
  forall (f : Frame) (frames : list Frame) (closed : bool),
  exists closed',
    run (mkPState f frames Normal closed) (list_ascii_of_string (escapeRegex d))
    = inl (mkPState
             (mkFrame (alternatives f)
                (List.rev (map Chr (list_ascii_of_string d)) ++ atoms f))
             frames Normal closed').
Proof.
  induction d as [|c d IH]; intros Hd f frames closed.
  - exists closed. destruct f. reflexivity.
  - cbn [JsString.forallb] in Hd. apply andb_true_iff in Hd as [Hc Hd].
    rewrite escapeRegex_cons, list_ascii_app.
    destruct (isHostChar_cases c Hc) as [[-> Hs] | [Hs Hstep]]; rewrite Hs.
    + cbn [list_ascii_of_string app run].
      change (step (mkPState f frames Normal closed) "\")
        with (@inl PState SyntaxError (mkPState f frames Escaped closed)).
      cbv iota.
      change (step (mkPState f frames Escaped closed) ".")
        with (@inl PState SyntaxError
                (mkPState (mkFrame (alternatives f) (Chr "." :: atoms f)) frames Normal false)).
      cbv iota.
      destruct (IH Hd (mkFrame (alternatives f) (Chr "." :: atoms f)) frames false)
        as [closed' Hrun].
      exists closed'. rewrite Hrun.
      cbn [alternatives atoms map List.rev]. now rewrite <- app_assoc.
    + cbn [list_ascii_of_string app run].
      rewrite (Hstep (mkPState f frames Normal closed) eq_refl).
      unfold pushAtom. cbn [top outer].
      destruct (IH Hd (mkFrame (alternatives f) (Chr c :: atoms f)) frames false)
        as [closed' Hrun].
      exists closed'. rewrite Hrun.
      cbn [alternatives atoms map List.rev]. now rewrite <- app_assoc.
Qed.

Lemma parse_hostsPattern (d : string) :
  JsString.forallb isHostChar d = true ->
  parse (hostsPattern d) = inl (hostsRe d).
Proof.
  intros Hd. unfold parse, hostsPattern.
  rewrite !list_ascii_app, run_app.
  change (run start (list_ascii_of_string "^https?://([a-z0-9-]+\.)*"))
    with (@inl PState SyntaxError
            (mkPState (mkFrame [] (List.rev schemeAtoms)) [] Normal true)).
  cbv iota. rewrite run_app.
  destruct (run_escaped_host d Hd (mkFrame [] (List.rev schemeAtoms)) [] true)
    as [closed' ->].
  cbn [alternatives atoms].
  cbn [list_ascii_of_string run]. cbn.
  rewrite List.rev_app_distr, List.rev_involutive. reflexivity.
Qed.

(** *** Building matches *)

Lemma matches_seq_cons (r : re) (rs : list re) (before w1 w2 after : list ascii) :
  matches r before w1 (w2 ++ after) ->
  matches (fold_right Cat Eps rs) (before ++ w1) w2 after ->
  matches (fold_right Cat Eps (r :: rs)) before (w1 ++ w2) after.
Proof. intros H1 H2. cbn [fold_right]. now constructor. Qed.

Lemma matches_literal (l : list ascii) (rs : list re) (before w after : list ascii) :
  matches (fold_right Cat Eps rs) (before ++ l) w after ->
  matches (fold_right Cat Eps (map Chr l ++ rs)) before (l ++ w) after.
Proof.
  revert before. induction l as [|c l IH]; intros before H.
  - cbn [map app]. now rewrite app_nil_r in H.
  - cbn [map app]. apply (matches_seq_cons (Chr c) _ before [c] (l ++ w) after).
    + constructor.
    + apply IH. now rewrite <- app_assoc.
Qed.

Lemma isLabelChar_inClass (c : ascii) :
  isLabelChar c = true ->
  inClass false [("a", "z"); ("0", "9"); ("-", "-")]%char c = true.
Proof.
  destruct c as [[] [] [] [] [] [] [] []]; intros H; try discriminate H; reflexivity.
Qed.

Lemma matches_label_chars (l : string) (before after : list ascii) :
  JsString.forallb isLabelChar l = true ->
  matches (Star labelClass) before (list_ascii_of_string l) after.
Proof.
  revert before. induction l as [|c l IH]; intros before H.
  - constructor.
  - cbn [JsString.forallb] in H. apply andb_true_iff in H as [Hc Hl].
    cbn [list_ascii_of_string].
    apply (MStarCons labelClass [c] (list_ascii_of_string l) before after).
    + constructor. now apply isLabelChar_inClass.
    + now apply IH.
Qed.

Lemma matches_label (l : string) (before after : list ascii) :
  isLabel l = true ->
  matches (Plus labelClass) before (list_ascii_of_string l) after.
Proof.
  unfold isLabel. destruct l as [|c l]; [discriminate |].
  cbn [isEmpty negb andb JsString.forallb]. intros H.
  apply andb_true_iff in H as [Hc Hl]. cbn [list_ascii_of_string].
  apply (MCat labelClass (Star labelClass) [c] (list_ascii_of_string l) before after).
  - constructor. now apply isLabelChar_inClass.
  - now apply matches_label_chars.
Qed.

Lemma matches_subdomains (labels : list string) (before after : list ascii) :
  List.forallb isLabel labels = true ->
  matches (Star subdomainGroup) before (list_ascii_of_string (subdomains labels)) after.
Proof.
  revert before. induction labels as [|l rest IH]; intros before H.
  - constructor.
  - cbn [List.forallb] in H. apply andb_true_iff in H as [Hl Hrest].
    cbn [subdomains]. rewrite !list_ascii_app.
    change (list_ascii_of_string ".") with ["."%char].
    rewrite app_assoc.
    apply MStarCons; [| now apply IH].
    apply (MCat (Plus labelClass) (Cat (Chr ".") Eps)
             (list_ascii_of_string l) ["."%char] before).
    + now apply matches_label.
    + apply (MCat (Chr ".") Eps ["."%char] []); constructor.
Qed.

Lemma matches_endGroup (rest : string) (before : list ascii) :
  isPathOrEnd rest = true ->
  exists w after,
    list_ascii_of_string rest = w ++ after /\ matches endGroup before w after.
Proof.
  unfold isPathOrEnd. destruct rest as [|c rest].
  - intros _. exists [], []. split; [reflexivity |].
    apply MAltR. apply (MCat Eol Eps [] [] before []); constructor.
  - cbn [isEmpty orb]. intros H.
    apply startsWith_spec in H as [t Ht]. rewrite append_cons, append_nil_l in Ht.
    injection Ht as -> ->.
    exists ["/"%char], (list_ascii_of_string t). split; [reflexivity |].
    apply MAltL. apply (MCat (Chr "/") Eps ["/"%char] []); constructor.
Qed.

(** The pattern of a hosts entry finds the domain and each of its
    sub-domains, under both schemes, at the end of the URL or before a
    path. *)
Lemma hostsRe_found (d : string) (secure : bool) (labels : list string) (rest : string) :
  List.forallb isLabel labels = true ->
  isPathOrEnd rest = true ->
  found (hostsRe d) (list_ascii_of_string (requestUrl secure labels d rest)).
Proof.
  intros Hlabels Hrest.
  set (scheme := if secure then ["s"%char] else []).
  set (host := list_ascii_of_string (subdomains labels)).
  set (dom := list_ascii_of_string d).
  destruct (matches_endGroup rest
              ((((([] ++ []) ++ ["h"; "t"; "t"; "p"]%char) ++ scheme)
                  ++ [":"; "/"; "/"]%char) ++ host ++ dom)%list Hrest)
    as (wEnd & after & Hsplit & Hend).
  exists [], ([] ++ ["h"; "t"; "t"; "p"]%char ++ scheme ++ [":"; "/"; "/"]%char
              ++ host ++ dom ++ wEnd ++ [])%list, after.
  split.
  - unfold requestUrl. rewrite !list_ascii_app, Hsplit.
    subst scheme host dom. destruct secure; cbn [list_ascii_of_string app];
      rewrite ?app_nil_r, <- ?app_assoc; reflexivity.
  - set (w5 := (dom ++ wEnd ++ [])%list).
    set (w4 := (host ++ w5)%list).
    set (w3 := ([":"; "/"; "/"]%char ++ w4)%list).
    set (w2 := (scheme ++ w3)%list).
    set (w1 := (["h"; "t"; "t"; "p"]%char ++ w2)%list).
    unfold hostsRe, schemeAtoms.
    apply (matches_seq_cons Bol _ [] [] w1 after); [constructor |].
    apply (matches_literal ["h"; "t"; "t"; "p"]%char
             (Opt (Chr "s") :: _) ([] ++ []) w2 after).
    apply (matches_seq_cons (Opt (Chr "s")) _ _ scheme w3 after).
    { subst scheme. destruct secure; [apply MAltL | apply MAltR]; constructor. }
    apply (matches_literal [":"; "/"; "/"]%char (Star subdomainGroup :: _) _ w4 after).
    apply (matches_seq_cons (Star subdomainGroup) _ _ host w5 after);
      [now apply matches_subdomains |].
    apply (matches_literal dom [endGroup] _ (wEnd ++ []) after).
    apply (matches_seq_cons endGroup [] _ wEnd [] after); [| constructor].
    rewrite <- app_assoc. exact Hend.
Qed.

End PatternFacts.

(** ** The computed matcher agrees with the matching relation *)

Section MatcherCorrectness.

Import Regex.

Variable text : list ascii.

Lemma app_eq_length {A : Type} (l1 l2 l1' l2' : list A) :
  l1 ++ l2 = l1' ++ l2' -> List.length l1 = List.length l1' ->
  l1 = l1' /\ l2 = l2'.
Proof.
  revert l1'. induction l1 as [|x l1 IH]; intros [|y l1'] Heq Hlen;
    try discriminate Hlen.
  - split; [reflexivity | exact Heq].
  - cbn [app] in Heq. injection Heq as -> Heq. injection Hlen as Hlen.
    destruct (IH l1' Heq Hlen) as [-> ->]. split; reflexivity.
Qed.

Lemma nth_error_pivot (b : list ascii) (c : ascii) (a : list ascii) :
  nth_error (b ++ [c] ++ a) (List.length b) = Some c.
Proof. induction b as [|x b IH]; [reflexivity | exact IH]. Qed.

Lemma split_at_char (i : nat) (c : ascii) :
  nth_error text i = Some c ->
  exists b a, text = b ++ [c] ++ a /\ List.length b = i.
Proof.
  intros H. destruct (nth_error_split text i H) as (b & a & Ht & Hb).
  exists b, a. split; assumption.
Qed.

Lemma split_at_position (i : nat) :
  i <= List.length text ->
  exists b a, text = b ++ [] ++ a /\ List.length b = i.
Proof.
  intros H. exists (firstn i text), (skipn i text). split.
  - symmetry. apply firstn_skipn.
  - apply firstn_length_le. exact H.
Qed.

Lemma stepChars_In (p : ascii -> bool) (starts : list nat) (j : nat) :
  In j (stepChars text p starts)
  <-> exists i c, In i starts /\ nth_error text i = Some c /\ p c = true /\ j = S i.
Proof.
  unfold stepChars. rewrite in_flat_map. split.
  - intros (i & Hi & Hj). destruct (nth_error text i) as [c|] eqn:Hc; [| contradiction].
    destruct (p c) eqn:Hp; [| contradiction].
    destruct Hj as [<- | []]. exists i, c. auto.
  - intros (i & c & Hi & Hc & Hp & ->). exists i. split; [exact Hi |].
    rewrite Hc, Hp. now left.
Qed.

Lemma iterate_start (n : nat) (f : list nat -> list nat) (s : list nat) (i : nat) :
  In i s -> In i (iterate n f s).
Proof.
  destruct n; cbn [iterate]; [easy |]. intros H. apply in_or_app. now left.
Qed.

(** *** Every match is computed *)

Lemma star_complete (r : re) :
  (forall b w a, matches r b w a -> text = b ++ w ++ a ->
     forall starts, In (List.length b) starts ->
       In (List.length b + List.length w) (ends text r starts)) ->
  forall sr b w a, matches sr b w a -> sr = Star r -> text = b ++ w ++ a ->
    forall m starts, In (List.length b) starts ->
      List.length text <= List.length b + m ->
      In (List.length b + List.length w)
        (iterate m (fun s => nodup Nat.eq_dec (ends text r s)) starts).
Proof.
  intros Hr sr b w a Hm.
  induction Hm as [ | | | | | | | r0 b a | r0 w1 w2 b a H1 _ H2 IH2 | | ];
    intros Hsr Htext m starts Hin Hlen; try discriminate Hsr.
  - cbn [List.length]. rewrite Nat.add_0_r. now apply iterate_start.
  - injection Hsr as ->.
    rewrite <- app_assoc in Htext.
    destruct w1 as [|c w1].
    + cbn [app List.length]. rewrite app_nil_r in IH2.
      apply (IH2 eq_refl Htext m starts Hin Hlen).
    + destruct m as [|m].
      { exfalso. rewrite Htext, !length_app in Hlen. cbn [List.length] in Hlen. lia. }
      cbn [iterate]. apply in_or_app. right.
      rewrite length_app, Nat.add_assoc, <- length_app.
      apply IH2; [reflexivity | now rewrite <- app_assoc | |].
      * rewrite length_app. apply nodup_In.
        now apply (Hr b (c :: w1) (w2 ++ a) H1 Htext).
      * rewrite length_app. cbn [List.length]. lia.
Qed.

Lemma ends_complete (r : re) :
  forall b w a, matches r b w a -> text = b ++ w ++ a ->
    forall starts, In (List.length b) starts ->
      In (List.length b + List.length w) (ends text r starts).
Proof.
  induction r as [ | c | | negated ranges | r1 IH1 r2 IH2 | r1 IH1 r2 IH2 | r IH | | ];
    intros b w a Hm.
  - inversion Hm; subst. intros Htext starts Hin.
    cbn [ends List.length]. now rewrite Nat.add_0_r.
  - inversion Hm; subst. intros Htext starts Hin.
    cbn [ends List.length]. apply stepChars_In.
    exists (List.length b), c. rewrite Htext, nth_error_pivot, Ascii.eqb_refl.
    repeat split; [assumption | lia].
  - inversion Hm as [ | | c b' a' Hc | | | | | | | | ]; subst. intros Htext starts Hin.
    cbn [ends List.length]. apply stepChars_In.
    exists (List.length b), c. rewrite Htext, nth_error_pivot, Hc.
    repeat split; [assumption | lia].
  - inversion Hm as [ | | | n rs c b' a' Hc | | | | | | | ]; subst.
    intros Htext starts Hin.
    cbn [ends List.length]. apply stepChars_In.
    exists (List.length b), c. rewrite Htext, nth_error_pivot, Hc.
    repeat split; [assumption | lia].
  - inversion Hm as [ | | | | r1' r2' w1 w2 b' a' H1 H2 | | | | | | ]; subst.
    intros Htext starts Hin.
    cbn [ends]. rewrite <- app_assoc in Htext.
    rewrite length_app, Nat.add_assoc, <- length_app.
    apply (IH2 (b ++ w1) w2 a H2); [now rewrite <- app_assoc |].
    rewrite length_app. now apply (IH1 b w1 (w2 ++ a) H1).
  - intros Htext starts Hin. cbn [ends]. apply nodup_In, in_or_app.
    inversion Hm as [ | | | | | r1' r2' w' b' a' H1 | r1' r2' w' b' a' H2 | | | | ];
      [left; now apply (IH1 b w a) | right; now apply (IH2 b w a)].
  - intros Htext starts Hin. cbn [ends]. apply nodup_In.
    apply (star_complete r IH (Star r) b w a Hm eq_refl Htext); [exact Hin | lia].
  - inversion Hm; subst. intros Htext starts Hin.
    cbn [ends List.length]. apply filter_In.
    split; [now rewrite Nat.add_0_r in * | reflexivity].
  - inversion Hm; subst. intros Htext starts Hin.
    cbn [ends List.length]. apply filter_In.
    rewrite Nat.add_0_r. split; [assumption |].
    rewrite Htext, !length_app. cbn [List.length]. apply Nat.eqb_eq. lia.
Qed.

(** *** Every computed position is a match *)

Lemma matchEnding_valid (r : re) (starts : list nat) (j : nat) :
  matchEnding text r starts j -> j <= List.length text.
Proof.
  intros (b & w & a & Ht & _ & <- & _). rewrite Ht, !length_app. lia.
Qed.

Lemma matchEnding_here (starts : list nat) (j : nat) (r : re) :
  validStarts text starts -> In j starts ->
  (forall b a, matches r b [] a) ->
  matchEnding text r starts j.
Proof.
  intros Hv Hj Hr. destruct (split_at_position j (Hv j Hj)) as (b & a & Ht & Hb).
  exists b, [], a. rewrite Hb. cbn [List.length]. rewrite Nat.add_0_r. auto.
Qed.

Lemma matchEnding_char (p : ascii -> bool) (r : re) (starts : list nat) (j : nat) :
  (forall c b a, p c = true -> matches r b [c] a) ->
  In j (stepChars text p starts) -> matchEnding text r starts j.
Proof.
  intros Hr Hj. apply stepChars_In in Hj as (i & c & Hi & Hc & Hp & ->).
  destruct (split_at_char i c Hc) as (b & a & Ht & Hb).
  exists b, [c], a. rewrite Hb. cbn [List.length].
  repeat split; [exact Ht | exact Hi | lia | now apply Hr].
Qed.

(** Two matches that meet at a position follow one another in the text. *)
Lemma matches_meet (b1 w1 a1 b2 w2 a2 : list ascii) :
  text = b1 ++ w1 ++ a1 -> text = b2 ++ w2 ++ a2 ->
  List.length b1 + List.length w1 = List.length b2 ->
  b2 = b1 ++ w1 /\ a1 = w2 ++ a2.
Proof.
  intros H1 H2 Hlen. rewrite H1, app_assoc in H2.
  destruct (app_eq_length (b1 ++ w1) a1 b2 (w2 ++ a2) H2) as [<- <-];
    [rewrite length_app; exact Hlen | split; reflexivity].
Qed.

Lemma star_sound (r : re) :
  (forall starts j, validStarts text starts ->
     In j (ends text r starts) -> matchEnding text r starts j) ->
  forall m starts j, validStarts text starts ->
    In j (iterate m (fun s => nodup Nat.eq_dec (ends text r s)) starts) ->
    matchEnding text (Star r) starts j.
Proof.
  intros Hr m. induction m as [|m IH]; intros starts j Hv Hj; cbn [iterate] in Hj.
  - apply matchEnding_here; [assumption | assumption | constructor].
  - apply in_app_or in Hj as [Hj | Hj].
    + apply matchEnding_here; [assumption | assumption | constructor].
    + assert (Hv' : validStarts text (nodup Nat.eq_dec (ends text r starts))).
      { intros k Hk. apply nodup_In in Hk.
        apply (matchEnding_valid r starts). now apply Hr. }
      destruct (IH _ j Hv' Hj) as (b2 & w2 & a2 & Ht2 & Hk & Hlen2 & Hm2).
      apply nodup_In in Hk.
      destruct (Hr starts _ Hv Hk) as (b1 & w1 & a1 & Ht1 & Hi & Hlen1 & Hm1).
      destruct (matches_meet b1 w1 a1 b2 w2 a2 Ht1 Ht2 Hlen1) as [Hb Ha].
      rewrite Hb in Hm2, Hlen2. rewrite Ha in Hm1, Ht1.
      exists b1, (w1 ++ w2), a2.
      repeat split.
      * now rewrite <- app_assoc.
      * exact Hi.
      * rewrite length_app in *. lia.
      * now constructor.
Qed.

Lemma ends_sound (r : re) :
  forall starts j, validStarts text starts ->
    In j (ends text r starts) -> matchEnding text r starts j.
Proof.
  induction r as [ | c | | negated ranges | r1 IH1 r2 IH2 | r1 IH1 r2 IH2 | r IH | | ];
    intros starts j Hv Hj; cbn [ends] in Hj.
  - apply matchEnding_here; [assumption | assumption | constructor].
  - apply (matchEnding_char (Ascii.eqb c)); [| exact Hj].
    intros c' b a Hc. apply Ascii.eqb_eq in Hc as <-. constructor.
  - apply (matchEnding_char (fun c => negb (isLineTerminator c))); [| exact Hj].
    intros c b a Hc. constructor. now apply negb_true_iff in Hc.
  - apply (matchEnding_char (inClass negated ranges)); [| exact Hj].
    intros c b a Hc. now constructor.
  - assert (Hv' : validStarts text (ends text r1 starts)).
    { intros k Hk. apply (matchEnding_valid r1 starts). now apply IH1. }
    destruct (IH2 _ j Hv' Hj) as (b2 & w2 & a2 & Ht2 & Hk & Hlen2 & Hm2).
    destruct (IH1 starts _ Hv Hk) as (b1 & w1 & a1 & Ht1 & Hi & Hlen1 & Hm1).
    destruct (matches_meet b1 w1 a1 b2 w2 a2 Ht1 Ht2 Hlen1) as [Hb Ha].
    rewrite Hb in Hm2, Hlen2. rewrite Ha in Hm1, Ht1.
    exists b1, (w1 ++ w2), a2.
    repeat split.
    + now rewrite <- app_assoc.
    + exact Hi.
    + rewrite length_app in *. lia.
    + now constructor.
  - apply nodup_In, in_app_or in Hj as [Hj | Hj].
    + destruct (IH1 starts j Hv Hj) as (b & w & a & Ht & Hi & Hlen & Hm).
      exists b, w, a. repeat split; try assumption. now apply MAltL.
    + destruct (IH2 starts j Hv Hj) as (b & w & a & Ht & Hi & Hlen & Hm).
      exists b, w, a. repeat split; try assumption. now apply MAltR.
  - apply nodup_In in Hj. now apply (star_sound r IH (List.length text)).
  - apply filter_In in Hj as [Hj H0]. apply Nat.eqb_eq in H0. subst j.
    exists [], [], text. repeat split; [exact Hj | constructor].
  - apply filter_In in Hj as [Hj Hn]. apply Nat.eqb_eq in Hn. subst j.
    exists text, [], []. rewrite !app_nil_r. cbn [List.length]. rewrite Nat.add_0_r.
    repeat split; [exact Hj | constructor].
Qed.

Lemma foundb_spec (r : re) : foundb r text = true <-> found r text.
Proof.
  unfold foundb, found. split.
  - destruct (ends text r (seq 0 (S (List.length text)))) as [|j rest] eqn:He;
      [discriminate |]. intros _.
    assert (Hv : validStarts text (seq 0 (S (List.length text)))).
    { intros i Hi. apply in_seq in Hi. lia. }
    destruct (ends_sound r _ j Hv) as (b & w & a & Ht & _ & _ & Hm);
      [rewrite He; now left |].
    exists b, w, a. split; assumption.
  - intros (b & w & a & Ht & Hm).
    assert (Hin : In (List.length b) (seq 0 (S (List.length text)))).
    { apply in_seq. rewrite Ht, !length_app. lia. }
    pose proof (ends_complete r b w a Hm Ht _ Hin) as H.
    destruct (ends text r (seq 0 (S (List.length text)))); [contradiction | reflexivity].
Qed.

End MatcherCorrectness.

(** The computed verdict is the backend's verdict. *)
Lemma regexMatchesb_spec (pattern url : string) :
  Regex.regexMatchesb pattern url = true <-> Regex.regexMatches pattern url.
Proof.
  unfold Regex.regexMatchesb, Regex.regexMatches.
  destruct (Regex.parse pattern) as [r | e].
  - rewrite foundb_spec. split.
    + intros H. exists r. split; [reflexivity | exact H].
    + intros (r' & [= <-] & H). exact H.
  - split; [discriminate | intros (r' & H & _); discriminate].
Qed.

(** ** Hosts entries *)

Section HostsEntries.

Lemma forallb_app (p : ascii -> bool) (a b : string) :
  JsString.forallb p (a +:+ b) = JsString.forallb p a && JsString.forallb p b.
Proof.
  induction a as [|c a IH]; [reflexivity |].
  rewrite append_cons. cbn [JsString.forallb]. now rewrite IH, andb_assoc.
Qed.

Lemma forallb_rev (p : ascii -> bool) (s : string) :
  JsString.forallb p (rev s) = JsString.forallb p s.
Proof.
  induction s as [|c s IH]; [reflexivity |].
  rewrite rev_cons, forallb_app, IH. cbn [JsString.forallb].
  now rewrite andb_true_r, andb_comm.
Qed.

Lemma forallb_impl (p q : ascii -> bool) (s : string) :
  (forall c, p c = true -> q c = true) ->
  JsString.forallb p s = true -> JsString.forallb q s = true.
Proof.
  intros Hpq. induction s as [|c s IH]; [reflexivity |].
  cbn [JsString.forallb]. rewrite !andb_true_iff. intros [Hc Hs]. auto.
Qed.

Lemma isEmpty_app (a b : string) : isEmpty (a +:+ b) = isEmpty a && isEmpty b.
Proof. destruct a; reflexivity. Qed.

Lemma startsWith_app (p t : string) : startsWith p (p +:+ t) = true.
Proof. apply startsWith_spec. now exists t. Qed.

Lemma drop_app (p t : string) : drop (String.length p) (p +:+ t) = t.
Proof. induction p as [|c p IH]; [now destruct t | exact IH]. Qed.

Lemma hostChar_facts (c : ascii) :
  isHostChar c = true ->
  isWhiteSpace c = false /\ isLineTerminator c = false /\ Ascii.eqb c "#" = false.
Proof.
  destruct c as [[] [] [] [] [] [] [] []]; intros H; try discriminate H;
    repeat split; reflexivity.
Qed.

Lemma blank_facts (c : ascii) :
  isBlank c = true ->
  isWhiteSpace c = true /\ isLineTerminator c = false /\ Ascii.eqb c "#" = false.
Proof.
  destruct c as [[] [] [] [] [] [] [] []]; intros H; try discriminate H;
    repeat split; reflexivity.
Qed.

Lemma trimStart_blanks (a b : string) :
  JsString.forallb isWhiteSpace a = true -> trimStart (a +:+ b) = trimStart b.
Proof.
  induction a as [|c a IH]; [reflexivity |].
  cbn [JsString.forallb]. rewrite andb_true_iff. intros [Hc Ha].
  rewrite append_cons. cbn [trimStart]. rewrite Hc. auto.
Qed.

Lemma trimStart_keeps (c : ascii) (s : string) :
  isWhiteSpace c = false -> trimStart (String c s) = String c s.
Proof. intros H. cbn [trimStart]. now rewrite H. Qed.

(** A string that begins and ends with a host character, followed by
    white space, trims to itself without the white space. *)
Lemma trim_host_blanks (d ws : string) :
  isHostName d = true ->
  JsString.forallb isWhiteSpace ws = true ->
  trim (d +:+ ws) = d.
Proof.
  unfold isHostName. destruct d as [|c d]; [discriminate |].
  cbn [isEmpty negb andb]. intros Hd Hws.
  assert (Hrev : exists c' r, rev (String c d) = String c' r /\ isWhiteSpace c' = false).
  { assert (Hr : JsString.forallb isHostChar (rev (String c d)) = true)
      by now rewrite forallb_rev.
    destruct (rev (String c d)) as [|c' r] eqn:E.
    - apply (f_equal rev) in E. rewrite rev_involutive in E. discriminate.
    - cbn [JsString.forallb] in Hr. apply andb_true_iff in Hr as [Hc' _].
      exists c', r. split; [reflexivity | now apply hostChar_facts]. }
  destruct Hrev as (c' & r & Hr & Hc').
  cbn [JsString.forallb] in Hd. apply andb_true_iff in Hd as [Hc _].
  unfold trim, trimEnd. rewrite append_cons, trimStart_keeps by now apply hostChar_facts.
  rewrite <- append_cons, rev_append, trimStart_blanks by now rewrite forallb_rev.
  rewrite Hr, trimStart_keeps by assumption.
  rewrite <- Hr. apply rev_involutive.
Qed.

Lemma span_app (p : ascii -> bool) (a : string) (c : ascii) (b : string) :
  JsString.forallb p a = true -> p c = false ->
  span p (a +:+ String c b) = (a, String c b).
Proof.
  intros Ha Hc. induction a as [|x a IH].
  - rewrite append_nil_l. cbn [span]. now rewrite Hc.
  - cbn [JsString.forallb] in Ha. apply andb_true_iff in Ha as [Hx Ha].
    rewrite append_cons. cbn [span]. now rewrite Hx, (IH Ha).
Qed.

Lemma span_spec (p : ascii -> bool) (s a b : string) :
  span p s = (a, b) -> s = a +:+ b /\ JsString.forallb p a = true.
Proof.
  revert a b. induction s as [|c s IH]; intros a b; cbn [span].
  - intros [= <- <-]. split; reflexivity.
  - destruct (p c) eqn:Hc.
    + destruct (span p s) as [a' b'] eqn:Hs. intros [= <- <-].
      destruct (IH a' b' eq_refl) as [-> Ha].
      split; [reflexivity |]. cbn [JsString.forallb]. now rewrite Hc, Ha.
    + intros [= <- <-]. split; reflexivity.
Qed.

Lemma split_hd_no_sep (sep : ascii) (a : string) :
  JsString.forallb (fun c => negb (Ascii.eqb c sep)) a = true ->
  hd "" (split sep a) = a.
Proof. intros H. now rewrite (split_single sep a H). Qed.

Lemma split_hd_sep (sep : ascii) (a b : string) :
  JsString.forallb (fun c => negb (Ascii.eqb c sep)) a = true ->
  hd "" (split sep (a +:+ String sep b)) = a.
Proof. intros H. now rewrite split_app_sep, (split_single sep a H). Qed.

(** What [split('#')[0]] keeps of a host name and its inline comment: the
    host name and the blanks after it. *)
Lemma comment_stripped (d suffix : string) :
  isHostName d = true ->
  isInlineComment suffix = true ->
  JsString.dotRun (d +:+ suffix) = true
  /\ exists ws, JsString.forallb isWhiteSpace ws = true
                /\ hd "" (split "#" (d +:+ suffix)) = d +:+ ws.
Proof.
  unfold isHostName, isInlineComment. intros Hd Hs.
  apply andb_true_iff in Hd as [_ Hd].
  assert (Hdot : JsString.dotRun d = true).
  { unfold JsString.dotRun. eapply forallb_impl; [| exact Hd].
    intros c Hc. destruct (hostChar_facts c Hc) as (_ & -> & _). reflexivity. }
  assert (Hhash : JsString.forallb (fun c => negb (Ascii.eqb c "#")) d = true).
  { eapply forallb_impl; [| exact Hd].
    intros c Hc. destruct (hostChar_facts c Hc) as (_ & _ & ->). reflexivity. }
  destruct (isEmpty suffix) eqn:He.
  - destruct suffix; [| discriminate]. rewrite append_nil_r.
    split; [exact Hdot |]. exists "". split; [reflexivity |].
    rewrite append_nil_r. now apply split_hd_no_sep.
  - cbn [orb] in Hs. destruct (span isBlank suffix) as [ws t] eqn:Hspan.
    apply andb_true_iff in Hs as [Hstart Ht].
    destruct (span_spec _ _ _ _ Hspan) as [-> Hws].
    apply startsWith_spec in Hstart as [t' ->].
    rewrite append_cons, append_nil_l in *.
    split.
    + unfold JsString.dotRun in *. rewrite !forallb_app, Hdot, Ht, andb_true_r.
      eapply forallb_impl; [| exact Hws].
      intros c Hc. destruct (blank_facts c Hc) as (_ & -> & _). reflexivity.
    + exists ws. split.
      * eapply forallb_impl; [| exact Hws].
        intros c Hc. now destruct (blank_facts c Hc) as (-> & _).
      * rewrite <- append_assoc. apply split_hd_sep.
        rewrite forallb_app, Hhash. cbn [andb].
        eapply forallb_impl; [| exact Hws].
        intros c Hc. destruct (blank_facts c Hc) as (_ & _ & ->). reflexivity.
Qed.

Lemma matchHostsEntry_entry (address gap d suffix : string) :
  isAddress address = true ->
  isGap gap = true ->
  isHostName d = true ->
  JsString.dotRun (d +:+ suffix) = true ->
  matchHostsEntry (address +:+ gap +:+ d +:+ suffix) = Some (d +:+ suffix).
Proof.
  unfold isAddress, isGap, isHostName. intros Ha Hg Hd Hdot.
  apply andb_true_iff in Hg as [Hg1 Hg2]. apply andb_true_iff in Hd as [Hd1 Hd2].
  destruct d as [|c d]; [discriminate |].
  cbn [JsString.forallb] in Hd2. apply andb_true_iff in Hd2 as [Hc _].
  destruct (hostChar_facts c Hc) as (Hws & _ & _).
  assert (Hspan : span isWhiteSpace (gap +:+ String c d +:+ suffix)
                  = (gap, String c d +:+ suffix)).
  { rewrite append_cons. apply span_app; [| exact Hws].
    eapply forallb_impl; [| exact Hg2].
    intros x Hx. now destruct (blank_facts x Hx) as (-> & _). }
  assert (Hrest : forall r,
            r = gap +:+ String c d +:+ suffix ->
            (let (ws, t) := span isWhiteSpace r in
             if isEmpty ws then None
             else if isEmpty t then
               match lastChar ws with
               | Some c0 =>
                   if (2 <=? String.length ws)%nat && negb (isLineTerminator c0)
                   then Some (String c0 "") else None
               | None => None
               end
             else if JsString.dotRun t then Some t else None)
            = Some (String c d +:+ suffix)).
  { intros r ->. rewrite Hspan. destruct gap; [discriminate |].
    cbn [isEmpty]. rewrite append_cons at 1. cbn [isEmpty]. now rewrite Hdot. }
  apply orb_true_iff in Ha as [Ha | Ha]; apply String.eqb_eq in Ha; subst address;
    unfold matchHostsEntry.
  - rewrite startsWith_app.
    change 7 with (String.length "0.0.0.0"). rewrite drop_app. now apply Hrest.
  - change (startsWith "0.0.0.0" ("127.0.0.1" +:+ gap +:+ String c d +:+ suffix))
      with false.
    rewrite startsWith_app.
    change 9 with (String.length "127.0.0.1"). rewrite drop_app. now apply Hrest.
Qed.

(** A line that trims to an address, a gap, a host name and an optional
    inline comment yields one block rule for that host name, and none when
    the host name is [localhost]. *)
Lemma parseHostsFile_entry (address gap d suffix line : string) :
  isAddress address = true ->
  isGap gap = true ->
  isHostName d = true ->
  isInlineComment suffix = true ->
  noLineFeed line = true ->
  trim line = address +:+ gap +:+ d +:+ suffix ->
  parseHostsFile line
  = if String.eqb d "localhost" then []
    else [NetworkBlock (hostsPattern d) (trim line) None].
Proof.
  intros Ha Hg Hd Hs Hline Htrim.
  destruct (comment_stripped d suffix Hd Hs) as (Hdot & ws & Hws & Hhd).
  unfold parseHostsFile. rewrite (split_single LF line Hline).
  cbn [fold_left]. unfold parseHostsLine.
  assert (Hguard : isEmpty (trim line) || startsWith "#" (trim line) = false).
  { rewrite Htrim. unfold isAddress in Ha.
    apply orb_true_iff in Ha as [Ha | Ha]; apply String.eqb_eq in Ha; subst address;
      reflexivity. }
  rewrite Hguard. rewrite Htrim at 1.
  rewrite (matchHostsEntry_entry address gap d suffix Ha Hg Hd Hdot).
  rewrite Hhd, (trim_host_blanks d ws Hd Hws).
  assert (He : isEmpty d = false).
  { unfold isHostName in Hd. apply andb_true_iff in Hd as [Hd _].
    now apply negb_true_iff in Hd. }
  rewrite He. destruct (String.eqb d "localhost"); reflexivity.
Qed.

(** C8.  The hosts scenario parses to one block rule, for [malware.test],
    and compiles to exactly one block rule, whose pattern finds
    [malware.test] and every sub-domain of it (and neither
    [notmalware.test] nor [malware.test.evil.com]); the [localhost] line
    gives no rule.  In general a line that trims to [0.0.0.0] or [127.0.0.1],
    blanks, a host name and an optional inline comment gives one block
    rule whose pattern finds that host and its sub-domains, and no rule
    when the host name is [localhost]. *)
Theorem hosts_entries_block_domain
    (address gap d suffix line : string)
    (secure : bool) (labels : list string) (rest : string) :
  isAddress address = true ->
  isGap gap = true ->
  isHostName d = true ->
  isInlineComment suffix = true ->
  noLineFeed line = true ->
  trim line = address +:+ gap +:+ d +:+ suffix ->
  List.forallb isLabel labels = true ->
  isPathOrEnd rest = true ->
  parseFilterList hostsScenario "hosts"
  = [NetworkBlock "^https?://([a-z0-9-]+\.)*malware\.test(/|$)" "0.0.0.0 malware.test" None]
  /\ compileBatch
       [cachedList "stevenblack" "unified" (parseFilterList hostsScenario "hosts")] []
     = [mkDNR 100000 1 block
          (mkCondition (Some "^https?://([a-z0-9-]+\.)*malware\.test(/|$)") None
             (Some defaultResourceTypes) None None None None)]
  /\ Regex.regexMatches "^https?://([a-z0-9-]+\.)*malware\.test(/|$)"
       (requestUrl secure labels "malware.test" rest)
  /\ ~ Regex.regexMatches "^https?://([a-z0-9-]+\.)*malware\.test(/|$)"
         "https://notmalware.test/x"
  /\ ~ Regex.regexMatches "^https?://([a-z0-9-]+\.)*malware\.test(/|$)"
         "https://malware.test.evil.com/x"
  /\ lineRules "hosts" "127.0.0.1 localhost" = []
  /\ parseFilterList line "hosts"
     = (if String.eqb d "localhost" then []
        else [NetworkBlock (hostsPattern d) (trim line) None])
  /\ compileBatch [cachedList "stevenblack" "unified" (parseFilterList line "hosts")] []
     = (if String.eqb d "localhost" then []
        else [mkDNR 100000 1 block
                (mkCondition (Some (hostsPattern d)) None
                   (Some defaultResourceTypes) None None None None)])
  /\ Regex.regexMatches (hostsPattern d) (requestUrl secure labels d rest).
Proof.
  intros Ha Hg Hd Hs Hline Htrim Hlabels Hrest.
  assert (Hparse : parseFilterList line "hosts"
                   = if String.eqb d "localhost" then []
                     else [NetworkBlock (hostsPattern d) (trim line) None]).
  { change (parseFilterList line "hosts") with (parseHostsFile line).
    now apply (parseHostsFile_entry address gap d suffix line). }
  assert (Hmatch : forall h, JsString.forallb isHostChar h = true ->
            Regex.regexMatches (hostsPattern h) (requestUrl secure labels h rest)).
  { intros h Hh. exists (hostsRe h). split.
    - now apply parse_hostsPattern.
    - now apply hostsRe_found. }
  split; [reflexivity |].
  split; [reflexivity |].
  split; [apply (Hmatch "malware.test"); reflexivity |].
  split; [intros H; apply regexMatchesb_spec in H; vm_compute in H; discriminate |].
  split; [intros H; apply regexMatchesb_spec in H; vm_compute in H; discriminate |].
  split; [reflexivity |].
  split; [exact Hparse |].
  split.
  - rewrite Hparse. destruct (String.eqb d "localhost"); reflexivity.
  - apply Hmatch. unfold isHostName in Hd. now apply andb_true_iff in Hd as [_ Hd].
Qed.

Lemma hosts_entries_block_domain_witness :
  parseFilterList "  127.0.0.1  ads.example.org # tracker " "hosts"
  = [NetworkBlock (hostsPattern "ads.example.org")
       "127.0.0.1  ads.example.org # tracker" None]
  /\ Regex.regexMatches (hostsPattern "ads.example.org")
       "https://cdn.eu-1.ads.example.org/pixel.gif".
Proof.
  destruct (hosts_entries_block_domain "127.0.0.1" "  " "ads.example.org" " # tracker"
              "  127.0.0.1  ads.example.org # tracker " true ["cdn"; "eu-1"] "/pixel.gif"
              eq_refl eq_refl eq_refl eq_refl eq_refl eq_refl eq_refl eq_refl)
    as (_ & _ & _ & _ & _ & _ & Hparse & _ & Hmatch).
  split; [exact Hparse | exact Hmatch].
Defined.

End HostsEntries.

(** ** The pattern translator on domain anchors *)

Section DomainAnchors.

Import Regex.

Lemma replaceChars_app (p : ascii -> bool) (f : ascii -> string) (a b : string) :
  replaceChars p f (a +:+ b) = replaceChars p f a +:+ replaceChars p f b.
Proof.
  induction a as [|c a IH]; [reflexivity |].
  rewrite append_cons. cbn [replaceChars]. now rewrite IH, append_assoc.
Qed.

Lemma replaceChars_none (p : ascii -> bool) (f : ascii -> string) (s : string) :
  JsString.forallb (fun c => negb (p c)) s = true -> replaceChars p f s = s.
Proof.
  induction s as [|c s IH]; [reflexivity |].
  cbn [JsString.forallb replaceChars]. rewrite andb_true_iff, negb_true_iff.
  intros [-> Hs]. now rewrite (IH Hs).
Qed.

(** An escaped host name holds neither [*] nor [^]. *)
Lemma escapeRegex_host_plain (d : string) :
  JsString.forallb isHostChar d = true ->
  JsString.forallb (fun c => negb (Ascii.eqb "*" c)) (escapeRegex d) = true
  /\ JsString.forallb (fun c => negb (Ascii.eqb "^" c)) (escapeRegex d) = true.
Proof.
  induction d as [|c d IH]; [split; reflexivity |].
  cbn [JsString.forallb]. rewrite andb_true_iff. intros [Hc Hd].
  destruct (IH Hd) as [IH1 IH2]. rewrite escapeRegex_cons, !forallb_app, IH1, IH2.
  destruct (isHostChar_cases c Hc) as [[-> Hs] | [Hs _]]; rewrite Hs.
  - split; reflexivity.
  - clear - Hc. cbn [JsString.forallb]. rewrite !andb_true_r.
    destruct c as [[] [] [] [] [] [] [] []]; try discriminate Hc; split; reflexivity.
Qed.

Lemma escape_domain_anchor (d : string) :
  replaceChars isRegexSpecial (fun c => String "\" (String c "")) ("||" +:+ d +:+ "^")
  = "\|\|" +:+ escapeRegex d +:+ "\^".
Proof.
  rewrite (replaceChars_app _ _ "||" (d +:+ "^")), (replaceChars_app _ _ d "^").
  reflexivity.
Qed.

Lemma star_domain_anchor (d : string) :
  JsString.forallb isHostChar d = true ->
  replaceChars (Ascii.eqb "*") (fun _ => ".*") ("\|\|" +:+ escapeRegex d +:+ "\^")
  = "\|\|" +:+ escapeRegex d +:+ "\^".
Proof.
  intros Hd. destruct (escapeRegex_host_plain d Hd) as [Hstar _].
  rewrite (replaceChars_app _ _ "\|\|" (escapeRegex d +:+ "\^")),
    (replaceChars_app _ _ (escapeRegex d) "\^"),
    (replaceChars_none (Ascii.eqb "*") _ (escapeRegex d) Hstar).
  reflexivity.
Qed.

Lemma caret_domain_anchor (d : string) :
  JsString.forallb isHostChar d = true ->
  replaceChars (Ascii.eqb "^") (fun _ => "([^a-zA-Z0-9_.%-]|$)")
    ("\|\|" +:+ escapeRegex d +:+ "\^")
  = "\|\|" +:+ escapeRegex d +:+ "\([^a-zA-Z0-9_.%-]|$)".
Proof.
  intros Hd. destruct (escapeRegex_host_plain d Hd) as [_ Hcaret].
  rewrite (replaceChars_app _ _ "\|\|" (escapeRegex d +:+ "\^")),
    (replaceChars_app _ _ (escapeRegex d) "\^"),
    (replaceChars_none (Ascii.eqb "^") _ (escapeRegex d) Hcaret).
  reflexivity.
Qed.

Lemma suffix_domain_anchor (a d : string) :
  replaceSuffix "\|" "$" (a +:+ escapeRegex d +:+ "\([^a-zA-Z0-9_.%-]|$)")
  = a +:+ escapeRegex d +:+ "\([^a-zA-Z0-9_.%-]|$)".
Proof.
  unfold replaceSuffix, endsWith.
  rewrite <- append_assoc, (rev_append (a +:+ escapeRegex d) "\([^a-zA-Z0-9_.%-]|$)").
  reflexivity.
Qed.

(** The translation of [||d^] for a host name [d]. *)
Lemma ruleToRegex_domain_anchor (d : string) :
  JsString.forallb isHostChar d = true ->
  ruleToRegex ("||" +:+ d +:+ "^")
  = "^https?://([a-z0-9-]+\.)*" +:+ escapeRegex d +:+ "\([^a-zA-Z0-9_.%-]|$)".
Proof.
  intros Hd. unfold ruleToRegex.
  change (startsWith "/" ("||" +:+ d +:+ "^")) with false. cbn [andb].
  rewrite escape_domain_anchor, (star_domain_anchor d Hd), (caret_domain_anchor d Hd).
  unfold replacePrefix at 2.
  rewrite (startsWith_app "\|\|" (escapeRegex d +:+ "\([^a-zA-Z0-9_.%-]|$)")),
    (drop_app "\|\|" (escapeRegex d +:+ "\([^a-zA-Z0-9_.%-]|$)")).
  change (replacePrefix "\|" "^"
            ("^https?://([a-z0-9-]+\.)*" +:+ escapeRegex d +:+ "\([^a-zA-Z0-9_.%-]|$)"))
    with ("^https?://([a-z0-9-]+\.)*" +:+ escapeRegex d +:+ "\([^a-zA-Z0-9_.%-]|$)").
  apply suffix_domain_anchor.
Qed.

Lemma parse_domain_anchor (d : string) :
  JsString.forallb isHostChar d = true ->
  parse ("^https?://([a-z0-9-]+\.)*" +:+ escapeRegex d +:+ "\([^a-zA-Z0-9_.%-]|$)")
  = inr UnmatchedClose.
Proof.
  intros Hd. unfold parse.
  rewrite !list_ascii_app, run_app.
  change (run start (list_ascii_of_string "^https?://([a-z0-9-]+\.)*"))
    with (@inl PState SyntaxError
            (mkPState (mkFrame [] (List.rev schemeAtoms)) [] Normal true)).
  cbv iota. rewrite run_app.
  destruct (run_escaped_host d Hd (mkFrame [] (List.rev schemeAtoms)) [] true)
    as [closed' ->].
  cbn [alternatives atoms list_ascii_of_string run]. cbn. reflexivity.
Qed.

(** C1, at the failing inputs.  For every host name [d] the pattern
    [||d^] is translated to an expression in which the separator group
    follows a stray backslash: the characters [|] and [^] are escaped
    before the anchors are substituted, so the [^] substitution leaves the
    backslash of [\^] in front of its opening parenthesis.  The result has
    a closing parenthesis that closes no group, is not a well-formed
    pattern, and matches no URL. *)
Theorem domain_anchor_pattern_malformed (d url : string) :
  isHostName d = true ->
  ruleToRegex ("||" +:+ d +:+ "^")
  = "^https?://([a-z0-9-]+\.)*" +:+ escapeRegex d +:+ "\([^a-zA-Z0-9_.%-]|$)"
  /\ parse (ruleToRegex ("||" +:+ d +:+ "^")) = inr UnmatchedClose
  /\ ~ regexMatches (ruleToRegex ("||" +:+ d +:+ "^")) url.
Proof.
  unfold isHostName. intros Hd. apply andb_true_iff in Hd as [_ Hd].
  pose proof (ruleToRegex_domain_anchor d Hd) as Heq.
  pose proof (parse_domain_anchor d Hd) as Hparse.
  rewrite <- Heq in Hparse.
  split; [exact Heq |]. split; [exact Hparse |].
  intros (r & Hr & _). rewrite Hparse in Hr. discriminate.
Qed.

Lemma domain_anchor_pattern_malformed_witness :
  ruleToRegex "||domain.com^"
  = "^https?://([a-z0-9-]+\.)*domain\.com\([^a-zA-Z0-9_.%-]|$)"
  /\ parse (ruleToRegex "||domain.com^") = inr UnmatchedClose
  /\ ~ regexMatches (ruleToRegex "||domain.com^") "https://domain.com/x".
Proof.
  exact (domain_anchor_pattern_malformed "domain.com" "https://domain.com/x" eq_refl).
Defined.

End DomainAnchors.

(** * Further properties *)

(** ** What the compiler keeps and where it stops *)

Section CompilerCoverage.

Import FilterEngineOps.

Lemma compileListRules_length (rules : list ParsedRule) (ruleId : Z) :
  List.length (fst (compileListRules rules ruleId))
  = List.length (List.filter isNetworkBlock rules).
Proof.
  revert ruleId. induction rules as [|r rest IH]; intros ruleId; [reflexivity |].
  destruct r; cbn [compileListRules List.filter isNetworkBlock]; try apply IH.
  specialize (IH (ruleId + 1)%Z).
  destruct (compileListRules rest (ruleId + 1)) as [compiled next].
  cbn [fst List.length] in *. now rewrite IH.
Qed.

Lemma compileListRules_onlyBlocks (rules : list ParsedRule) (ruleId : Z) :
  compileListRules (List.filter isNetworkBlock rules) ruleId
  = compileListRules rules ruleId.
Proof.
  revert ruleId. induction rules as [|r rest IH]; intros ruleId; [reflexivity |].
  destruct r; cbn [compileListRules List.filter isNetworkBlock]; try apply IH.
  now rewrite IH.
Qed.

Lemma compileLists_onlyBlocks (lists : list (string * FilterData))
    (compiled : list DNRRule) (ruleId : Z) :
  compileLists (onlyBlocks lists) compiled ruleId = compileLists lists compiled ruleId.
Proof.
  revert compiled ruleId.
  induction lists as [|[id listData] rest IH]; intros compiled ruleId; [reflexivity |].
  cbn [onlyBlocks map compileLists fst snd fl_rules]. fold (onlyBlocks rest).
  destruct (fl_rules listData) as [rules|]; cbn [option_map]; [| apply IH].
  rewrite compileListRules_onlyBlocks.
  destruct (compileListRules rules ruleId) as [new next].
  destruct (30000 <=? Z.of_nat (List.length (compiled ++ new)))%Z; [reflexivity | apply IH].
Qed.

Lemma compileListRules_blocks_only (rules : list ParsedRule) (ruleId : Z) :
  Forall (fun r => dnr_action r = block /\ dnr_priority r = 1%Z)
    (fst (compileListRules rules ruleId)).
Proof.
  apply (compileListRules_Forall (fun r => dnr_action r = block /\ dnr_priority r = 1%Z)).
  intros. split; reflexivity.
Qed.

(** X1.  Only the network-block records of the lists reach the batch: with
    every exception ([@@]), cosmetic and scriptlet record taken out of the
    lists the batch is the same, and each list-sourced rule of the batch is
    a block rule of priority 1. *)
Theorem only_block_records_compiled
    (lists : list (string * FilterData)) (customs : list CustomRule) :
  compileBatch (onlyBlocks lists) customs = compileBatch lists customs
  /\ Forall (fun r => dnr_action r = block /\ dnr_priority r = 1%Z)
       (compiledListRules lists).
Proof.
  split.
  - unfold compileBatch. now rewrite compileLists_onlyBlocks.
  - unfold compiledListRules.
    apply (compileLists_Forall (fun r => dnr_action r = block /\ dnr_priority r = 1%Z));
      [intros; split; reflexivity | constructor].
Qed.

Lemma compileLists_below (lists : list (string * FilterData))
    (compiled : list DNRRule) (ruleId : Z) :
  (Z.of_nat (List.length compiled + blockCount lists) < 30000)%Z ->
  List.length (fst (compileLists lists compiled ruleId))
  = List.length compiled + blockCount lists.
Proof.
  revert compiled ruleId.
  induction lists as [|[id listData] rest IH]; intros compiled ruleId Hlt;
    cbn [compileLists blockCount] in *.
  - cbn [fst]. lia.
  - destruct (fl_rules listData) as [rules|]; [| now apply IH].
    pose proof (compileListRules_length rules ruleId) as Hlen.
    destruct (compileListRules rules ruleId) as [new next]. cbn [fst] in Hlen.
    destruct (30000 <=? Z.of_nat (List.length (compiled ++ new)))%Z eqn:Hc.
    + apply Z.leb_le in Hc. rewrite length_app in Hc. lia.
    + rewrite IH; rewrite length_app; lia.
Qed.

Lemma compileLists_upto (lists : list (string * FilterData))
    (compiled : list DNRRule) (ruleId : Z) :
  List.length (fst (compileLists lists compiled ruleId))
  <= List.length compiled + blockCount lists.
Proof.
  revert compiled ruleId.
  induction lists as [|[id listData] rest IH]; intros compiled ruleId;
    cbn [compileLists blockCount].
  - cbn [fst]. lia.
  - destruct (fl_rules listData) as [rules|]; [| now apply IH].
    pose proof (compileListRules_length rules ruleId) as Hlen.
    destruct (compileListRules rules ruleId) as [new next]. cbn [fst] in Hlen.
    destruct (30000 <=? Z.of_nat (List.length (compiled ++ new)))%Z.
    + cbn [fst]. rewrite length_app. lia.
    + etransitivity; [apply IH |]. rewrite length_app. lia.
Qed.

Lemma blockCount_app (a b : list (string * FilterData)) :
  blockCount (a ++ b) = blockCount a + blockCount b.
Proof.
  induction a as [|[id listData] rest IH]; [reflexivity |].
  cbn [app blockCount]. destruct (fl_rules listData); lia.
Qed.

Lemma compileLists_stops (before : list (string * FilterData))
    (entry : string * FilterData) (after : list (string * FilterData))
    (compiled : list DNRRule) (ruleId : Z) :
  (Z.of_nat (List.length compiled + blockCount before) < 30000)%Z ->
  (30000 <= Z.of_nat (List.length compiled + blockCount (before ++ [entry])))%Z ->
  compileLists (before ++ entry :: after) compiled ruleId
  = compileLists (before ++ [entry]) compiled ruleId.
Proof.
  revert compiled ruleId.
  induction before as [|[id listData] rest IH]; intros compiled ruleId Hlt Hge.
  - destruct entry as [id listData]. cbn [app compileLists blockCount] in *.
    destruct (fl_rules listData) as [rules|]; [| lia].
    pose proof (compileListRules_length rules ruleId) as Hlen.
    destruct (compileListRules rules ruleId) as [new next]. cbn [fst] in Hlen.
    destruct (30000 <=? Z.of_nat (List.length (compiled ++ new)))%Z eqn:Hc;
      [reflexivity |].
    apply Z.leb_gt in Hc. rewrite length_app in Hc. lia.
  - cbn [app compileLists blockCount] in *.
    destruct (fl_rules listData) as [rules|]; [| now apply IH].
    pose proof (compileListRules_length rules ruleId) as Hlen.
    destruct (compileListRules rules ruleId) as [new next]. cbn [fst] in Hlen.
    destruct (30000 <=? Z.of_nat (List.length (compiled ++ new)))%Z eqn:Hc.
    + apply Z.leb_le in Hc. rewrite length_app in Hc. lia.
    + apply IH; rewrite length_app; lia.
Qed.

(** X2.  Lists are compiled whole and in order until the batch holds 30000
    rules or more: the list that takes it there is still compiled in full,
    and no list after it is compiled at all. *)
Theorem lists_after_ceiling_dropped
    (before : list (string * FilterData)) (entry : string * FilterData)
    (after : list (string * FilterData)) :
  (Z.of_nat (blockCount before) < 30000)%Z ->
  (30000 <= Z.of_nat (blockCount (before ++ [entry])))%Z ->
  compiledListRules (before ++ entry :: after) = compiledListRules (before ++ [entry])
  /\ List.length (compiledListRules (before ++ entry :: after))
     = blockCount (before ++ [entry]).
Proof.
  intros Hlt Hge. unfold compiledListRules.
  rewrite (compileLists_stops before entry after [] 100000 Hlt Hge).
  split; [reflexivity |].
  apply Nat.le_antisymm; [apply (compileLists_upto _ [] 100000) |].
  pose proof (compileLists_stops before entry [] [] 100000 Hlt Hge) as _.
  clear after. rewrite blockCount_app in *.
  assert (H : forall compiled ruleId,
            (Z.of_nat (List.length compiled + blockCount before) < 30000)%Z ->
            List.length compiled + (blockCount before + blockCount [entry])
            <= List.length (fst (compileLists (before ++ [entry]) compiled ruleId))).
  { clear Hlt Hge. induction before as [|[id listData] rest IH]; intros compiled ruleId Hlt.
    - destruct entry as [id listData]. cbn [app compileLists blockCount] in *.
      destruct (fl_rules listData) as [rules|]; [| cbn [fst]; lia].
      pose proof (compileListRules_length rules ruleId) as Hlen.
      destruct (compileListRules rules ruleId) as [new next]. cbn [fst] in Hlen.
      destruct (30000 <=? Z.of_nat (List.length (compiled ++ new)))%Z;
        cbn [fst]; rewrite length_app; lia.
    - cbn [app compileLists blockCount] in *.
      destruct (fl_rules listData) as [rules|]; [| now apply IH].
      pose proof (compileListRules_length rules ruleId) as Hlen.
      destruct (compileListRules rules ruleId) as [new next]. cbn [fst] in Hlen.
      destruct (30000 <=? Z.of_nat (List.length (compiled ++ new)))%Z eqn:Hc.
      + apply Z.leb_le in Hc. rewrite length_app in Hc. lia.
      + etransitivity; [| apply IH; rewrite length_app; lia].
        rewrite length_app. lia. }
  apply (H [] 100000%Z). exact Hlt.
Qed.

Lemma blockCount_repeat (id category pattern : string) (n : nat) :
  blockCount [cachedList id category (repeat (NetworkBlock pattern pattern None) n)] = n.
Proof.
  cbn [blockCount cachedList fl_rules]. rewrite Nat.add_0_r.
  induction n as [|n IH]; [reflexivity |].
  cbn [repeat List.filter isNetworkBlock List.length]. now rewrite IH.
Qed.

Lemma lists_after_ceiling_dropped_witness :
  compiledListRules
    [cachedList "easylist" "ads" (repeat (NetworkBlock "ads" "ads" None) (Z.to_nat 30000));
     cachedList "easyprivacy" "trackers" [NetworkBlock "track" "track" None]]
  = compiledListRules
      [cachedList "easylist" "ads" (repeat (NetworkBlock "ads" "ads" None) (Z.to_nat 30000))].
Proof.
  refine (proj1 (lists_after_ceiling_dropped []
            (cachedList "easylist" "ads"
               (repeat (NetworkBlock "ads" "ads" None) (Z.to_nat 30000)))
            [cachedList "easyprivacy" "trackers" [NetworkBlock "track" "track" None]] _ _)).
  - cbn [blockCount]. lia.
  - cbn [app]. rewrite blockCount_repeat. lia.
Defined.

Lemma countRules_from (test : ParsedRule -> bool) (lists : list (string * FilterData)) (count : Z) :
  fold_left
    (fun count entry =>
       match fl_rules (snd entry) with
       | Some rules => (count + Z.of_nat (List.length (List.filter test rules)))%Z
       | None => count
       end)
    lists count
  = (count + countRules test lists)%Z.
Proof.
  unfold countRules. revert count.
  induction lists as [|[id listData] rest IH]; intros count; cbn [fold_left snd].
  - lia.
  - rewrite IH. rewrite (IH (match fl_rules listData with Some _ => _ | None => _ end)).
    destruct (fl_rules listData); lia.
Qed.

Lemma countRules_blocks (lists : list (string * FilterData)) :
  countRules isNetworkBlock lists = Z.of_nat (blockCount lists).
Proof.
  induction lists as [|[id listData] rest IH]; [reflexivity |].
  unfold countRules in *. cbn [fold_left snd blockCount].
  rewrite countRules_from. unfold countRules. rewrite IH.
  destruct (fl_rules listData); lia.
Qed.

Lemma compileCustomRules_length (rules : list CustomRule) (ruleId : Z) :
  List.length (compileCustomRules rules ruleId) <= List.length rules
  /\ (List.forallb isBlockOrAllow rules = true ->
      List.length (compileCustomRules rules ruleId) = List.length rules).
Proof.
  revert ruleId. induction rules as [|rule rest IH]; intros ruleId.
  - split; reflexivity.
  - destruct (IH (ruleId + 1)%Z) as [IH1 IH2].
    cbn [compileCustomRules List.forallb List.length]. split.
    + destruct (compileCustomToDNR rule ruleId); cbn [List.length]; lia.
    + intros H. apply andb_true_iff in H as [Hrule Hrest].
      unfold compileCustomToDNR, isBlockOrAllow in *.
      destruct (String.eqb (custom_type rule) "block");
        [cbn [List.length]; now rewrite IH2 |].
      destruct (String.eqb (custom_type rule) "allow"); [| discriminate].
      cbn [List.length]. now rewrite IH2.
Qed.

(** The batch never holds more rules than [getNetworkRulesCount]
    reports. *)
Lemma batch_within_network_count
    (lists : list (string * FilterData)) (customs : list CustomRule) :
  (Z.of_nat (List.length (compileBatch lists customs))
   <= getNetworkRulesCount lists customs)%Z.
Proof.
  unfold getNetworkRulesCount, compileBatch. rewrite countRules_blocks.
  pose proof (compileLists_upto lists [] 100000) as Hup.
  destruct (compileLists lists [] 100000) as [compiled next]. cbn [fst List.length] in *.
  destruct (compileCustomRules_length customs next) as [Hc1 _].
  rewrite length_app. lia.
Qed.

(** X3.  [getNetworkRulesCount] reports the network-block records of all
    lists plus the user rules, and the batch holds exactly that many rules
    when the lists stay below the ceiling of 30000 and every user rule is
    of type [block] or [allow]. *)
Theorem network_count_is_batch_size
    (lists : list (string * FilterData)) (customs : list CustomRule) :
  (Z.of_nat (blockCount lists) < 30000)%Z ->
  List.forallb isBlockOrAllow customs = true ->
  getNetworkRulesCount lists customs
  = (Z.of_nat (blockCount lists) + Z.of_nat (List.length customs))%Z
  /\ Z.of_nat (List.length (compileBatch lists customs))
     = getNetworkRulesCount lists customs.
Proof.
  intros Hlt Hall. unfold getNetworkRulesCount. rewrite countRules_blocks.
  split; [reflexivity |].
  unfold compileBatch.
  pose proof (compileLists_below lists [] 100000) as Hbelow.
  destruct (compileLists lists [] 100000) as [compiled next]. cbn [fst List.length] in *.
  destruct (compileCustomRules_length customs next) as [_ Hc2].
  rewrite length_app, (Hc2 Hall), Hbelow; lia.
Qed.

Lemma network_count_is_batch_size_witness :
  Z.of_nat
    (List.length
       (compileBatch
          [cachedList "easylist" "ads"
             [NetworkBlock "ads" "ads" None; ElementHide [] ".ad";
              NetworkException "ok" "@@ok" None]]
          [mkCustom 1 "x" "allow" None 1]))
  = getNetworkRulesCount
      [cachedList "easylist" "ads"
         [NetworkBlock "ads" "ads" None; ElementHide [] ".ad";
          NetworkException "ok" "@@ok" None]]
      [mkCustom 1 "x" "allow" None 1].
Proof.
  refine (proj2 (network_count_is_batch_size
            [cachedList "easylist" "ads"
               [NetworkBlock "ads" "ads" None; ElementHide [] ".ad";
                NetworkException "ok" "@@ok" None]]
            [mkCustom 1 "x" "allow" None 1] _ eq_refl)).
  cbn. lia.
Defined.

Lemma dedupe_length (seen l : list string) :
  List.length (dedupe seen l) <= List.length l.
Proof.
  revert seen. induction l as [|x rest IH]; intros seen; cbn [dedupe]; [lia |].
  destruct (existsb (String.eqb x) seen); cbn [List.length];
    [specialize (IH seen) | specialize (IH (x :: seen))]; lia.
Qed.

Lemma hidingSelectors_length (rules : list ParsedRule) (domain : string) :
  List.length (hidingSelectors rules domain)
  <= List.length (List.filter isElementHide rules).
Proof.
  induction rules as [|r rest IH]; [reflexivity |].
  destruct r; cbn [hidingSelectors List.filter isElementHide]; try exact IH.
  destruct (ruleApplies (Some domains) domain); cbn [List.length]; lia.
Qed.

(** X4.  [getElementHidingRules] never returns more selectors than
    [getCosmeticRulesCount] reports element-hide records. *)
Theorem cosmetic_count_bounds_lookup
    (lists : list (string * FilterData)) (domain : string) :
  (Z.of_nat (List.length (getElementHidingRules lists domain))
   <= getCosmeticRulesCount lists)%Z.
Proof.
  unfold getElementHidingRules, getCosmeticRulesCount.
  etransitivity; [apply inj_le, dedupe_length |].
  induction lists as [|[id listData] rest IH]; [reflexivity |].
  unfold countRules in *. cbn [collectSelectors fold_left snd].
  rewrite countRules_from. unfold countRules.
  destruct (fl_rules listData) as [rules|]; [| lia].
  rewrite length_app. pose proof (hidingSelectors_length rules domain). lia.
Qed.

End CompilerCoverage.

(** ** User rules *)

Section UserRules.

Import FilterEngineOps.

Lemma compileCustomRules_app (a b : list CustomRule) (ruleId : Z) :
  compileCustomRules (a ++ b) ruleId
  = compileCustomRules a ruleId
    ++ compileCustomRules b (ruleId + Z.of_nat (List.length a)).
Proof.
  revert ruleId. induction a as [|rule rest IH]; intros ruleId.
  - cbn [app compileCustomRules List.length]. now rewrite Z.add_0_r.
  - cbn [app compileCustomRules List.length]. rewrite IH.
    replace (ruleId + 1 + Z.of_nat (List.length rest))%Z
      with (ruleId + Z.of_nat (S (List.length rest)))%Z by lia.
    destruct (compileCustomToDNR rule ruleId); reflexivity.
Qed.

Lemma compileLists_next (lists : list (string * FilterData)) :
  snd (compileLists lists [] 100000)
  = (100000 + Z.of_nat (List.length (compiledListRules lists)))%Z.
Proof.
  pose proof (compileLists_ids lists [] 100000 100000 eq_refl eq_refl) as H.
  unfold compiledListRules. destruct (compileLists lists [] 100000) as [out next].
  now destruct H as [_ ->].
Qed.

Lemma compileBatch_app (lists : list (string * FilterData)) (a b : list CustomRule) :
  compileBatch lists (a ++ b)
  = compileBatch lists a
    ++ compileCustomRules b
         (100000 + Z.of_nat (List.length (compiledListRules lists))
          + Z.of_nat (List.length a)).
Proof.
  pose proof (compileLists_next lists) as Hnext.
  unfold compileBatch, compiledListRules in *.
  destruct (compileLists lists [] 100000) as [compiled next]. cbn [fst snd] in *.
  now rewrite compileCustomRules_app, app_assoc, Hnext.
Qed.

(** X5.  [addCustomRule] leaves the rules already compiled as they are,
    ids included, and puts the new rule's compiled rule, if its type gives
    one, at the end of the batch with the next free id; the new rule takes
    its [id] from the argument when it has one and from the clock
    otherwise. *)
Theorem addCustomRule_appends (idNow createdNow : Z) (st : EngineState) (rule : NewRule) :
  let '(st', _, newRule) := addCustomRule idNow createdNow st rule in
  customRules st' = customRules st ++ [newRule]
  /\ filterLists st' = filterLists st
  /\ custom_id newRule = match new_id rule with Some i => i | None => idNow end
  /\ compiledRules st'
     = compileBatch (filterLists st) (customRules st)
       ++ optionToList
            (compileCustomToDNR newRule
               (100000 + Z.of_nat (List.length (compiledListRules (filterLists st)))
                + Z.of_nat (List.length (customRules st)))).
Proof.
  unfold addCustomRule, storeAndCompile, compileRules, withCustomRules.
  cbn [customRules filterLists compiledRules].
  repeat split. rewrite compileBatch_app. f_equal.
Qed.

Lemma filter_other_ids (rules : list CustomRule) (ruleId : Z) :
  Forall (fun r => custom_id r <> ruleId) rules ->
  List.filter (fun r => negb (Z.eqb (custom_id r) ruleId)) rules = rules.
Proof.
  induction 1 as [|r rest Hr _ IH]; [reflexivity |].
  cbn [List.filter]. apply Z.eqb_neq in Hr. rewrite Hr. cbn [negb]. now rewrite IH.
Qed.

(** X6.  Removing a rule just added, by the id the clock gave it, restores
    the user rules and the batch, provided no earlier rule carries that
    id. *)
Theorem removeCustomRule_undoes_add
    (idNow createdNow : Z) (st : EngineState) (rule : NewRule) :
  new_id rule = None ->
  Forall (fun r => custom_id r <> idNow) (customRules st) ->
  let '(st1, _, newRule) := addCustomRule idNow createdNow st rule in
  let (st2, _) := removeCustomRule st1 (custom_id newRule) in
  customRules st2 = customRules st
  /\ compiledRules st2 = compileBatch (filterLists st) (customRules st).
Proof.
  intros Hid Hfresh.
  unfold addCustomRule, removeCustomRule, storeAndCompile, compileRules, withCustomRules.
  cbn [customRules filterLists compiledRules custom_id]. rewrite Hid.
  rewrite List.filter_app, (filter_other_ids _ _ Hfresh).
  cbn [List.filter custom_id]. rewrite Z.eqb_refl. cbn [negb].
  rewrite app_nil_r. split; reflexivity.
Qed.

Lemma removeCustomRule_undoes_add_witness :
  let '(st1, _, newRule) :=
    addCustomRule 1700000000000 1700000000001 compiledState
      (mkNewRule None "||ads.example^" "block" None) in
  let (st2, _) := removeCustomRule st1 (custom_id newRule) in
  customRules st2 = customRules compiledState
  /\ compiledRules st2
     = compileBatch (filterLists compiledState) (customRules compiledState).
Proof.
  exact (removeCustomRule_undoes_add 1700000000000 1700000000001 compiledState
           (mkNewRule None "||ads.example^" "block" None) eq_refl (List.Forall_nil _)).
Defined.

(** X7.  The id of a user rule is the clock reading, so two rules added
    at the same reading share it, and removing by that id removes both. *)
Theorem removeCustomRule_removes_twins
    (idNow created1 created2 : Z) (st : EngineState) (first second : NewRule) :
  new_id first = None ->
  new_id second = None ->
  let '(st1, _, rule1) := addCustomRule idNow created1 st first in
  let '(st2, _, rule2) := addCustomRule idNow created2 st1 second in
  let (st3, _) := removeCustomRule st2 (custom_id rule1) in
  custom_id rule1 = custom_id rule2
  /\ customRules st3
     = List.filter (fun r => negb (Z.eqb (custom_id r) idNow)) (customRules st)
  /\ ~ In rule2 (customRules st3).
Proof.
  intros H1 H2.
  unfold addCustomRule, removeCustomRule, storeAndCompile, compileRules, withCustomRules.
  cbn [customRules filterLists compiledRules custom_id]. rewrite H1, H2.
  rewrite !List.filter_app. cbn [List.filter custom_id]. rewrite Z.eqb_refl. cbn [negb].
  rewrite !app_nil_r. repeat split.
  intros Hin. apply filter_In in Hin as [_ Hne].
  cbn [custom_id] in Hne. now rewrite Z.eqb_refl in Hne.
Qed.

Lemma removeCustomRule_removes_twins_witness :
  let '(st1, _, rule1) :=
    addCustomRule 1700000000000 1700000000000 compiledState
      (mkNewRule None "||ads.example^" "block" None) in
  let '(st2, _, rule2) :=
    addCustomRule 1700000000000 1700000000000 st1
      (mkNewRule None "||good.example^" "allow" None) in
  let (st3, _) := removeCustomRule st2 (custom_id rule1) in
  customRules st3 = [].
Proof.
  exact (proj1 (proj2 (removeCustomRule_removes_twins 1700000000000 1700000000000
                         1700000000000 compiledState
                         (mkNewRule None "||ads.example^" "block" None)
                         (mkNewRule None "||good.example^" "allow" None)
                         eq_refl eq_refl))).
Defined.

End UserRules.

(** ** Lists: toggling, updating and the cache *)

Section ListUpdates.

Import FilterEngineOps.

Variable fetchText : string -> option string.
Variable now : Z.

Lemma getSource_own (st : EngineState) (id : string) (source : Source) :
  sources st !! id = Some source -> getSource (sources st) id = OwnSource source.
Proof. intros H. unfold getSource. now rewrite H. Qed.

(** X8.  Disabling a configured list changes its [enabled] flag and
    nothing else: the cached rules of the list stay, the batch is compiled
    from all cached lists, enabled or not, and is the batch there was. *)
Theorem disabling_keeps_compiled_rules (st : EngineState) (id : string) (source : Source) :
  sources st !! id = Some source ->
  compiledRules st = compileBatch (filterLists st) (customRules st) ->
  let (st', events) := toggleFilterList fetchText now st id false in
  sources st' = <[id := setEnabled source false]> (sources st)
  /\ filterLists st' = filterLists st
  /\ customRules st' = customRules st
  /\ compiledRules st' = compiledRules st
  /\ events = [DynamicRulesUpdated (compiledRules st)].
Proof.
  intros Hsrc Hsync. unfold toggleFilterList.
  rewrite (getSource_own st id source Hsrc). cbn [andb].
  unfold compileRules. cbn [sources filterLists customRules compiledRules app].
  rewrite <- Hsync. repeat split.
Qed.

Lemma assoc_not_has (id : string) (lists : list (string * FilterData)) :
  mapHas id lists = false <-> ~ In id (map fst lists).
Proof.
  unfold mapHas. induction lists as [|[k v] rest IH]; cbn [existsb map fst In].
  - split; [intros _ [] | reflexivity].
  - rewrite orb_false_iff, IH, String.eqb_neq. split.
    + intros [Hne Hrest] [Heq | Hin]; [now apply Hne | now apply Hrest].
    + intros H. split; [intros Heq; apply H; now left | intros Hin; apply H; now right].
Qed.

Lemma mapSet_keys (id : string) (data : FilterData) (lists : list (string * FilterData)) :
  map fst (mapSet id data lists)
  = if mapHas id lists then map fst lists else map fst lists ++ [id].
Proof.
  unfold mapSet. destruct (mapHas id lists).
  - rewrite map_map. apply map_ext. intros [k v]. cbn [fst].
    destruct (String.eqb_spec id k) as [-> | _]; reflexivity.
  - now rewrite map_app.
Qed.

Lemma mapSet_NoDup (id : string) (data : FilterData) (lists : list (string * FilterData)) :
  List.NoDup (map fst lists) -> List.NoDup (map fst (mapSet id data lists)).
Proof.
  intros Hnd. rewrite mapSet_keys. destruct (mapHas id lists) eqn:Hhas; [exact Hnd |].
  apply assoc_not_has in Hhas.
  apply List.NoDup_app; [exact Hnd | repeat constructor; intros [] |].
  intros k Hk [<- | []]. contradiction.
Qed.

Lemma assoc_replaced (id other : string) (data : FilterData)
    (lists : list (string * FilterData)) :
  assoc other
    (map (fun entry => if String.eqb id (fst entry) then (id, data) else entry) lists)
  = if String.eqb other id
    then (if mapHas id lists then Some data else None)
    else assoc other lists.
Proof.
  unfold mapHas. induction lists as [|[k v] rest IH].
  - cbn [map assoc existsb]. now destruct (String.eqb other id).
  - cbn [map fst assoc existsb].
    destruct (String.eqb_spec id k) as [<- | Hne]; cbn [assoc orb].
    + rewrite IH. destruct (String.eqb other id); reflexivity.
    + rewrite IH. destruct (String.eqb_spec other k) as [-> | _]; [| reflexivity].
      apply not_eq_sym, String.eqb_neq in Hne. now rewrite Hne.
Qed.

Lemma assoc_appended (id other : string) (data : FilterData)
    (lists : list (string * FilterData)) :
  mapHas id lists = false ->
  assoc other (lists ++ [(id, data)])
  = if String.eqb other id then Some data else assoc other lists.
Proof.
  unfold mapHas. induction lists as [|[k v] rest IH]; intros Hhas.
  - reflexivity.
  - cbn [existsb fst] in Hhas. apply orb_false_iff in Hhas as [Hk Hrest].
    cbn [app assoc]. rewrite (IH Hrest).
    destruct (String.eqb_spec other k) as [-> | _]; [| reflexivity].
    rewrite String.eqb_sym in Hk. now rewrite Hk.
Qed.

Lemma mapGet_mapSet (id other : string) (data : FilterData)
    (lists : list (string * FilterData)) :
  mapGet other (mapSet id data lists)
  = if String.eqb other id then Some data else mapGet other lists.
Proof.
  unfold mapGet, mapSet. destruct (mapHas id lists) eqn:Hhas.
  - rewrite assoc_replaced, Hhas. reflexivity.
  - now apply assoc_appended.
Qed.

(** X9.  [updateFilterList] for a configured list: when the fetch fails
    the engine is left as it was, cache included; when it succeeds the
    list's entry holds the rules parsed from the fetched text, every other
    entry is what it was, no key is duplicated, and the batch is not
    recompiled. *)
Theorem updateFilterList_result (st : EngineState) (id : string) (source : Source) :
  sources st !! id = Some source ->
  List.NoDup (map fst (filterLists st)) ->
  match fetchText (src_url source) with
  | None => updateFilterList fetchText now st id = (st, [Fetched (src_url source)])
  | Some text =>
      let (st', events) := updateFilterList fetchText now st id in
      (forall other,
         mapGet other (filterLists st')
         = if String.eqb other id then Some (fetchedData now id source text)
           else mapGet other (filterLists st))
      /\ List.NoDup (map fst (filterLists st'))
      /\ compiledRules st' = compiledRules st
      /\ sources st' = sources st
      /\ events = [Fetched (src_url source); CachedFilterList id]
  end.
Proof.
  intros Hsrc Hnd. unfold updateFilterList.
  rewrite (getSource_own st id source Hsrc). unfold fetchAndStore.
  destruct (fetchText (src_url source)) as [text|]; [| reflexivity].
  cbn [filterLists compiledRules sources].
  fold (formatOf source). fold (fetchedData now id source text).
  split; [intros other; apply mapGet_mapSet |].
  split; [now apply mapSet_NoDup |]. repeat split.
Qed.

End ListUpdates.

Lemma disabling_keeps_compiled_rules_witness :
  let (st', events) :=
    toggleFilterList (fun _ => None) 0 compiledState "easylist" false in
  filterLists st' = filterLists compiledState
  /\ compiledRules st' = compiledRules compiledState.
Proof.
  pose proof (disabling_keeps_compiled_rules (fun _ => None) 0 compiledState "easylist"
                (mkSource "EasyList" "https://easylist.to/easylist/easylist.txt" true "ads" None)
                eq_refl eq_refl) as H.
  destruct (toggleFilterList (fun _ => None) 0 compiledState "easylist" false) as [st' events].
  destruct H as (_ & H1 & _ & H2 & _). split; assumption.
Defined.

Lemma updateFilterList_result_witness :
  let (st', events) :=
    updateFilterList (fun _ => Some "||ads.example/banner") 7 compiledState "easylist" in
  mapGet "easylist" (filterLists st')
  = Some (fetchedData 7 "easylist"
            (mkSource "EasyList" "https://easylist.to/easylist/easylist.txt" true "ads" None)
            "||ads.example/banner").
Proof.
  pose proof (updateFilterList_result (fun _ => Some "||ads.example/banner") 7
                compiledState "easylist"
                (mkSource "EasyList" "https://easylist.to/easylist/easylist.txt" true "ads" None)
                eq_refl) as H.
  cbv beta iota in H.
  destruct (updateFilterList (fun _ => Some "||ads.example/banner") 7 compiledState "easylist")
    as [st' events].
  refine (proj1 (H _) "easylist").
  repeat constructor. intros [].
Defined.

Section CacheLoading.

Import FilterEngineOps.

Lemma load_entries (cache lists : list (string * FilterData)) :
  List.NoDup (map fst (lists ++ cache)) ->
  fold_left (fun lists entry => mapSet (fst entry) (snd entry) lists) cache lists
  = lists ++ cache.
Proof.
  revert lists. induction cache as [|[k v] rest IH]; intros lists Hnd.
  - cbn [fold_left]. now rewrite app_nil_r.
  - cbn [fold_left fst snd].
    assert (Hhas : mapHas k lists = false).
    { apply assoc_not_has. rewrite map_app in Hnd. cbn [map fst] in Hnd.
      apply NoDup_remove_2 in Hnd. intros Hin. apply Hnd, in_or_app. now left. }
    unfold mapSet at 2. rewrite Hhas.
    rewrite IH; rewrite <- app_assoc; [reflexivity | exact Hnd].
Qed.

(** X10.  Loading a cache whose keys are distinct into an engine that holds
    no list yet gives exactly the cached entries, in the order of the
    cache. *)
Theorem loadCachedFilters_restores (st : EngineState) (filterCache : list (string * FilterData)) :
  filterLists st = [] ->
  List.NoDup (map fst filterCache) ->
  filterLists (loadCachedFilters st filterCache) = filterCache.
Proof.
  intros Hempty Hnd. unfold loadCachedFilters. cbn [filterLists].
  rewrite Hempty. now apply (load_entries filterCache []).
Qed.

Lemma loadCachedFilters_restores_witness :
  filterLists
    (loadCachedFilters initialState
       [cachedList "easylist" "ads" [NetworkBlock "ads" "ads" None];
        cachedList "stevenblack" "unified" []])
  = [cachedList "easylist" "ads" [NetworkBlock "ads" "ads" None];
     cachedList "stevenblack" "unified" []].
Proof.
  apply (loadCachedFilters_restores initialState); [reflexivity |].
  repeat constructor; cbn; intuition discriminate.
Defined.

End CacheLoading.

Section DynamicRuleStore.

Import FilterEngineOps RuleManager RuleManagerOps.

Lemma filter_none {A : Type} (f : A -> bool) (l : list A) :
  (forall x, In x l -> f x = false) -> List.filter f l = [].
Proof.
  induction l as [|x l IH]; intros H; [reflexivity |].
  cbn [List.filter]. rewrite (H x (or_introl eq_refl)).
  apply IH. intros y Hy. apply H. now right.
Qed.

Lemma filter_all {A : Type} (f : A -> bool) (l : list A) :
  (forall x, In x l -> f x = true) -> List.filter f l = l.
Proof.
  induction l as [|x l IH]; intros H; [reflexivity |].
  cbn [List.filter]. rewrite (H x (or_introl eq_refl)). f_equal.
  apply IH. intros y Hy. apply H. now right.
Qed.

Lemma filter_nil_inv {A : Type} (f : A -> bool) (l : list A) :
  List.filter f l = [] -> forall x, In x l -> f x = false.
Proof.
  intros H x Hx. destruct (f x) eqn:Hfx; [| reflexivity].
  assert (Hin : In x (List.filter f l)) by (apply List.filter_In; now split).
  rewrite H in Hin. destruct Hin.
Qed.

Lemma removeRuleIds_nil (store : list DNRRule) :
  DynamicRules.removeRuleIds [] store = store.
Proof. unfold DynamicRules.removeRuleIds. apply filter_all. reflexivity. Qed.

Lemma removeRuleIds_all (store : list DNRRule) :
  DynamicRules.removeRuleIds (map dnr_id store) store = [].
Proof.
  unfold DynamicRules.removeRuleIds. apply filter_none. intros r Hr.
  apply negb_false_iff, List.existsb_exists. exists (dnr_id r).
  split; [now apply List.in_map | apply Z.eqb_refl].
Qed.

Lemma removeRuleIds_range (range : RuleRange) (store : list DNRRule) :
  DynamicRules.removeRuleIds (idsInRange range store) store
  = List.filter (outside range) store.
Proof.
  unfold DynamicRules.removeRuleIds, idsInRange, outside.
  apply List.filter_ext_in. intros r Hr. f_equal.
  destruct (inRange range (dnr_id r)) eqn:Hin.
  - apply List.existsb_exists. exists (dnr_id r). split; [| apply Z.eqb_refl].
    apply List.in_map, List.filter_In. now split.
  - destruct (existsb _ _) eqn:Hex; [| reflexivity].
    apply List.existsb_exists in Hex as (i & Hi & Heq).
    apply Z.eqb_eq in Heq. subst i.
    apply List.in_map_iff in Hi as (r' & Hid & Hr').
    apply List.filter_In in Hr' as [_ Hr']. rewrite Hid in Hr'. congruence.
Qed.

Lemma slicesOf_concat {A : Type} (size : nat) :
  0 < size ->
  forall (fuel : nat) (rules : list A),
    length rules <= fuel -> concat (slicesOf fuel size rules) = rules.
Proof.
  intros Hsize. induction fuel as [|fuel IH]; intros rules Hlen.
  - destruct rules; [reflexivity | cbn [length] in Hlen; lia].
  - destruct rules as [|r rules]; [reflexivity |].
    cbn [slicesOf concat]. rewrite IH; [apply firstn_skipn |].
    rewrite List.length_skipn. cbn [length] in *. lia.
Qed.

Lemma slicesOf_sizes {A : Type} (size : nat) :
  0 < size ->
  forall (fuel : nat) (rules : list A),
    Forall (fun batch => batch <> [] /\ length batch <= size) (slicesOf fuel size rules).
Proof.
  intros Hsize. induction fuel as [|fuel IH]; intros rules; [constructor |].
  destruct rules as [|r rules]; [constructor |].
  cbn [slicesOf]. constructor; [| apply IH].
  split; [| apply firstn_le_length].
  destruct size; [lia | discriminate].
Qed.

Lemma batchSize_positive : 0 < batchSize.
Proof. unfold batchSize. lia. Qed.

Lemma batches_concat (rules : list DNRRule) : concat (batches rules) = rules.
Proof. apply slicesOf_concat; [apply batchSize_positive | reflexivity]. Qed.

(** X11.  The batches [updateDynamicRules] adds are the rules, in order,
    none lost and none repeated; no batch is empty, and none is longer
    than 5000 rules. *)
Theorem batches_cover (rules : list DNRRule) :
  concat (batches rules) = rules
  /\ Forall (fun batch => batch <> [] /\ length batch <= batchSize) (batches rules).
Proof.
  split.
  - apply batches_concat.
  - apply slicesOf_sizes, batchSize_positive.
Qed.

Lemma addBatches_prefix (accepts : list DNRRule -> list Z -> list DNRRule -> bool)
    (size : nat) :
  forall (fuel : nat) (store rules : list DNRRule),
    exists k : nat,
      addBatches accepts store (slicesOf fuel size rules)
      = store ++ firstn (k * size) rules.
Proof.
  induction fuel as [|fuel IH]; intros store rules.
  - exists 0. cbn [slicesOf addBatches Nat.mul firstn]. now rewrite app_nil_r.
  - destruct rules as [|r rules].
    + exists 0. cbn [slicesOf addBatches Nat.mul firstn]. now rewrite app_nil_r.
    + cbn [slicesOf addBatches]. unfold DynamicRules.update.
      destruct (accepts store [] (firstn size (r :: rules))).
      * rewrite removeRuleIds_nil.
        destruct (IH (store ++ firstn size (r :: rules)) (skipn size (r :: rules)))
          as [k Hk].
        exists (S k). rewrite Hk, <- app_assoc. f_equal.
        cbn [Nat.mul]. apply take_take_drop.
      * exists 0. cbn [Nat.mul firstn]. now rewrite app_nil_r.
Qed.

Lemma addBatches_accepting (accepts : list DNRRule -> list Z -> list DNRRule -> bool) :
  (forall store ids rules, accepts store ids rules = true) ->
  forall (todo : list (list DNRRule)) (store : list DNRRule),
    addBatches accepts store todo = store ++ concat todo.
Proof.
  intros Hall. induction todo as [|batch todo IH]; intros store.
  - cbn [addBatches concat]. now rewrite app_nil_r.
  - cbn [addBatches concat]. unfold DynamicRules.update.
    rewrite Hall, removeRuleIds_nil, IH. now rewrite <- app_assoc.
Qed.

Lemma updateDynamicRules_accepting
    (accepts : list DNRRule -> list Z -> list DNRRule -> bool)
    (store rules : list DNRRule) :
  (forall store ids rules, accepts store ids rules = true) ->
  updateDynamicRules accepts store rules = rules.
Proof.
  intros Hall. unfold updateDynamicRules.
  destruct store as [|r store].
  - cbn [map]. rewrite (addBatches_accepting accepts Hall).
    apply batches_concat.
  - cbn [map]. change (dnr_id r :: map dnr_id store) with (map dnr_id (r :: store)).
    unfold DynamicRules.update. rewrite Hall, removeRuleIds_all.
    rewrite (addBatches_accepting accepts Hall).
    apply batches_concat.
Qed.

(** X12.  Whatever the backend refuses, [updateDynamicRules] leaves it
    either with the rules it had (the removal was refused) or with a
    prefix of the new rules made of whole batches: old and new rules are
    never mixed. *)
Theorem updateDynamicRules_old_or_prefix
    (accepts : list DNRRule -> list Z -> list DNRRule -> bool)
    (store rules : list DNRRule) :
  updateDynamicRules accepts store rules = store
  \/ exists k : nat,
       updateDynamicRules accepts store rules = firstn (k * batchSize) rules.
Proof.
  unfold updateDynamicRules. destruct store as [|r store].
  - right. cbn [map]. apply (addBatches_prefix accepts batchSize).
  - cbn [map]. change (dnr_id r :: map dnr_id store) with (map dnr_id (r :: store)).
    unfold DynamicRules.update.
    destruct (accepts (r :: store) (map dnr_id (r :: store)) []); [| now left].
    right. rewrite removeRuleIds_all.
    apply (addBatches_prefix accepts batchSize).
Qed.

(** X13.  When the backend carries out every call, the dynamic rules
    after a recompilation are exactly the compiled batch: whatever the
    backend held before is gone, the allow rules of the whitelist and the
    block rules of the blacklist included. *)
Theorem recompiling_drops_manager_rules
    (accepts : list DNRRule -> list Z -> list DNRRule -> bool)
    (st : EngineState) (store : list DNRRule) (whitelist blacklist : list string) :
  (forall store ids rules, accepts store ids rules = true) ->
  let store' :=
    afterEvents accepts
      (applyBlacklistRules accepts (applyWhitelistRules accepts store whitelist) blacklist)
      (snd (compileRules st)) in
  store' = compiledRules (fst (compileRules st))
  /\ (forall r, In r (whitelistRules whitelist) -> ~ In r store')
  /\ (forall r, In r (blacklistRules blacklist) -> ~ In r store').
Proof.
  intros Hall store'. unfold compileRules in store'. cbn [snd afterEvents] in store'.
  assert (Hstore : store' = compileBatch (filterLists st) (customRules st)).
  { apply updateDynamicRules_accepting, Hall. }
  assert (Hprio : forall r, In r store' -> (dnr_priority r <= 3)%Z).
  { intros r Hr. rewrite Hstore in Hr.
    pose proof (compileBatch_priorities (filterLists st) (customRules st)) as Hp.
    rewrite List.Forall_forall in Hp. apply (Hp r Hr). }
  split; [exact Hstore |]. split; intros r Hr Hin; apply Hprio in Hin.
  - assert (Hten : forall wl i r, In r (whitelistRulesFrom wl i) -> dnr_priority r = 10%Z).
    { induction wl as [|d wl IH]; intros i r0 [].
      - now subst r0.
      - destruct H as [<- | H]; [reflexivity | now apply (IH (i + 2)%Z)]. }
    rewrite (Hten _ _ _ Hr) in Hin. lia.
  - assert (Hfive : forall bl i r, In r (blacklistRulesFrom bl i) -> dnr_priority r = 5%Z).
    { induction bl as [|d bl IH]; intros i r0 [].
      - now subst r0.
      - now apply (IH (i + 1)%Z). }
    rewrite (Hfive _ _ _ Hr) in Hin. lia.
Qed.

Lemma recompiling_drops_manager_rules_witness :
  afterEvents (fun _ _ _ => true)
    (applyBlacklistRules (fun _ _ _ => true)
       (applyWhitelistRules (fun _ _ _ => true) [] ["shop.example"]) ["shop.example"])
    (snd (compileRules compiledState))
  = compiledRules (fst (compileRules compiledState)).
Proof.
  exact (proj1 (recompiling_drops_manager_rules (fun _ _ _ => true) compiledState []
                  ["shop.example"] ["shop.example"] (fun _ _ _ => eq_refl))).
Defined.

Lemma whitelistRulesFrom_ids (whitelist : list string) (ruleId : Z) :
  map dnr_id (whitelistRulesFrom whitelist ruleId)
  = countFrom ruleId (2 * length whitelist).
Proof.
  revert ruleId. induction whitelist as [|d whitelist IH]; intros ruleId; [reflexivity |].
  replace (2 * length (d :: whitelist)) with (S (S (2 * length whitelist)))
    by (cbn [length]; lia).
  cbn [whitelistRulesFrom map dnr_id countFrom]. rewrite IH.
  do 3 f_equal. lia.
Qed.

Lemma blacklistRulesFrom_ids (blacklist : list string) (ruleId : Z) :
  map dnr_id (blacklistRulesFrom blacklist ruleId) = countFrom ruleId (length blacklist).
Proof.
  revert ruleId. induction blacklist as [|d blacklist IH]; intros ruleId; [reflexivity |].
  cbn [blacklistRulesFrom map dnr_id countFrom length]. now rewrite IH.
Qed.

Lemma countFrom_In (start : Z) (n : nat) (i : Z) :
  In i (countFrom start n) <-> (start <= i < start + Z.of_nat n)%Z.
Proof.
  revert start. induction n as [|n IH]; intros start; cbn [countFrom In].
  - lia.
  - rewrite IH. lia.
Qed.

Lemma inRange_spec (range : RuleRange) (i : Z) :
  inRange range i = true <-> (range_start range <= i < range_end range)%Z.
Proof. unfold inRange. rewrite andb_true_iff, Z.leb_le, Z.ltb_lt. reflexivity. Qed.

Lemma idsInRange_all (range : RuleRange) (rules : list DNRRule) :
  idsInRange range rules = map dnr_id rules
  <-> (forall r, In r rules -> inRange range (dnr_id r) = true).
Proof.
  unfold idsInRange. split.
  - intros Heq r Hr.
    assert (Hin : In (dnr_id r) (map dnr_id rules)) by now apply List.in_map.
    rewrite <- Heq in Hin. apply List.in_map_iff in Hin as (r' & Hid & Hr').
    apply List.filter_In in Hr' as [_ Hr']. now rewrite Hid in Hr'.
  - intros Hall. now rewrite filter_all.
Qed.

Lemma whitelist_in_range (whitelist : list string) :
  (forall r, In r (whitelistRules whitelist) -> inRange whitelistRange (dnr_id r) = true)
  <-> (Z.of_nat (length whitelist) < 5000)%Z.
Proof.
  pose proof (whitelistRulesFrom_ids whitelist 50000) as Hids. split.
  - intros Hall. destruct (Z_lt_ge_dec (Z.of_nat (length whitelist)) 5000) as [|Hge];
      [assumption | exfalso].
    assert (Hin : In 59999%Z (map dnr_id (whitelistRules whitelist))).
    { unfold whitelistRules. rewrite Hids. apply countFrom_In. lia. }
    apply List.in_map_iff in Hin as (r & Hid & Hr).
    apply Hall, inRange_spec in Hr. rewrite Hid in Hr.
    cbn [whitelistRange range_start range_end] in Hr. lia.
  - intros Hlt r Hr. apply inRange_spec. cbn [whitelistRange range_start range_end].
    assert (Hin : In (dnr_id r) (map dnr_id (whitelistRules whitelist)))
      by now apply List.in_map.
    unfold whitelistRules in Hin. rewrite Hids in Hin. apply countFrom_In in Hin. lia.
Qed.

(** X14.  The whitelist rules take the ids 50000, 50001, ..., two for
    each domain, and the test by which [applyWhitelistRules] finds its own
    rules again ([id >= 50000 && id < 59999]) finds all of them exactly
    when the whitelist has fewer than 5000 domains. *)
Theorem whitelist_ids_found_again (whitelist : list string) :
  map dnr_id (whitelistRules whitelist) = countFrom 50000 (2 * length whitelist)
  /\ (idsInRange whitelistRange (whitelistRules whitelist)
      = map dnr_id (whitelistRules whitelist)
      <-> (Z.of_nat (length whitelist) < 5000)%Z).
Proof.
  split; [apply whitelistRulesFrom_ids |].
  rewrite idsInRange_all. apply whitelist_in_range.
Qed.

Lemma blacklist_in_range (blacklist : list string) :
  (forall r, In r (blacklistRules blacklist) -> inRange blacklistRange (dnr_id r) = true)
  <-> (Z.of_nat (length blacklist) < 10000)%Z.
Proof.
  pose proof (blacklistRulesFrom_ids blacklist 60000) as Hids. split.
  - intros Hall. destruct (Z_lt_ge_dec (Z.of_nat (length blacklist)) 10000) as [|Hge];
      [assumption | exfalso].
    assert (Hin : In 69999%Z (map dnr_id (blacklistRules blacklist))).
    { unfold blacklistRules. rewrite Hids. apply countFrom_In. lia. }
    apply List.in_map_iff in Hin as (r & Hid & Hr).
    apply Hall, inRange_spec in Hr. rewrite Hid in Hr.
    cbn [blacklistRange range_start range_end] in Hr. lia.
  - intros Hlt r Hr. apply inRange_spec. cbn [blacklistRange range_start range_end].
    assert (Hin : In (dnr_id r) (map dnr_id (blacklistRules blacklist)))
      by now apply List.in_map.
    unfold blacklistRules in Hin. rewrite Hids in Hin. apply countFrom_In in Hin. lia.
Qed.

(** X15.  The blacklist rules take the ids 60000, 60001, ..., one for
    each domain, and [applyBlacklistRules] finds all of them again exactly
    when the blacklist has fewer than 10000 domains. *)
Theorem blacklist_ids_found_again (blacklist : list string) :
  map dnr_id (blacklistRules blacklist) = countFrom 60000 (length blacklist)
  /\ (idsInRange blacklistRange (blacklistRules blacklist)
      = map dnr_id (blacklistRules blacklist)
      <-> (Z.of_nat (length blacklist) < 10000)%Z).
Proof.
  split; [apply blacklistRulesFrom_ids |].
  rewrite idsInRange_all. apply blacklist_in_range.
Qed.

Lemma filter_outside_idem (range : RuleRange) (store : list DNRRule) :
  List.filter (outside range) (List.filter (outside range) store)
  = List.filter (outside range) store.
Proof.
  apply filter_all. intros r Hr. now apply List.filter_In in Hr as [_ Hr].
Qed.

Lemma replaceRange_frame (accepts : list DNRRule -> list Z -> list DNRRule -> bool)
    (range : RuleRange) (rules store : list DNRRule) :
  (forall r, In r rules -> inRange range (dnr_id r) = true) ->
  List.filter (outside range) (replaceRange accepts range rules store)
  = List.filter (outside range) store.
Proof.
  intros Hin. unfold replaceRange.
  assert (Hadd : forall store',
             List.filter (outside range) store' = List.filter (outside range) store ->
             List.filter (outside range)
               match rules with
               | [] => store'
               | _ :: _ =>
                   match DynamicRules.update accepts store' [] rules with
                   | Some store'' => store''
                   | None => store'
                   end
               end
             = List.filter (outside range) store).
  { intros store' Hsame. destruct rules as [|r rules]; [exact Hsame |].
    unfold DynamicRules.update. destruct (accepts store' [] (r :: rules)); [| exact Hsame].
    rewrite removeRuleIds_nil, List.filter_app, Hsame.
    rewrite (filter_none (outside range) (r :: rules)); [apply app_nil_r |].
    intros x Hx. unfold outside. now rewrite (Hin x Hx). }
  cbv zeta. destruct (idsInRange range store) as [|i ids] eqn:Hids.
  - now apply Hadd.
  - unfold DynamicRules.update at 1.
    destruct (accepts store (i :: ids) []); [| reflexivity].
    apply Hadd. rewrite <- Hids, removeRuleIds_range, app_nil_r.
    apply filter_outside_idem.
Qed.

(** X16.  [applyWhitelistRules] with fewer than 5000 domains and
    [applyBlacklistRules] with fewer than 10000 touch no rule outside their
    own range, whichever calls the backend refuses: the rules with other
    ids are afterwards what they were, in the same order. *)
Theorem manager_lists_keep_other_rules
    (accepts : list DNRRule -> list Z -> list DNRRule -> bool)
    (store : list DNRRule) (whitelist blacklist : list string) :
  (Z.of_nat (length whitelist) < 5000)%Z ->
  (Z.of_nat (length blacklist) < 10000)%Z ->
  List.filter (outside whitelistRange) (applyWhitelistRules accepts store whitelist)
  = List.filter (outside whitelistRange) store
  /\ List.filter (outside blacklistRange) (applyBlacklistRules accepts store blacklist)
     = List.filter (outside blacklistRange) store.
Proof.
  intros Hw Hb. split.
  - apply replaceRange_frame.
    now apply whitelist_in_range.
  - apply replaceRange_frame.
    now apply blacklist_in_range.
Qed.

Lemma manager_lists_keep_other_rules_witness :
  List.filter (outside whitelistRange)
    (applyWhitelistRules (fun _ _ _ => false) [compileToDNR "ads" None 100000]
       ["shop.example"])
  = List.filter (outside whitelistRange) [compileToDNR "ads" None 100000].
Proof.
  refine (proj1 (manager_lists_keep_other_rules (fun _ _ _ => false)
                   [compileToDNR "ads" None 100000] ["shop.example"] ["ads.example"] _ _));
    cbn [length]; lia.
Defined.

Lemma idsInRange_nil (range : RuleRange) (store : list DNRRule) :
  idsInRange range store = [] -> List.filter (outside range) store = store.
Proof.
  unfold idsInRange. intros Hnil. apply map_eq_nil in Hnil.
  apply filter_all. intros r Hr. unfold outside.
  now rewrite (filter_nil_inv _ _ Hnil r Hr).
Qed.

Lemma replaceRange_accepting (accepts : list DNRRule -> list Z -> list DNRRule -> bool)
    (range : RuleRange) (rules store : list DNRRule) :
  (forall store ids rules, accepts store ids rules = true) ->
  replaceRange accepts range rules store = List.filter (outside range) store ++ rules.
Proof.
  intros Hall. unfold replaceRange. cbv zeta.
  assert (Hadd : forall store',
             match rules with
             | [] => store'
             | _ :: _ =>
                 match DynamicRules.update accepts store' [] rules with
                 | Some store'' => store''
                 | None => store'
                 end
             end = store' ++ rules).
  { intros store'. destruct rules as [|r rules]; [now rewrite app_nil_r |].
    unfold DynamicRules.update. now rewrite Hall, removeRuleIds_nil. }
  destruct (idsInRange range store) as [|i ids] eqn:Hids.
  - rewrite Hadd. now rewrite (idsInRange_nil range store Hids).
  - unfold DynamicRules.update at 1. rewrite Hall, Hadd.
    now rewrite <- Hids, removeRuleIds_range, app_nil_r.
Qed.

(** X17.  With a backend that carries out every call, updating the
    whitelist replaces the rules of a previous whitelist of fewer than
    5000 domains: the backend ends as if the previous whitelist had never
    been applied. *)
Theorem whitelist_update_replaces_previous
    (accepts : list DNRRule -> list Z -> list DNRRule -> bool)
    (store : list DNRRule) (previous whitelist : list string) :
  (forall store ids rules, accepts store ids rules = true) ->
  (Z.of_nat (length previous) < 5000)%Z ->
  applyWhitelistRules accepts (applyWhitelistRules accepts store previous) whitelist
  = applyWhitelistRules accepts store whitelist.
Proof.
  intros Hall Hlt. unfold applyWhitelistRules.
  rewrite !(replaceRange_accepting accepts _ _ _ Hall).
  rewrite List.filter_app, filter_outside_idem.
  rewrite (filter_none (outside whitelistRange) (whitelistRules previous));
    [now rewrite app_nil_r |].
  intros r Hr. unfold outside.
  now rewrite (proj2 (whitelist_in_range previous) Hlt r Hr).
Qed.

Lemma whitelist_update_replaces_previous_witness :
  applyWhitelistRules (fun _ _ _ => true)
    (applyWhitelistRules (fun _ _ _ => true) [] ["shop.example"]) ["news.example"]
  = applyWhitelistRules (fun _ _ _ => true) [] ["news.example"].
Proof.
  apply (whitelist_update_replaces_previous (fun _ _ _ => true) []
           ["shop.example"] ["news.example"] (fun _ _ _ => eq_refl)).
  cbn [length]. lia.
Defined.

Lemma replaceRange_keeps (accepts : list DNRRule -> list Z -> list DNRRule -> bool)
    (range : RuleRange) (rules store : list DNRRule) (r : DNRRule) :
  In r store -> outside range r = true ->
  In r (replaceRange accepts range rules store).
Proof.
  intros Hr Hout. unfold replaceRange. cbv zeta.
  assert (Hadd : forall store', In r store' ->
             In r match rules with
                  | [] => store'
                  | _ :: _ =>
                      match DynamicRules.update accepts store' [] rules with
                      | Some store'' => store''
                      | None => store'
                      end
                  end).
  { intros store' Hin. destruct rules as [|x rules]; [exact Hin |].
    unfold DynamicRules.update. destruct (accepts store' [] (x :: rules)); [| exact Hin].
    rewrite removeRuleIds_nil. apply in_or_app. now left. }
  destruct (idsInRange range store) as [|i ids] eqn:Hids.
  - now apply Hadd.
  - unfold DynamicRules.update at 1.
    destruct (accepts store (i :: ids) []); [| exact Hr].
    apply Hadd. rewrite <- Hids, removeRuleIds_range, app_nil_r.
    apply List.filter_In. now split.
Qed.

(** X18.  A whitelist of 5000 domains or more leaves a rule behind for
    good: once it has been applied, the allow rule with id 59999 stays in
    the backend through every later update of the whitelist, an update to
    the empty whitelist included. *)
Theorem large_whitelist_leaves_stale_rule
    (accepts later : list DNRRule -> list Z -> list DNRRule -> bool)
    (store : list DNRRule) (previous : list string) :
  (forall store ids rules, accepts store ids rules = true) ->
  (5000 <= Z.of_nat (length previous))%Z ->
  exists r : DNRRule,
    In r (whitelistRules previous) /\ dnr_id r = 59999%Z /\ dnr_action r = allow
    /\ forall whitelist : list string,
         In r (applyWhitelistRules later
                 (applyWhitelistRules accepts store previous) whitelist).
Proof.
  intros Hall Hge.
  assert (Hin : In 59999%Z (map dnr_id (whitelistRules previous))).
  { unfold whitelistRules. rewrite whitelistRulesFrom_ids. apply countFrom_In. lia. }
  apply List.in_map_iff in Hin as (r & Hid & Hr). exists r.
  assert (Hallow : forall wl i x, In x (whitelistRulesFrom wl i) -> dnr_action x = allow).
  { induction wl as [|d wl IH]; intros i x [].
    - now subst x.
    - destruct H as [<- | H]; [reflexivity | now apply (IH (i + 2)%Z)]. }
  repeat split; [exact Hr | exact Hid | exact (Hallow _ _ _ Hr) |].
  intros whitelist. unfold applyWhitelistRules at 1. apply replaceRange_keeps.
  - unfold applyWhitelistRules. rewrite (replaceRange_accepting accepts _ _ _ Hall).
    apply in_or_app. now right.
  - unfold outside. rewrite Hid. reflexivity.
Qed.

Lemma manyDomains_length (n : nat) : length (manyDomains n) = n.
Proof. unfold manyDomains. now rewrite List.length_map, List.length_seq. Qed.

Lemma large_whitelist_leaves_stale_rule_witness :
  exists r : DNRRule,
    dnr_id r = 59999%Z
    /\ In r (applyWhitelistRules (fun _ _ _ => true)
               (applyWhitelistRules (fun _ _ _ => true) []
                  (manyDomains (Z.to_nat 5000))) []).
Proof.
  destruct (large_whitelist_leaves_stale_rule (fun _ _ _ => true) (fun _ _ _ => true) []
              (manyDomains (Z.to_nat 5000)) (fun _ _ _ => eq_refl))
    as (r & _ & Hid & _ & Hstays).
  - rewrite manyDomains_length. lia.
  - exists r. split; [exact Hid | apply Hstays].
Defined.

Lemma fold_max_spec (l : list Z) (a : Z) :
  (a <= fold_left Z.max l a)%Z
  /\ (forall x, In x l -> (x <= fold_left Z.max l a)%Z)
  /\ In (fold_left Z.max l a) (a :: l).
Proof.
  revert a. induction l as [|x l IH]; intros a; cbn [fold_left].
  - split; [lia |]. split; [intros x [] | now left].
  - destruct (IH (Z.max a x)) as (Hle & Hall & Hin). split; [lia |]. split.
    + intros y [<- | Hy]; [lia | now apply Hall].
    + destruct Hin as [Heq | Hin]; [| right; now right].
      rewrite <- Heq. destruct (Z.max_spec a x) as [[_ ->] | [_ ->]];
        [right; now left | now left].
Qed.

Lemma nextCustomId_fresh (store : list DNRRule) :
  (100000 <= nextCustomId store <= 199999)%Z
  /\ (forall r, In r store -> dnr_id r = nextCustomId store ->
                nextCustomId store = 199999%Z).
Proof.
  unfold nextCustomId.
  assert (Hids : forall i, In i (idsInRange customRange store) ->
                           (100000 <= i < 199999)%Z).
  { intros i Hi. unfold idsInRange in Hi.
    apply List.in_map_iff in Hi as (r & <- & Hr).
    apply List.filter_In in Hr as [_ Hr]. now apply inRange_spec in Hr. }
  assert (Hfound : forall r, In r store -> (100000 <= dnr_id r < 199999)%Z ->
                             In (dnr_id r) (idsInRange customRange store)).
  { intros r Hr Hin. unfold idsInRange. apply List.in_map, List.filter_In.
    split; [exact Hr | now apply inRange_spec]. }
  destruct (idsInRange customRange store) as [|first others].
  - cbn [customRange range_start]. split; [lia |].
    intros r Hr Hid. destruct (Hfound r Hr). lia.
  - destruct (fold_max_spec others first) as (Hle & Hall & Hin).
    pose proof (Hids _ Hin) as Hmax. split; [lia |].
    intros r Hr Hid.
    destruct (Z_lt_ge_dec (dnr_id r) 199999) as [Hlt | Hge]; [| lia].
    assert (Hr' : In (dnr_id r) (first :: others)) by (apply Hfound; [exact Hr | lia]).
    destruct Hr' as [Heq | Hother]; [lia |]. apply Hall in Hother. lia.
Qed.

(** X19.  The id [addCustomBlockRule] returns lies between 100000 and
    199999, the rule it has added carries it, and it is the id of no rule
    that was in the backend before, unless it is 199999. *)
Theorem addCustomBlockRule_fresh_id
    (accepts : list DNRRule -> list Z -> list DNRRule -> bool)
    (store store' : list DNRRule) (pattern : string) (options : BlockOptions) (id : Z) :
  addCustomBlockRule accepts store pattern options = (store', Some id) ->
  store' = store ++ [customBlockRule store pattern options]
  /\ dnr_id (customBlockRule store pattern options) = id
  /\ (100000 <= id <= 199999)%Z
  /\ (forall r, In r store -> dnr_id r = id -> id = 199999%Z).
Proof.
  unfold addCustomBlockRule, DynamicRules.update. cbv zeta.
  destruct (accepts store [] [customBlockRule store pattern options]); [| discriminate].
  rewrite removeRuleIds_nil. intros Heq. inversion Heq as [[Hstore Hid]].
  cbn [customBlockRule dnr_id].
  destruct (nextCustomId_fresh store) as [Hrange Hfresh].
  repeat split; try lia. exact Hfresh.
Qed.

Lemma addCustomBlockRule_fresh_id_witness :
  dnr_id (customBlockRule [compileToDNR "ads" None 100000] "tracker.example"
            (mkBlockOptions None None None None)) = 100001%Z.
Proof.
  refine (proj1 (proj2
            (addCustomBlockRule_fresh_id (fun _ _ _ => true)
               [compileToDNR "ads" None 100000] _ "tracker.example"
               (mkBlockOptions None None None None) 100001 eq_refl))).
Defined.

(** X20.  Whenever [enableRulesForLevel] makes its call, each of the four
    static rulesets is named in exactly one of the two arrays, and the
    arrays name nothing else. *)
Theorem enableRulesForLevel_splits_rulesets (level : string) (enable disable : list string) :
  enableRulesForLevel level = Some (enable, disable) ->
  List.forallb (fun ruleset => xorb (memb ruleset enable) (memb ruleset disable)) allRulesets
  = true
  /\ length enable + length disable = 4.
Proof.
  unfold enableRulesForLevel. destruct (levelConfig level) as [config|]; [| discriminate].
  destruct config as [[] [] [] [] malware firstParty cookies];
    intros Heq; inversion Heq; split; reflexivity.
Qed.

Lemma enableRulesForLevel_splits_rulesets_witness :
  length ["default_rules"; "mining_rules"] + length ["tracking_rules"; "social_rules"] = 4.
Proof.
  exact (proj2 (enableRulesForLevel_splits_rulesets "minimal"
                  ["default_rules"; "mining_rules"] ["tracking_rules"; "social_rules"]
                  eq_refl)).
Defined.

(** X21.  A level named like a member that every object inherits
    ([constructor], [toString], ...) passes the test of
    [enableRulesForLevel], and the call then disables all four rulesets. *)
Theorem enableRulesForLevel_inherited_name (level : string) :
  In level (map fst objectPrototypeMembers) ->
  enableRulesForLevel level = Some ([], allRulesets).
Proof.
  cbn [objectPrototypeMembers map fst In].
  intros H. repeat (destruct H as [<- | H]; [reflexivity |]). destruct H.
Qed.

Lemma enableRulesForLevel_inherited_name_witness :
  enableRulesForLevel "constructor" = Some ([], allRulesets).
Proof.
  apply enableRulesForLevel_inherited_name. cbn [objectPrototypeMembers map fst In].
  left. reflexivity.
Defined.

End DynamicRuleStore.


Section ParserCoverage.

(** X22.  Lists are parsed line by line: the rules of two texts joined by
    a line feed are the rules of the first followed by the rules of the
    second, in both formats. *)
Theorem parseFilterList_concatenates (a b format : string) :
  parseFilterList (a +:+ nl +:+ b) format
  = parseFilterList a format ++ parseFilterList b format.
Proof.
  rewrite !parseFilterList_lines.
  change (nl +:+ b) with (String LF b).
  now rewrite split_app_sep, flat_map_app.
Qed.

Lemma trimStart_all_blank (p : string) :
  JsString.forallb isWhiteSpace p = true -> trimStart p = "".
Proof.
  intros Hp. rewrite <- (append_nil_r p). now rewrite trimStart_blanks.
Qed.

Lemma trimEnd_blanks (a b : string) :
  JsString.forallb isWhiteSpace b = true -> trimEnd (a +:+ b) = trimEnd a.
Proof.
  intros Hb. unfold trimEnd. rewrite rev_append, trimStart_blanks; [reflexivity |].
  now rewrite forallb_rev.
Qed.

Lemma trim_padded (pad1 pad2 s : string) :
  JsString.forallb isWhiteSpace pad1 = true ->
  JsString.forallb isWhiteSpace pad2 = true ->
  trim (pad1 +:+ s +:+ pad2) = trim s.
Proof.
  intros H1 H2. unfold trim. rewrite (trimStart_blanks pad1 _ H1).
  induction s as [|c s IH].
  - rewrite append_nil_l, (trimStart_all_blank pad2 H2). reflexivity.
  - rewrite append_cons. cbn [trimStart]. destruct (isWhiteSpace c); [exact IH |].
    rewrite <- append_cons. now apply trimEnd_blanks.
Qed.

(** X23.  White space around a line does not change what the line
    contributes: indentation, trailing blanks and the carriage return of a
    CRLF line end are all stripped before the line is classified. *)
Theorem padding_ignored (pad1 pad2 line : string) (rules : list ParsedRule) :
  JsString.forallb isWhiteSpace pad1 = true ->
  JsString.forallb isWhiteSpace pad2 = true ->
  parseAdblockLine rules (pad1 +:+ line +:+ pad2) = parseAdblockLine rules line
  /\ parseHostsLine rules (pad1 +:+ line +:+ pad2) = parseHostsLine rules line.
Proof.
  intros H1 H2. unfold parseAdblockLine, parseHostsLine.
  now rewrite (trim_padded pad1 pad2 line H1 H2).
Qed.

Lemma padding_ignored_witness :
  parseAdblockLine [] ("  " +:+ "ads.example/banner" +:+ String "013" "")
  = parseAdblockLine [] "ads.example/banner".
Proof.
  exact (proj1 (padding_ignored "  " (String "013" "") "ads.example/banner" []
                  eq_refl eq_refl)).
Defined.

Lemma startsWith_cons (a b : ascii) (p s : string) :
  startsWith (String a p) (String b s) = Ascii.eqb a b && startsWith p s.
Proof. reflexivity. Qed.

Lemma splitAtFirst_step (sep : string) (c : ascii) (s : string) :
  startsWith sep (String c s) = false ->
  splitAtFirst sep (String c s)
  = match splitAtFirst sep s with
    | Some (a, b) => Some (String c a, b)
    | None => None
    end.
Proof. intros H. cbn [splitAtFirst]. now rewrite H. Qed.

Lemma splitAtFirst_here (sep s : string) :
  startsWith sep s = true -> splitAtFirst sep s = Some ("", drop (String.length sep) s).
Proof. intros H. destruct s; cbn [splitAtFirst]; now rewrite H. Qed.

Lemma matchLazySplit_cons (sep : string) (c : ascii) (s : string) :
  matchLazySplit sep (String c s)
  = if dotRun (String c s)
    then match splitAtFirst sep s with
         | Some (a, b) => if isEmpty b then None else Some (String c a, b)
         | None => None
         end
    else None.
Proof. reflexivity. Qed.

Lemma splitAtFirst_absent (c : ascii) (sep s : string) :
  JsString.forallb (fun x => negb (Ascii.eqb x c)) s = true ->
  splitAtFirst (String c sep) s = None /\ includes (String c sep) s = false.
Proof.
  induction s as [|x s IH]; intros Hs; [split; reflexivity |].
  cbn [JsString.forallb] in Hs. apply andb_true_iff in Hs as [Hx Hs].
  apply negb_true_iff in Hx. rewrite Ascii.eqb_sym in Hx.
  destruct (IH Hs) as [Hsplit Hincl].
  assert (Hstart : startsWith (String c sep) (String x s) = false)
    by (rewrite startsWith_cons, Hx; reflexivity).
  split.
  - now rewrite (splitAtFirst_step _ _ _ Hstart), Hsplit.
  - cbn [includes]. now rewrite Hstart, Hincl.
Qed.

Lemma no_hash_after_at (s : string) :
  JsString.forallb (fun x => negb (Ascii.eqb x "#")) s = true ->
  startsWith "@#" s = false /\ startsWith "#" s = false.
Proof.
  destruct s as [|x s]; [split; reflexivity |].
  cbn [JsString.forallb]. intros H. apply andb_true_iff in H as [Hx Hs].
  apply negb_true_iff in Hx. rewrite Ascii.eqb_sym in Hx.
  cbn [startsWith]. rewrite Hx. split; [| reflexivity].
  destruct (Ascii.eqb "@" x); [| reflexivity]. cbn [andb].
  destruct s as [|y s]; [reflexivity |].
  cbn [JsString.forallb] in Hs. apply andb_true_iff in Hs as [Hy _].
  apply negb_true_iff in Hy. rewrite Ascii.eqb_sym in Hy.
  cbn [startsWith]. now rewrite Hy.
Qed.

Lemma domainMatches_hash (domain : string) :
  JsString.forallb isHostChar domain = true -> domainMatches domain "#" = false.
Proof.
  intros Hd. destruct (domainMatches domain "#") eqn:Hm; [| reflexivity].
  apply domainMatches_spec in Hm as [-> | [sub ->]]; [discriminate Hd |].
  rewrite !forallb_app in Hd. apply andb_true_iff in Hd as [_ Hd].
  discriminate Hd.
Qed.

(** X24.  A cosmetic line [##selector] whose selector holds no [#] is a
    global hiding rule.  With one more [#] in front, as id selectors have
    it, the line [###name] is read as a rule for the domain [#] with the
    selector [name], and such a rule applies on no host. *)
Theorem id_selector_read_as_domain (name : string) :
  isEmpty name = false ->
  dotRun name = true ->
  JsString.forallb (fun x => negb (Ascii.eqb x "#")) name = true ->
  parseAdblockRule ("##" +:+ name) = Some (ElementHide [] name)
  /\ parseAdblockRule ("###" +:+ name) = Some (ElementHide ["#"] name)
  /\ forall domain,
       JsString.forallb isHostChar domain = true ->
       ruleApplies (Some ["#"]) domain = false.
Proof.
  intros Hne Hdot Hhash.
  destruct (splitAtFirst_absent "#" "@#" name Hhash) as [Hexc _].
  destruct (splitAtFirst_absent "#" "#" name Hhash) as [Hhide _].
  destruct (no_hash_after_at name Hhash) as [Hat Hfirst].
  assert (A1 : startsWith "#@#" (String "#" name) = false)
    by (rewrite startsWith_cons, Hat; reflexivity).
  assert (A2 : splitAtFirst "#@#" (String "#" name) = None)
    by (rewrite (splitAtFirst_step _ _ _ A1), Hexc; reflexivity).
  assert (A3 : startsWith "##" (String "#" name) = false)
    by (rewrite startsWith_cons, Hfirst; reflexivity).
  assert (A4 : splitAtFirst "##" (String "#" name) = None)
    by (rewrite (splitAtFirst_step _ _ _ A3), Hhide; reflexivity).
  split; [| split].
  - unfold parseAdblockRule.
    change (includes "##" ("##" +:+ name)) with true. cbn [orb].
    unfold parseElementHidingRule.
    change ("##" +:+ name) with (String "#" (String "#" name)).
    rewrite !matchLazySplit_cons, A2, A4.
    destruct (dotRun (String "#" (String "#" name))); reflexivity.
  - unfold parseAdblockRule.
    change (includes "##" ("###" +:+ name)) with true. cbn [orb].
    unfold parseElementHidingRule.
    change ("###" +:+ name) with (String "#" (String "#" (String "#" name))).
    assert (Hrun : dotRun (String "#" (String "#" (String "#" name))) = true)
      by exact Hdot.
    assert (B2 : splitAtFirst "#@#" (String "#" (String "#" name)) = None)
      by (rewrite (splitAtFirst_step "#@#" "#" (String "#" name) eq_refl), A2; reflexivity).
    assert (B3 : splitAtFirst "##" (String "#" (String "#" name)) = Some ("", name))
      by (rewrite (splitAtFirst_here "##" (String "#" (String "#" name)) eq_refl);
          reflexivity).
    rewrite !matchLazySplit_cons, Hrun, B2, B3, Hne. reflexivity.
  - intros domain Hd. rewrite ruleApplies_formula.
    change (includesOf ["#"]) with ["#"]. change (excludesOf ["#"]) with (@nil string).
    cbn [isNil existsb orb negb andb]. rewrite (domainMatches_hash domain Hd). reflexivity.
Qed.

Lemma id_selector_read_as_domain_witness :
  parseAdblockRule "###ad-banner" = Some (ElementHide ["#"] "ad-banner")
  /\ ruleApplies (Some ["#"]) "news.example" = false.
Proof.
  destruct (id_selector_read_as_domain "ad-banner" eq_refl eq_refl eq_refl)
    as (_ & Hparse & Hnever).
  split; [exact Hparse | exact (Hnever "news.example" eq_refl)].
Defined.

Lemma domainMatches_subdomain (sub domain entry : string) :
  domainMatches domain entry = true ->
  domainMatches (sub +:+ "." +:+ domain) entry = true.
Proof.
  intros H. apply domainMatches_spec. right.
  apply domainMatches_spec in H as [-> | [sub' ->]].
  - now exists sub.
  - exists (sub +:+ "." +:+ sub'). now rewrite !append_assoc.
Qed.

Lemma existsb_subdomain (sub domain : string) (entries : list string) :
  existsb (domainMatches domain) entries = true ->
  existsb (domainMatches (sub +:+ "." +:+ domain)) entries = true.
Proof.
  intros H. apply List.existsb_exists in H as (entry & Hin & Hm).
  apply List.existsb_exists. exists entry. split; [exact Hin |].
  now apply domainMatches_subdomain.
Qed.

(** X25.  A cosmetic rule that applies on a domain applies on each of its
    sub-domains too, unless an exclusion of the rule matches the
    sub-domain. *)
Theorem ruleApplies_on_subdomain (ds : list string) (sub domain : string) :
  ruleApplies (Some ds) domain = true ->
  existsb (domainMatches (sub +:+ "." +:+ domain)) (excludesOf ds) = false ->
  ruleApplies (Some ds) (sub +:+ "." +:+ domain) = true.
Proof.
  rewrite !ruleApplies_formula. intros H Hexc. rewrite Hexc.
  apply andb_true_iff in H as [H _]. apply andb_true_iff. split; [| reflexivity].
  apply orb_true_iff in H as [H | H]; [now rewrite H |].
  rewrite (existsb_subdomain sub domain _ H). apply orb_true_r.
Qed.

Lemma ruleApplies_on_subdomain_witness :
  ruleApplies (Some ["shop.example"; "~pay.shop.example"]) ("www" +:+ "." +:+ "shop.example")
  = true.
Proof.
  apply (ruleApplies_on_subdomain ["shop.example"; "~pay.shop.example"] "www"
           "shop.example"); reflexivity.
Defined.

(** X26.  An exclusion is inherited: a cosmetic rule excluded on a domain
    applies on none of its sub-domains, whatever else the rule lists. *)
Theorem exclusion_covers_subdomains (ds : list string) (sub domain : string) :
  existsb (domainMatches domain) (excludesOf ds) = true ->
  ruleApplies (Some ds) (sub +:+ "." +:+ domain) = false.
Proof.
  intros H. rewrite ruleApplies_formula, (existsb_subdomain sub domain _ H).
  apply andb_false_r.
Qed.

Lemma exclusion_covers_subdomains_witness :
  ruleApplies (Some ["example"; "~shop.example"; "www.shop.example"])
    ("www" +:+ "." +:+ "shop.example")
  = false.
Proof.
  apply (exclusion_covers_subdomains ["example"; "~shop.example"; "www.shop.example"]
           "www" "shop.example").
  reflexivity.
Defined.

Lemma hostChar_plain (c : ascii) :
  isHostChar c = true ->
  Ascii.eqb c "$" = false /\ Ascii.eqb c "|" = false /\ Ascii.eqb c "#" = false.
Proof.
  destruct c as [[] [] [] [] [] [] [] []]; intros H; try discriminate H;
    repeat split; reflexivity.
Qed.

Lemma escapeRegex_host_no_bar (d : string) :
  JsString.forallb isHostChar d = true ->
  JsString.forallb (fun c => negb (Ascii.eqb c "|")) (escapeRegex d) = true.
Proof.
  induction d as [|c d IH]; [reflexivity |].
  cbn [JsString.forallb]. rewrite andb_true_iff. intros [Hc Hd].
  rewrite escapeRegex_cons, forallb_app, (IH Hd), andb_true_r.
  destruct (isHostChar_cases c Hc) as [[-> Hs] | [Hs _]]; rewrite Hs; [reflexivity |].
  cbn [JsString.forallb]. destruct (hostChar_plain c Hc) as (_ & -> & _). reflexivity.
Qed.

Lemma endsWith_absent (c : ascii) (p s : string) :
  JsString.forallb (fun x => negb (Ascii.eqb x c)) s = true ->
  endsWith (p +:+ String c "") s = false.
Proof.
  intros Hs. unfold endsWith. rewrite rev_append.
  change (rev (String c "")) with (String c ""). rewrite append_cons, append_nil_l.
  rewrite <- forallb_rev in Hs. destruct (rev s) as [|x t]; [reflexivity |].
  cbn [JsString.forallb] in Hs. apply andb_true_iff in Hs as [Hx _].
  apply negb_true_iff in Hx. rewrite Ascii.eqb_sym in Hx.
  rewrite startsWith_cons, Hx. reflexivity.
Qed.

(** The translation of [||d] for a host name [d]. *)
Lemma ruleToRegex_anchor (d : string) :
  JsString.forallb isHostChar d = true ->
  ruleToRegex ("||" +:+ d) = "^https?://([a-z0-9-]+\.)*" +:+ escapeRegex d.
Proof.
  intros Hd. unfold ruleToRegex.
  change (startsWith "/" ("||" +:+ d)) with false. cbn [andb].
  destruct (escapeRegex_host_plain d Hd) as [Hstar Hcaret].
  rewrite (replaceChars_app _ _ "||" d).
  change (replaceChars isRegexSpecial (fun c => String "\" (String c "")) "||")
    with "\|\|".
  fold (escapeRegex d).
  rewrite (replaceChars_app (Ascii.eqb "*") _ "\|\|" (escapeRegex d)),
    (replaceChars_none (Ascii.eqb "*") _ (escapeRegex d) Hstar).
  change (replaceChars (Ascii.eqb "*") (fun _ => ".*") "\|\|") with "\|\|".
  rewrite (replaceChars_app (Ascii.eqb "^") _ "\|\|" (escapeRegex d)),
    (replaceChars_none (Ascii.eqb "^") _ (escapeRegex d) Hcaret).
  change (replaceChars (Ascii.eqb "^") (fun _ => "([^a-zA-Z0-9_.%-]|$)") "\|\|")
    with "\|\|".
  unfold replacePrefix at 2.
  rewrite (startsWith_app "\|\|" (escapeRegex d)), (drop_app "\|\|" (escapeRegex d)).
  change (replacePrefix "\|" "^" ("^https?://([a-z0-9-]+\.)*" +:+ escapeRegex d))
    with ("^https?://([a-z0-9-]+\.)*" +:+ escapeRegex d).
  assert (Hend : endsWith "\|" ("^https?://([a-z0-9-]+\.)*" +:+ escapeRegex d) = false).
  { apply (endsWith_absent "|" "\").
    rewrite forallb_app, (escapeRegex_host_no_bar d Hd). reflexivity. }
  unfold replaceSuffix. now rewrite Hend.
Qed.

Lemma parse_anchor (d : string) :
  JsString.forallb isHostChar d = true ->
  Regex.parse ("^https?://([a-z0-9-]+\.)*" +:+ escapeRegex d) = inl (anchorRe d).
Proof.
  intros Hd. unfold Regex.parse.
  rewrite list_ascii_app, run_app.
  change (Regex.run Regex.start (list_ascii_of_string "^https?://([a-z0-9-]+\.)*"))
    with (@inl Regex.PState Regex.SyntaxError
            (Regex.mkPState (Regex.mkFrame [] (List.rev schemeAtoms)) [] Regex.Normal true)).
  cbv iota.
  destruct (run_escaped_host d Hd (Regex.mkFrame [] (List.rev schemeAtoms)) [] true)
    as [closed' ->].
  unfold Regex.finish, Regex.frameRe, Regex.seqOf, anchorRe.
  cbn [Regex.mode Regex.outer Regex.top Regex.alternatives Regex.atoms app Regex.altOf].
  now rewrite List.rev_app_distr, !List.rev_involutive.
Qed.

Lemma anchorRe_found (d : string) (secure : bool) (labels : list string) (rest : string) :
  List.forallb isLabel labels = true ->
  Regex.found (anchorRe d) (list_ascii_of_string (requestUrl secure labels d rest)).
Proof.
  intros Hlabels.
  set (scheme := if secure then ["s"%char] else []).
  set (host := list_ascii_of_string (subdomains labels)).
  set (dom := list_ascii_of_string d).
  set (after := list_ascii_of_string rest).
  exists [], ([] ++ ["h"; "t"; "t"; "p"]%char ++ scheme ++ [":"; "/"; "/"]%char
              ++ host ++ dom ++ [])%list, after.
  split.
  - unfold requestUrl. rewrite !list_ascii_app.
    subst scheme host dom after. destruct secure; cbn [list_ascii_of_string app];
      rewrite ?app_nil_r, <- ?app_assoc; reflexivity.
  - set (w5 := (dom ++ [])%list).
    set (w4 := (host ++ w5)%list).
    set (w3 := ([":"; "/"; "/"]%char ++ w4)%list).
    set (w2 := (scheme ++ w3)%list).
    set (w1 := (["h"; "t"; "t"; "p"]%char ++ w2)%list).
    unfold anchorRe, schemeAtoms. fold dom.
    rewrite <- (app_nil_r (map Regex.Chr dom)).
    apply (matches_seq_cons Regex.Bol _ [] [] w1 after); [constructor |].
    apply (matches_literal ["h"; "t"; "t"; "p"]%char
             (Regex.Opt (Regex.Chr "s") :: _) ([] ++ []) w2 after).
    apply (matches_seq_cons (Regex.Opt (Regex.Chr "s")) _ _ scheme w3 after).
    { subst scheme. destruct secure; [apply Regex.MAltL | apply Regex.MAltR]; constructor. }
    apply (matches_literal [":"; "/"; "/"]%char (Regex.Star subdomainGroup :: _) _ w4 after).
    apply (matches_seq_cons (Regex.Star subdomainGroup) _ _ host w5 after);
      [now apply matches_subdomains |].
    apply (matches_literal dom [] _ [] after). constructor.
Qed.

(** X27.  A line [||d] for a host name [d] (no separator after it) is a
    block rule whose pattern is well formed and finds every request to [d]
    and to each sub-domain of [d], under both schemes, whatever follows
    the host in the URL. *)
Theorem domain_anchor_without_separator
    (d : string) (secure : bool) (labels : list string) (rest : string) :
  JsString.forallb isHostChar d = true ->
  List.forallb isLabel labels = true ->
  parseAdblockRule ("||" +:+ d)
  = Some (NetworkBlock ("^https?://([a-z0-9-]+\.)*" +:+ escapeRegex d) ("||" +:+ d)
            (Some emptyOptions))
  /\ Regex.regexMatches ("^https?://([a-z0-9-]+\.)*" +:+ escapeRegex d)
       (requestUrl secure labels d rest).
Proof.
  intros Hd Hlabels. split.
  - assert (Hhash : JsString.forallb (fun x => negb (Ascii.eqb x "#")) ("||" +:+ d) = true).
    { rewrite forallb_app. cbn [JsString.forallb andb]. change (negb (Ascii.eqb "|" "#")) with true.
      cbn [andb]. apply (forallb_impl isHostChar); [| exact Hd].
      intros c Hc. now destruct (hostChar_plain c Hc) as (_ & _ & ->). }
    assert (Hdollar : JsString.forallb (fun x => negb (Ascii.eqb x "$")) (String "|" d) = true).
    { cbn [JsString.forallb]. change (negb (Ascii.eqb "|" "$")) with true. cbn [andb].
      apply (forallb_impl isHostChar); [| exact Hd].
      intros c Hc. now destruct (hostChar_plain c Hc) as (-> & _ & _). }
    unfold parseAdblockRule.
    rewrite (proj2 (splitAtFirst_absent "#" "#" _ Hhash)),
      (proj2 (splitAtFirst_absent "#" "@#" _ Hhash)),
      (proj2 (splitAtFirst_absent "#" "%#" _ Hhash)),
      (proj2 (splitAtFirst_absent "#" "@%#" _ Hhash)).
    cbn [orb]. unfold parseNetworkRule.
    change (startsWith "@@" ("||" +:+ d)) with false. cbv iota.
    change ("||" +:+ d) with (String "|" (String "|" d)) at 1.
    rewrite matchLazySplit_cons, (proj1 (splitAtFirst_absent "$" "" _ Hdollar)).
    change (String "|" (String "|" d)) with ("||" +:+ d).
    destruct (dotRun ("||" +:+ d)); now rewrite (ruleToRegex_anchor d Hd).
  - exists (anchorRe d). split; [now apply parse_anchor | now apply anchorRe_found].
Qed.

Lemma domain_anchor_without_separator_witness :
  Regex.regexMatches ("^https?://([a-z0-9-]+\.)*" +:+ escapeRegex "ads.example")
    (requestUrl true ["cdn"] "ads.example" "/pixel.gif").
Proof.
  exact (proj2 (domain_anchor_without_separator "ads.example" true ["cdn"] "/pixel.gif"
                  eq_refl eq_refl)).
Defined.

Lemma parseRuleOption_unsupported (options : RuleOptions) (part : string) :
  ~ In (optionKey part) supportedOptionKeys ->
  parseRuleOption options part = options.
Proof.
  intros Hkey. unfold parseRuleOption. fold (optionKey part).
  cbv zeta.
  assert (Hne : forall k, In k supportedOptionKeys -> String.eqb (optionKey part) k = false).
  { intros k Hk. apply String.eqb_neq. intros Heq. apply Hkey. now rewrite Heq. }
  unfold supportedOptionKeys in Hne. cbn [In] in Hne.
  rewrite !Hne by tauto. reflexivity.
Qed.

Lemma fold_unsupported (parts : list string) (options : RuleOptions) :
  (forall part, In part parts -> ~ In (optionKey part) supportedOptionKeys) ->
  fold_left parseRuleOption parts options = options.
Proof.
  revert options. induction parts as [|part parts IH]; intros options H; [reflexivity |].
  cbn [fold_left]. rewrite parseRuleOption_unsupported by (apply H; now left).
  apply IH. intros p Hp. apply H. now right.
Qed.

(** X28.  Options [parseRuleOptions] has no case for ([popup],
    [document], [media], [~script], ...) leave no trace: an option string
    made of such options gives the empty options, and the rule is compiled
    as if it had been written without them, for the default resource
    types. *)
Theorem unsupported_options_ignored (optionString pattern : string) (id : Z) :
  (forall part, In part (split "," optionString) ->
                ~ In (optionKey part) supportedOptionKeys) ->
  parseRuleOptions optionString = emptyOptions
  /\ compileToDNR pattern (Some (parseRuleOptions optionString)) id
     = compileToDNR pattern None id.
Proof.
  intros H. assert (Hempty : parseRuleOptions optionString = emptyOptions)
    by now apply fold_unsupported.
  split; [exact Hempty | now rewrite Hempty].
Qed.

Lemma unsupported_options_ignored_witness :
  compileToDNR "ads" (Some (parseRuleOptions "popup,~script")) 100000
  = compileToDNR "ads" None 100000.
Proof.
  apply (unsupported_options_ignored "popup,~script" "ads" 100000).
  intros part Hpart. cbn in Hpart.
  destruct Hpart as [<- | [<- | []]]; cbn; intuition discriminate.
Defined.

Lemma splitInitiatorDomains_acc (domains includeDomains excludeDomains : list string) :
  fold_left
    (fun '(includeDomains, excludeDomains) domain =>
       if startsWith "~" domain
       then (includeDomains, excludeDomains ++ [drop 1 domain])
       else (includeDomains ++ [domain], excludeDomains))
    domains (includeDomains, excludeDomains)
  = (includeDomains ++ includesOf domains, excludeDomains ++ excludesOf domains).
Proof.
  revert includeDomains excludeDomains.
  induction domains as [|domain domains IH]; intros includeDomains excludeDomains.
  - cbn [fold_left includesOf excludesOf List.filter map]. now rewrite !app_nil_r.
  - cbn [fold_left]. unfold includesOf, excludesOf. cbn [List.filter].
    destruct (startsWith "~" domain); cbn [negb map]; rewrite IH;
      unfold includesOf, excludesOf; now rewrite <- app_assoc.
Qed.

(** X29.  The initiator domains of a compiled list rule: the entries of
    the [domain=] option without [~] become [initiatorDomains], those with
    [~] become [excludedInitiatorDomains] without it, each in the order
    written, and a member that would be empty is left out. *)
Theorem compileToDNR_initiators
    (pattern : string) (options : RuleOptions) (domains : list string) (id : Z) :
  opt_domains options = Some domains ->
  initiatorDomains (dnr_condition (compileToDNR pattern (Some options) id))
  = nonEmpty (includesOf domains)
  /\ excludedInitiatorDomains (dnr_condition (compileToDNR pattern (Some options) id))
     = nonEmpty (excludesOf domains).
Proof.
  intros Hdomains. unfold compileToDNR. rewrite Hdomains.
  cbn [dnr_condition initiatorDomains excludedInitiatorDomains].
  unfold splitInitiatorDomains. rewrite splitInitiatorDomains_acc.
  cbn [app fst snd]. split; reflexivity.
Qed.

Lemma compileToDNR_initiators_witness :
  initiatorDomains
    (dnr_condition
       (compileToDNR "ads" (Some (parseRuleOptions "domain=shop.example|~pay.shop.example"))
          100000))
  = nonEmpty (includesOf ["shop.example"; "~pay.shop.example"]).
Proof.
  exact (proj1 (compileToDNR_initiators "ads"
                  (parseRuleOptions "domain=shop.example|~pay.shop.example")
                  ["shop.example"; "~pay.shop.example"] 100000 eq_refl)).
Defined.

End ParserCoverage.

